(** * IranDoc Search UI: the query / result transformation pipeline

    A shallow embedding of the two variants of [app.js] that live in the
    repository:

    - [src/UI/app.js]          (module [AppJs]): string-only tokeniser, the
      highlight tokens are replaced by the expanded query's tokens;
    - [src/unnamed/part_000]   (module [Toggles]): the variant with the
      expand / OR toggles, a tokeniser that accepts any value, a separate
      [_expandedOnlyTokens] global.

    The functions [escHtml], [highlight], [buildPersonRow], [buildKeywords]
    and the score line of [renderCardHeader] are textually identical in the
    two files and are embedded once.

    JavaScript strings are sequences of UTF-16 code units; the built-ins the
    program calls ([String.prototype.split], [replace], [trim], [includes],
    [new RegExp], [Set], [Number.prototype.toFixed]) are embedded in module
    [JS] after the ECMAScript algorithms. *)

From Stdlib Require Import Strings.String Strings.Ascii.
From Stdlib Require Import List NArith ZArith Bool Lia Arith.
From Stdlib Require Import Floats.SpecFloat.
Import ListNotations.

Set Warnings "-register-all".

Local Open Scope string_scope.
Local Open Scope bool_scope.
Local Open Scope list_scope.

(* ================================================================== *)
(** * JavaScript built-ins                                              *)
(* ================================================================== *)

Module JS.

(** ** Strings *)

(** A UTF-16 code unit, [0 .. 65535]. *)
Definition char := N.

Definition jsstring := list char.

(** An ASCII literal of the source as a string of code units. *)
Definition lit (s : string) : jsstring :=
  map N_of_ascii (list_ascii_of_string s).

(** The code unit of a one-character ASCII literal. *)
Definition ch (s : string) : char :=
  match s with
  | String a _ => N_of_ascii a
  | EmptyString => 0%N
  end.

(** The double quote, which the source writes inside single-quoted
    literals. *)
Definition dquote : char := 34%N.

(** A literal of the source that holds double quotes, written here with
    an apostrophe in the place of each. *)
Definition html (s : string) : jsstring :=
  map (fun c => if N.eqb c 39 then dquote else c) (lit s).

(** A literal of the source outside ASCII, given by its code units. *)
Definition units (l : list N) : jsstring := l.

Fixpoint str_eqb (a b : jsstring) : bool :=
  match a, b with
  | [], [] => true
  | x :: a', y :: b' => N.eqb x y && str_eqb a' b'
  | _, _ => false
  end.

(** [Array.prototype.join]. *)
Fixpoint join (sep : jsstring) (l : list jsstring) : jsstring :=
  match l with
  | [] => []
  | [x] => x
  | x :: l' => x ++ sep ++ join sep l'
  end.

(** [s] starts with [p]. *)
Fixpoint starts_with (p s : jsstring) : bool :=
  match p, s with
  | [], _ => true
  | x :: p', y :: s' => N.eqb x y && starts_with p' s'
  | _ :: _, [] => false
  end.

(** [String.prototype.includes]: [t] occurs in [s] as a run of consecutive
    code units. *)
Fixpoint includes (s t : jsstring) : bool :=
  starts_with t s ||
  match s with
  | [] => false
  | _ :: s' => includes s' t
  end.

(** WhiteSpace and LineTerminator code points of ECMAScript: the set that
    [\s] matches and that [trim] strips. *)
Definition white_ranges : list (char * char) :=
  [ (9, 13); (32, 32); (160, 160); (5760, 5760); (8192, 8202);
    (8232, 8233); (8239, 8239); (8287, 8287); (12288, 12288);
    (65279, 65279) ]%N.

Definition in_ranges (c : char) (rs : list (char * char)) : bool :=
  existsb (fun r => N.leb (fst r) c && N.leb c (snd r)) rs.

Definition is_white (c : char) : bool := in_ranges c white_ranges.

Fixpoint trim_start (s : jsstring) : jsstring :=
  match s with
  | c :: s' => if is_white c then trim_start s' else s
  | [] => []
  end.

Definition trim_end (s : jsstring) : jsstring :=
  rev (trim_start (rev s)).

(** [String.prototype.trim]. *)
Definition trim (s : jsstring) : jsstring := trim_end (trim_start s).

(** Truthiness of a string: the empty string is the only falsy one. *)
Definition truthy_str (s : jsstring) : bool :=
  match s with [] => false | _ :: _ => true end.

(** ** Regular expressions (no flags but [g]; code-unit matching) *)

Inductive regex : Type :=
| Eps
| Chr (c : char)
| Cls (neg : bool) (rs : list (char * char))
| Bol
| Eol
| Seq (a b : regex)
| Alt (a b : regex)
| Grp (i : nat) (a : regex)
| Rep (min : nat) (max : option nat) (greedy : bool) (a : regex).

(** The outcome of a piece of code: a value, a thrown exception, or a
    construct that this embedding does not cover (for a pattern text: back
    references, look-around, named or non-capturing groups, hex and unicode
    escapes; for [toFixed]: magnitudes of [10^21] and more). *)
Inductive exn : Type := TypeError | SyntaxError.

Inductive result (A : Type) : Type :=
| Ok (a : A)
| Throw (e : exn)
| Unmodelled.

Arguments Ok {A} a.
Arguments Throw {A} e.
Arguments Unmodelled {A}.

Definition bind {A B : Type} (x : result A) (f : A -> result B)
  : result B :=
  match x with
  | Ok a => f a
  | Throw e => Throw e
  | Unmodelled => Unmodelled
  end.

(** SyntaxCharacter of the ECMAScript pattern grammar:
    [^ $ \ . * + ? ( ) [ ] { } |]. *)
Definition syntax_chars : jsstring := lit "^$\.*+?()[]{}|".

Definition is_syntax_char (c : char) : bool :=
  existsb (N.eqb c) syntax_chars.

Definition line_terminators : list (char * char) :=
  [ (10, 10); (13, 13); (8232, 8233) ]%N.

Definition digit_ranges : list (char * char) := [ (48, 57) ]%N.

Definition word_ranges : list (char * char) :=
  [ (48, 57); (65, 90); (95, 95); (97, 122) ]%N.

Definition is_digit (c : char) : bool := in_ranges c digit_ranges.

Definition is_alnum (c : char) : bool :=
  in_ranges c [ (48, 57); (65, 90); (97, 122) ]%N.

(** [.]: any code unit but a line terminator. *)
Definition Dot : regex := Cls true line_terminators.

(** Control escapes [\f \n \r \t \v]. *)
Definition control_escape (c : char) : option char :=
  if N.eqb c (ch "f") then Some 12%N
  else if N.eqb c (ch "n") then Some 10%N
  else if N.eqb c (ch "r") then Some 13%N
  else if N.eqb c (ch "t") then Some 9%N
  else if N.eqb c (ch "v") then Some 11%N
  else None.

(** Character class escapes [\d \D \s \S \w \W]. *)
Definition class_escape (c : char) : option (bool * list (char * char)) :=
  if N.eqb c (ch "d") then Some (false, digit_ranges)
  else if N.eqb c (ch "D") then Some (true, digit_ranges)
  else if N.eqb c (ch "s") then Some (false, white_ranges)
  else if N.eqb c (ch "S") then Some (true, white_ranges)
  else if N.eqb c (ch "w") then Some (false, word_ranges)
  else if N.eqb c (ch "W") then Some (true, word_ranges)
  else None.

(** What follows a backslash outside a class. *)
Definition parse_atom_escape (c : char) : result regex :=
  match class_escape c with
  | Some (neg, rs) => Ok (Cls neg rs)
  | None =>
    match control_escape c with
    | Some k => Ok (Chr k)
    | None =>
      if is_alnum c then Unmodelled      (* \b \B \c \k \x \u \0 \1 ... *)
      else Ok (Chr c)                (* IdentityEscape *)
    end
  end.

(** Decimal digits at the head of a string. *)
Fixpoint read_digits (s : jsstring) (acc : N) (seen : bool)
  : option N * jsstring :=
  match s with
  | c :: s' =>
    if is_digit c then read_digits s' (acc * 10 + (c - 48))%N true
    else ((if seen then Some acc else None), s)
  | [] => ((if seen then Some acc else None), s)
  end.

(** A braced quantifier [{n}], [{n,}] or [{n,m}] at the head of [s] (the
    opening brace already consumed). *)
Definition parse_braces (s : jsstring)
  : option (N * option N * jsstring) :=
  match read_digits s 0%N false with
  | (Some lo, c :: s1) =>
    if N.eqb c (ch "}") then Some (lo, Some lo, s1)
    else if N.eqb c (ch ",") then
      match read_digits s1 0%N false with
      | (Some hi, c2 :: s2) =>
        if N.eqb c2 (ch "}") then Some (lo, Some hi, s2) else None
      | (None, c2 :: s2) =>
        if N.eqb c2 (ch "}") then Some (lo, None, s2) else None
      | _ => None
      end
    else None
  | _ => None
  end.

(** The optional quantifier after an atom. *)
Definition parse_quantifier (a : regex) (s : jsstring)
  : result (regex * jsstring) :=
  let quant (min : nat) (max : option nat) (s1 : jsstring) :=
    match s1 with
    | c :: s2 =>
      if N.eqb c (ch "?") then Ok (Rep min max false a, s2)
      else Ok (Rep min max true a, s1)
    | [] => Ok (Rep min max true a, s1)
    end in
  match s with
  | c :: s1 =>
    if N.eqb c (ch "*") then quant 0 None s1
    else if N.eqb c (ch "+") then quant 1 None s1
    else if N.eqb c (ch "?") then quant 0 (Some 1) s1
    else if N.eqb c (ch "{") then
      match parse_braces s1 with
      | Some (lo, Some hi, s2) =>
        if N.ltb hi lo then Throw SyntaxError
        else quant (N.to_nat lo) (Some (N.to_nat hi)) s2
      | Some (lo, None, s2) => quant (N.to_nat lo) None s2
      | None => Ok (a, s)
      end
    else Ok (a, s)
  | [] => Ok (a, s)
  end.

(** One atom of a character class: a code unit or a set of ranges. *)
Inductive class_atom : Type :=
| CChar (c : char)
| CSet (rs : list (char * char)).

Definition parse_class_atom (s : jsstring)
  : result (class_atom * jsstring) :=
  match s with
  | [] => Throw SyntaxError
  | c :: s1 =>
    if N.eqb c (ch "\") then
      match s1 with
      | [] => Throw SyntaxError
      | e :: s2 =>
        match class_escape e with
        | Some (false, rs) => Ok (CSet rs, s2)
        | Some (true, _) => Unmodelled
        | None =>
          match control_escape e with
          | Some k => Ok (CChar k, s2)
          | None =>
            if N.eqb e (ch "b") then Ok (CChar 8%N, s2)
            else if is_alnum e then Unmodelled
            else Ok (CChar e, s2)
          end
        end
      end
    else Ok (CChar c, s1)
  end.

Definition atom_ranges (a : class_atom) : list (char * char) :=
  match a with
  | CChar c => [(c, c)]
  | CSet rs => rs
  end.

(** The ranges of a class body, up to the closing bracket. *)
Fixpoint parse_class_ranges (fuel : nat) (s : jsstring)
  : result (list (char * char) * jsstring) :=
  match fuel with
  | O => Unmodelled
  | S f =>
    match s with
    | [] => Throw SyntaxError
    | c :: s1 =>
      if N.eqb c (ch "]") then Ok ([], s1)
      else
        bind (parse_class_atom s) (fun '(a, s2) =>
          match s2 with
          | d :: s3 =>
            if N.eqb d (ch "-") then
              match s3 with
              | e :: _ =>
                if N.eqb e (ch "]") then
                  bind (parse_class_ranges f s2) (fun '(rs, s4) =>
                    Ok (atom_ranges a ++ rs, s4))
                else
                  bind (parse_class_atom s3) (fun '(b, s4) =>
                    match a, b with
                    | CChar lo, CChar hi =>
                      if N.ltb hi lo then Throw SyntaxError
                      else bind (parse_class_ranges f s4) (fun '(rs, s5) =>
                             Ok ((lo, hi) :: rs, s5))
                    | _, _ =>
                      bind (parse_class_ranges f s4) (fun '(rs, s5) =>
                        Ok (atom_ranges a ++ [(ch "-", ch "-")]
                                    ++ atom_ranges b ++ rs, s5))
                    end)
              | [] => Throw SyntaxError
              end
            else
              bind (parse_class_ranges f s2) (fun '(rs, s4) =>
                Ok (atom_ranges a ++ rs, s4))
          | [] => Throw SyntaxError
          end)
    end
  end.

(** A character class, the opening bracket already consumed. *)
Definition parse_class (s : jsstring) : result (regex * jsstring) :=
  match s with
  | c :: s1 =>
    if N.eqb c (ch "^") then
      bind (parse_class_ranges (S (length s1)) s1) (fun '(rs, s2) =>
        Ok (Cls true rs, s2))
    else
      bind (parse_class_ranges (S (length s)) s) (fun '(rs, s2) =>
        Ok (Cls false rs, s2))
  | [] => Throw SyntaxError
  end.

(** Disjunction, Alternative and Term of the pattern grammar.  [g] is the
    number the next capturing group receives. *)
Fixpoint parse_disj (fuel : nat) (s : jsstring) (g : nat) {struct fuel}
  : result (regex * jsstring * nat) :=
  match fuel with
  | O => Unmodelled
  | S f =>
    bind (parse_alt f s g) (fun '(a, s1, g1) =>
      match s1 with
      | c :: s2 =>
        if N.eqb c (ch "|") then
          bind (parse_disj f s2 g1) (fun '(d, s3, g2) =>
            Ok (Alt a d, s3, g2))
        else Ok (a, s1, g1)
      | [] => Ok (a, s1, g1)
      end)
  end

with parse_alt (fuel : nat) (s : jsstring) (g : nat) {struct fuel}
  : result (regex * jsstring * nat) :=
  match fuel with
  | O => Unmodelled
  | S f =>
    match s with
    | [] => Ok (Eps, [], g)
    | c :: _ =>
      if N.eqb c (ch "|") || N.eqb c (ch ")") then Ok (Eps, s, g)
      else
        bind (parse_term f s g) (fun '(t, s1, g1) =>
          bind (parse_alt f s1 g1) (fun '(a, s2, g2) =>
            Ok (Seq t a, s2, g2)))
    end
  end

with parse_term (fuel : nat) (s : jsstring) (g : nat) {struct fuel}
  : result (regex * jsstring * nat) :=
  match fuel with
  | O => Unmodelled
  | S f =>
    let quantified (r : result (regex * jsstring)) (g1 : nat) :=
      bind r (fun '(a, s1) =>
        bind (parse_quantifier a s1) (fun '(q, s2) =>
          Ok (q, s2, g1))) in
    match s with
    | [] => Throw SyntaxError
    | c :: s1 =>
      if N.eqb c (ch "^") then Ok (Bol, s1, g)
      else if N.eqb c (ch "$") then Ok (Eol, s1, g)
      else if N.eqb c (ch "*") || N.eqb c (ch "+") || N.eqb c (ch "?")
        then Throw SyntaxError   (* nothing to repeat *)
      else if N.eqb c (ch "{") then
        match parse_braces s1 with
        | Some _ => Throw SyntaxError   (* nothing to repeat *)
        | None => quantified (Ok (Chr c, s1)) g
        end
      else if N.eqb c (ch ".") then quantified (Ok (Dot, s1)) g
      else if N.eqb c (ch "[") then quantified (parse_class s1) g
      else if N.eqb c (ch "\") then
        match s1 with
        | [] => Throw SyntaxError   (* \ at the end *)
        | e :: s2 =>
          quantified
            (bind (parse_atom_escape e) (fun a => Ok (a, s2))) g
        end
      else if N.eqb c (ch "(") then
        match s1 with
        | q :: _ =>
          if N.eqb q (ch "?") then Unmodelled
          else
            bind (parse_disj f s1 (S g)) (fun '(d, s2, g1) =>
              match s2 with
              | p :: s3 =>
                if N.eqb p (ch ")")
                then quantified (Ok (Grp g d, s3)) g1
                else Throw SyntaxError
              | [] => Throw SyntaxError   (* unterminated group *)
              end)
        | [] => Throw SyntaxError
        end
      else quantified (Ok (Chr c, s1)) g
    end
  end.

(** The indices of the capturing groups of a regex. *)
Fixpoint groups (r : regex) : list nat :=
  match r with
  | Seq a b | Alt a b => groups a ++ groups b
  | Grp i a => i :: groups a
  | Rep _ _ _ a => groups a
  | _ => []
  end.

(** [new RegExp(src, 'g')]. *)
Definition RegExp_new (src : jsstring) : result regex :=
  bind (parse_disj (2 * length src + 4) src 1) (fun '(r, s1, _) =>
    match s1 with
    | [] => Ok r
    | _ :: _ => Throw SyntaxError   (* unmatched ) *)
    end).

(** *** Matching: the backtracking matcher of the ECMAScript semantics *)

Record mstate : Type := MState {
  rest : jsstring;                  (* the input from the current index on *)
  pos  : nat;                       (* the current index *)
  caps : list (nat * jsstring)      (* the captures set so far *)
}.

Definition cont := mstate -> option mstate.

Definition advance (x : mstate) : mstate :=
  MState (tl (rest x)) (S (pos x)) (caps x).

Definition set_cap (i : nat) (v : jsstring) (x : mstate) : mstate :=
  MState (rest x) (pos x)
         ((i, v) :: filter (fun p => negb (Nat.eqb (fst p) i)) (caps x)).

Definition clear_caps (gs : list nat) (x : mstate) : mstate :=
  MState (rest x) (pos x)
         (filter (fun p => negb (existsb (Nat.eqb (fst p)) gs)) (caps x)).

Definition get_cap (i : nat) (cs : list (nat * jsstring)) : jsstring :=
  match find (fun p => Nat.eqb (fst p) i) cs with
  | Some (_, v) => v
  | None => []
  end.

Definition orelse (a : option mstate) (b : unit -> option mstate)
  : option mstate :=
  match a with
  | Some z => Some z
  | None => b tt
  end.

(** RepeatMatcher.  Every iteration lowers [min] or, once [min] is [0],
    consumes input, so [min + length (rest x) + 1] iterations are never
    used up. *)
Fixpoint repeat_matcher (fuel : nat) (m : mstate -> cont -> option mstate)
    (inner : list nat) (min : nat) (max : option nat) (greedy : bool)
    (x : mstate) (c : cont) {struct fuel} : option mstate :=
  match fuel with
  | O => None
  | S f =>
    match max with
    | Some O => c x
    | _ =>
      let d : cont := fun y =>
        if Nat.eqb min 0 && Nat.eqb (pos y) (pos x) then None
        else repeat_matcher f m inner (Nat.pred min)
                            (option_map Nat.pred max) greedy y c in
      let xr := clear_caps inner x in
      if negb (Nat.eqb min 0) then m xr d
      else if greedy then orelse (m xr d) (fun _ => c x)
      else orelse (c x) (fun _ => m xr d)
    end
  end.

Fixpoint rmatch (r : regex) (x : mstate) (c : cont) {struct r}
  : option mstate :=
  match r with
  | Eps => c x
  | Chr k =>
    match rest x with
    | h :: _ => if N.eqb h k then c (advance x) else None
    | [] => None
    end
  | Cls neg rs =>
    match rest x with
    | h :: _ => if xorb neg (in_ranges h rs) then c (advance x) else None
    | [] => None
    end
  | Bol => if Nat.eqb (pos x) 0 then c x else None
  | Eol => match rest x with [] => c x | _ :: _ => None end
  | Seq a b => rmatch a x (fun y => rmatch b y c)
  | Alt a b => orelse (rmatch a x c) (fun _ => rmatch b x c)
  | Grp i a =>
    rmatch a x (fun y =>
      c (set_cap i (firstn (pos y - pos x) (rest x)) y))
  | Rep min max greedy a =>
    repeat_matcher (min + length (rest x) + 1) (rmatch a) (groups a)
                   min max greedy x c
  end.

(** A match of [r] that starts exactly at index [p], where [s] is the
    input from [p] on: the matched text and the captures. *)
Definition match_at (r : regex) (p : nat) (s : jsstring)
  : option (jsstring * list (nat * jsstring)) :=
  match rmatch r (MState s p []) (fun y => Some y) with
  | Some y => Some (firstn (pos y - p) s, caps y)
  | None => None
  end.

(** *** Replacement templates (GetSubstitution) *)

Definition digit_val (c : char) : nat := N.to_nat (c - 48)%N.

Fixpoint expand_template (t : jsstring) (ngroups : nat)
    (matched before after : jsstring) (cs : list (nat * jsstring))
  : jsstring :=
  match t with
  | [] => []
  | c :: t1 =>
    if N.eqb c (ch "$") then
      match t1 with
      | d :: t2 =>
        if N.eqb d (ch "$") then
          d :: expand_template t2 ngroups matched before after cs
        else if N.eqb d (ch "&") then
          matched ++ expand_template t2 ngroups matched before after cs
        else if N.eqb d (ch "`") then
          before ++ expand_template t2 ngroups matched before after cs
        else if N.eqb d (ch "'") then
          after ++ expand_template t2 ngroups matched before after cs
        else if is_digit d then
          let one := digit_val d in
          let single :=
            if Nat.leb 1 one && Nat.leb one ngroups
            then get_cap one cs
                 ++ expand_template t2 ngroups matched before after cs
            else c :: d
                 :: expand_template t2 ngroups matched before after cs in
          match t2 with
          | e :: t3 =>
            let two := 10 * one + digit_val e in
            if is_digit e && Nat.leb 1 two && Nat.leb two ngroups
            then get_cap two cs
                 ++ expand_template t3 ngroups matched before after cs
            else single
          | [] => single
          end
        else c :: expand_template t1 ngroups matched before after cs
      | [] => [c]
      end
    else c :: expand_template t1 ngroups matched before after cs
  end.

(** *** [String.prototype.replace] with a global regex and a string
    template *)

(** [seen] is the input before index [p] (reversed), [s] the input from
    [p] on.  After an empty match the search resumes one code unit
    further. *)
Fixpoint replace_from (fuel : nat) (r : regex) (t : jsstring)
    (seen : jsstring) (p : nat) (s : jsstring) {struct fuel} : jsstring :=
  match fuel with
  | O => s
  | S f =>
    let step :=
      match s with
      | [] => []
      | c :: s1 => c :: replace_from f r t (c :: seen) (S p) s1
      end in
    match match_at r p s with
    | Some (m, cs) =>
      let after := skipn (length m) s in
      let sub := expand_template t (length (groups r)) m (rev seen) after cs in
      match m with
      | [] => sub ++ step
      | _ :: _ =>
        sub ++ replace_from f r t (rev m ++ seen) (p + length m) after
      end
    | None => step
    end
  end.

Definition replace_g (r : regex) (t : jsstring) (s : jsstring) : jsstring :=
  replace_from (S (length s)) r t [] 0 s.

(** *** [String.prototype.split] with a regex separator and no limit.

    [cur] is the text since the last separator (reversed), [s] the input
    from index [q] on, [fresh] tells that [q] is the end of the last
    separator.  A separator matched at [q] is skipped when it is empty and
    ends where the last one did.  The separators of this program have no
    capturing group, so no capture is spliced into the result. *)
Fixpoint split_from (fuel : nat) (r : regex) (cur : jsstring)
    (fresh : bool) (q : nat) (s : jsstring) {struct fuel}
  : list jsstring :=
  match fuel with
  | O => [rev cur ++ s]
  | S f =>
    match s with
    | [] => [rev cur]
    | c :: s1 =>
      match match_at r q s with
      | Some (m, _) =>
        match m with
        | [] =>
          if fresh then split_from f r (c :: cur) false (S q) s1
          else rev cur :: split_from f r [c] false (S q) s1
        | _ :: _ =>
          rev cur :: split_from f r [] true (q + length m)
                                (skipn (length m) s)
        end
      | None => split_from f r (c :: cur) false (S q) s1
      end
    end
  end.

Definition split (r : regex) (s : jsstring) : list jsstring :=
  match s with
  | [] =>
    match match_at r 0 [] with
    | Some _ => []
    | None => [[]]
    end
  | _ :: _ => split_from (S (length s)) r [] true 0 s
  end.

(** ** Arrays and sets of strings *)

(** [Set.prototype.add]: a value already present keeps its place. *)
Definition set_add (x : jsstring) (l : list jsstring) : list jsstring :=
  if existsb (str_eqb x) l then l else l ++ [x].

(** [new Set(array)]: the elements in insertion order. *)
Definition Set_new (l : list jsstring) : list jsstring :=
  fold_left (fun acc x => set_add x acc) l [].

(** [Set.prototype.has]. *)
Definition Set_has (l : list jsstring) (x : jsstring) : bool :=
  existsb (str_eqb x) l.

(** ** Numbers: IEEE 754 binary64 *)

Definition number := spec_float.

Definition prec : Z := 53.
Definition emax : Z := 1024.

(** The [*] of two numbers. *)
Definition mul (x y : number) : number := SFmul prec emax x y.

(** [100] is [7036874417766400 * 2^-46]. *)
Definition hundred : number := S754_finite false 7036874417766400 (-46).

Definition digit_code (d : N) : char := (48 + d)%N.

Fixpoint uint_codes (u : Decimal.uint) : jsstring :=
  match u with
  | Decimal.Nil => []
  | Decimal.D0 u' => digit_code 0 :: uint_codes u'
  | Decimal.D1 u' => digit_code 1 :: uint_codes u'
  | Decimal.D2 u' => digit_code 2 :: uint_codes u'
  | Decimal.D3 u' => digit_code 3 :: uint_codes u'
  | Decimal.D4 u' => digit_code 4 :: uint_codes u'
  | Decimal.D5 u' => digit_code 5 :: uint_codes u'
  | Decimal.D6 u' => digit_code 6 :: uint_codes u'
  | Decimal.D7 u' => digit_code 7 :: uint_codes u'
  | Decimal.D8 u' => digit_code 8 :: uint_codes u'
  | Decimal.D9 u' => digit_code 9 :: uint_codes u'
  end.

(** The decimal digits of a natural number, ["0"] for zero. *)
Definition decimal (n : N) : jsstring := uint_codes (N.to_uint n).

(** The integer [n] for which [n / 10^f] is closest to [m * 2^e], the
    larger one when two are equally close. *)
Definition round_scaled (f : nat) (m : positive) (e : Z) : Z :=
  let p := (Zpos m * 10 ^ Z.of_nat f)%Z in
  if (0 <=? e)%Z then (p * 2 ^ e)%Z
  else ((2 * p + 2 ^ (- e)) / 2 ^ (1 - e))%Z.

(** [m * 2^e >= 10^21]. *)
Definition at_least_1e21 (m : positive) (e : Z) : bool :=
  if (0 <=? e)%Z then (10 ^ 21 <=? Zpos m * 2 ^ e)%Z
  else (10 ^ 21 * 2 ^ (- e) <=? Zpos m)%Z.

(** Steps 11.b and 11.c of [toFixed]: the digits of [n], padded with zeros
    to [f + 1] digits, with a point before the last [f]. *)
Definition fixed_digits (f : nat) (n : Z) : jsstring :=
  let m := decimal (Z.to_N n) in
  match f with
  | O => m
  | S _ =>
    let m := repeat (digit_code 0) (S f - length m) ++ m in
    firstn (length m - f) m ++ lit "." ++ skipn (length m - f) m
  end.

(** [Number.prototype.toFixed(f)] for [0 <= f <= 100].  Magnitudes of
    [10^21] and more are printed by the general number-to-string
    conversion, which is not embedded. *)
Definition toFixed (f : nat) (x : number) : result jsstring :=
  match x with
  | S754_nan => Ok (lit "NaN")
  | S754_infinity s =>
    Ok ((if s then lit "-" else []) ++ lit "Infinity")
  | S754_zero _ => Ok (fixed_digits f 0)
  | S754_finite s m e =>
    if at_least_1e21 m e then Unmodelled
    else Ok ((if s then lit "-" else [])
             ++ fixed_digits f (round_scaled f m e))
  end.

(** ** Values *)

Inductive value : Type :=
| VUndefined
| VNull
| VBool (b : bool)
| VNumber (x : number)
| VString (s : jsstring)
| VArray (l : list value)
| VObject.                          (* a plain object without methods *)

(** ToBoolean. *)
Definition truthy (v : value) : bool :=
  match v with
  | VUndefined | VNull => false
  | VBool b => b
  | VNumber (S754_zero _) | VNumber S754_nan => false
  | VNumber _ => true
  | VString s => truthy_str s
  | VArray _ | VObject => true
  end.

(** An array of strings as a value. *)
Definition array_of (l : list jsstring) : value := VArray (map VString l).

(** [v.split(re)]: only a string has the method. *)
Definition call_split (v : value) (r : regex) : result (list jsstring) :=
  match v with
  | VString s => Ok (split r s)
  | _ => Throw TypeError
  end.

End JS.


Import JS.

(* ================================================================== *)
(** * The page: documents, responses, globals and the DOM               *)
(* ================================================================== *)

(** A raw document of a search response whose text fields are strings,
    as the backend writes them.  A text field that is absent is the empty
    string: the program only tests these fields for truthiness and hands
    them to string functions.  A field of another type is outside this
    record: on a truthy [authors] that is no string, [value.trim] of
    [buildPersonRow] throws, which no [document] can express. *)
Record document : Type := Document {
  id           : jsstring;
  title        : jsstring;
  abs_text     : jsstring;
  degree       : jsstring;
  year         : jsstring;
  doc_type     : jsstring;
  university   : jsstring;
  authors      : jsstring;
  advisors     : jsstring;
  co_advisors  : jsstring;
  keyword_text : jsstring;
  score        : number
}.

(** The body of a successful [/api/search] response, as far as the
    pipeline reads it. *)
Record response : Type := Response {
  expanded_query : value;
  results        : list document
}.

(** What the results container shows.  A card is the pair of strings that
    [renderCard] wraps: [renderCardHeader(doc, rank)] and
    [renderCardBody(doc)]. *)
Inductive results_view : Type :=
| Spinner
| NoResults
| Cards (cards : list (jsstring * jsstring))
| ErrorBox (e : exn).

(** The globals of the script and the part of the DOM it writes.
    [_expandedOnlyTokens] exists in [src/unnamed/part_000] only, where its
    first assignment in [runSearch] creates it before any read. *)
Record page : Type := Page {
  _queryTokens            : list jsstring;
  _expandedOnlyTokens     : list jsstring;
  expandedBox_visible     : bool;
  expandedTerms_innerHTML : jsstring;
  resultsContainer        : results_view
}.

Definition set_queryTokens (v : list jsstring) (st : page) : page :=
  Page v (_expandedOnlyTokens st) (expandedBox_visible st)
       (expandedTerms_innerHTML st) (resultsContainer st).

Definition set_expandedOnlyTokens (v : list jsstring) (st : page) : page :=
  Page (_queryTokens st) v (expandedBox_visible st)
       (expandedTerms_innerHTML st) (resultsContainer st).

Definition set_expandedBox_visible (v : bool) (st : page) : page :=
  Page (_queryTokens st) (_expandedOnlyTokens st) v
       (expandedTerms_innerHTML st) (resultsContainer st).

Definition set_expandedTerms_innerHTML (v : jsstring) (st : page) : page :=
  Page (_queryTokens st) (_expandedOnlyTokens st) (expandedBox_visible st)
       v (resultsContainer st).

Definition set_resultsContainer (v : results_view) (st : page) : page :=
  Page (_queryTokens st) (_expandedOnlyTokens st) (expandedBox_visible st)
       (expandedTerms_innerHTML st) v.

(** ** Code that reads and writes the page and may throw *)

Definition M (A : Type) : Type := page -> result A * page.

Definition ret {A : Type} (a : A) : M A := fun st => (Ok a, st).

Definition mbind {A B : Type} (m : M A) (f : A -> M B) : M B :=
  fun st =>
    match m st with
    | (Ok a, st') => f a st'
    | (Throw e, st') => (Throw e, st')
    | (Unmodelled, st') => (Unmodelled, st')
    end.

Definition lift {A : Type} (r : result A) : M A := fun st => (r, st).

Definition gets {A : Type} (f : page -> A) : M A := fun st => (Ok (f st), st).

Definition modify (f : page -> page) : M unit := fun st => (Ok tt, f st).

(** [try { m } catch (e) { h e }]. *)
Definition try_catch (m : M unit) (h : exn -> M unit) : M unit :=
  fun st =>
    match m st with
    | (Throw e, st') => h e st'
    | r => r
    end.

Notation "x <- m ;; k" := (mbind m (fun x => k))
  (at level 61, m at next level, right associativity).
Notation "m ;;; k" := (mbind m (fun _ => k))
  (at level 61, right associativity).

(* ================================================================== *)
(** * The code the two variants share                                   *)
(* ================================================================== *)

(** A regex literal of the source. *)
Definition regex_literal (src : jsstring) : regex :=
  match RegExp_new src with
  | Ok r => r
  | _ => Eps
  end.

Definition re_amp   : regex := regex_literal (lit "&").
Definition re_lt    : regex := regex_literal (lit "<").
Definition re_gt    : regex := regex_literal (lit ">").
Definition re_quot  : regex := regex_literal [dquote].

(** [/[.*+?^${}()|[\]\\]/g] *)
Definition re_meta : regex := regex_literal (lit "[.*+?^${}()|[\]\\]").

(** [/\s+/] *)
Definition re_spaces : regex := regex_literal (lit "\s+").

(** The name separators: Arabic comma (U+060C), comma, semicolon, slash. *)
Definition re_name_sep : regex :=
  regex_literal (lit "[" ++ units [1548%N] ++ lit ",;\/]").

(** [/[\n]/] *)
Definition re_newline : regex := regex_literal (lit "[\n]").

(** [escHtml]; [String(str || '')] is [str] itself for a string. *)
Definition escHtml (str : jsstring) : jsstring :=
  replace_g re_quot (lit "&quot;")
    (replace_g re_gt (lit "&gt;")
      (replace_g re_lt (lit "&lt;")
        (replace_g re_amp (lit "&amp;") str))).

(** [t.replace(/[.*+?^${}()|[\]\\]/g, '\\$&')] *)
Definition escape_token (t : jsstring) : jsstring :=
  replace_g re_meta (lit "\$&") t.

(** ['(' + escaped.join('|') + ')'] *)
Definition highlight_pattern (tokens : list jsstring) : jsstring :=
  lit "(" ++ join (lit "|") (map escape_token tokens) ++ lit ")".

Definition mark_template : jsstring := html "<mark class='hl'>$1</mark>".

Definition highlight (text : jsstring) (tokens : list jsstring)
  : result jsstring :=
  if negb (truthy_str text) || (length tokens =? 0)%nat
  then Ok (escHtml text)
  else
    bind (RegExp_new (highlight_pattern tokens)) (fun re =>
      Ok (replace_g re mark_template (escHtml text))).

(** [t.length >= 2] *)
Definition long_enough (t : jsstring) : bool := (2 <=? length t)%nat.

(** The names of a person field: split, trimmed, the empty ones dropped. *)
Definition person_names (value : jsstring) : list jsstring :=
  filter truthy_str (map trim (split re_name_sep value)).

Definition buildPersonRow (icon label value : jsstring) : jsstring :=
  if negb (truthy_str value) || negb (truthy_str (trim value)) then []
  else
    let names := person_names value in
    let nameHtml :=
      if (1 <? length names)%nat
      then html "<div class='person-name-list'>"
           ++ join [] (map (fun n => html "<span class='person-name-chip'>"
                                       ++ escHtml n ++ lit "</span>") names)
           ++ lit "</div>"
      else html "<span class='person-name'>"
           ++ escHtml (nth 0 names [])      (* names[0], '' when undefined *)
           ++ lit "</span>" in
    html "<div class='person-row'>"
    ++ html "<span class='person-icon'>" ++ icon ++ lit "</span>"
    ++ html "<span class='person-label'>" ++ label ++ lit ":</span>"
    ++ nameHtml ++ lit "</div>".

(** The keywords of a keyword field: split on newlines, trimmed, the empty
    ones dropped. *)
Definition keywords_of (raw : jsstring) : list jsstring :=
  filter truthy_str (map trim (split re_newline raw)).

(** [_queryTokens.some(t => k.includes(t) || t.includes(k))] *)
Definition isMatch (st : page) (k : jsstring) : bool :=
  existsb (fun t => includes k t || includes t k) (_queryTokens st).

Definition keywords_label : jsstring :=
  html "<div class='keywords-label'>"
  ++ units [55357; 56593; 32; 1705; 1604; 1740; 1583; 1608; 1575; 1688;
            1607; 8204; 1607; 1575]%N
  ++ lit "</div>".

Definition buildKeywords (st : page) (raw : jsstring) : jsstring :=
  if negb (truthy_str raw) || negb (truthy_str (trim raw)) then []
  else
    let kws := keywords_of raw in
    if (length kws =? 0)%nat then []
    else
      let chips :=
        join [] (map (fun k =>
          let cls := if isMatch st k
                     then lit "keyword-chip keyword-chip--match"
                     else lit "keyword-chip" in
          html "<span class='" ++ cls ++ html "'>" ++ escHtml k
          ++ lit "</span>") kws) in
      html "<div class='card-keywords-wrap'>"
      ++ keywords_label
      ++ html "<div class='keywords-list'>" ++ chips ++ lit "</div></div>".

(** [(doc.score * 100).toFixed(1)], the [score] of [renderCardHeader]. *)
Definition score_text (doc : document) : result jsstring :=
  toFixed 1 (mul (score doc) hundred).

(** [renderCardHeader], with the global that holds the highlight tokens as
    a parameter: [_queryTokens] in [src/UI/app.js], [_expandedOnlyTokens]
    in [src/unnamed/part_000]. *)
Definition renderCardHeader_with (hl : page -> list jsstring)
    (st : page) (doc : document) (rank : nat) : result jsstring :=
  bind (score_text doc) (fun score =>
  let tag (field : jsstring) (open : jsstring) : jsstring :=
    if truthy_str field then open ++ escHtml field ++ lit "</span>"
    else [] in
  let tags :=
    join [] (filter truthy_str
      [ tag (id doc) (html "<span class='meta-tag tag-id'>ID: ");
        tag (degree doc) (html "<span class='meta-tag tag-degree'>");
        tag (year doc) (html "<span class='meta-tag tag-year'>");
        tag (doc_type doc) (html "<span class='meta-tag tag-type'>");
        tag (university doc)
            (html "<span class='meta-tag tag-uni'>"
             ++ units [55356; 57307; 65039; 32]%N);
        html "<span class='meta-tag tag-score'>" ++ score
          ++ units [1642%N] ++ lit "</span>" ]) in
  bind (highlight (if truthy_str (title doc) then title doc
                   else units [8212%N]) (hl st)) (fun title_html =>
  Ok (html "<div class='card-header'>"
      ++ html "<div class='card-rank'>" ++ decimal (N.of_nat rank)
      ++ lit "</div>"
      ++ html "<div class='card-header-right'>"
      ++ html "<div class='card-title'>" ++ title_html ++ lit "</div>"
      ++ html "<div class='card-meta'>" ++ tags ++ lit "</div>"
      ++ lit "</div></div>"))).

Definition icon_author      : jsstring := units [9997; 65039]%N.
Definition label_author     : jsstring :=
  units [1662; 1583; 1740; 1583; 1570; 1608; 1585]%N.
Definition icon_advisor     : jsstring :=
  units [55357; 56424; 8205; 55356; 57323]%N.
Definition label_advisor    : jsstring :=
  units [1575; 1587; 1578; 1575; 1583; 32; 1585; 1575; 1607; 1606; 1605;
         1575]%N.
Definition icon_co_advisor  : jsstring :=
  units [55357; 56424; 8205; 55357; 56508]%N.
Definition label_co_advisor : jsstring :=
  units [1575; 1587; 1578; 1575; 1583; 32; 1605; 1588; 1575; 1608; 1585]%N.

Definition abstract_toggle : jsstring :=
  html "<div class='abstract-toggle'><span class='toggle-arrow'>"
  ++ units [9660%N] ++ lit "</span>"
  ++ html "<span class='toggle-text'>"
  ++ units [1606; 1605; 1575; 1740; 1588; 32; 1670; 1705; 1740; 1583;
            1607]%N
  ++ lit "</span></div>".

(** [renderCardBody], with the same parameter. *)
Definition renderCardBody_with (hl : page -> list jsstring)
    (st : page) (doc : document) : result jsstring :=
  let people :=
    join [] (filter truthy_str
      [ buildPersonRow icon_author label_author (authors doc);
        buildPersonRow icon_advisor label_advisor (advisors doc);
        buildPersonRow icon_co_advisor label_co_advisor
                       (co_advisors doc) ]) in
  bind (if truthy_str (abs_text doc)
        then bind (highlight (abs_text doc) (hl st)) (fun h =>
               Ok (html "<div class='card-abstract-wrap'>"
                   ++ abstract_toggle
                   ++ html "<div class='card-abstract'>" ++ h
                   ++ lit "</div>" ++ lit "</div>"))
        else Ok []) (fun abstract =>
  let keywords := buildKeywords st (keyword_text doc) in
  if negb (truthy_str people) && negb (truthy_str abstract)
     && negb (truthy_str keywords)
  then Ok []
  else
    Ok (html "<div class='card-body'>"
        ++ (if truthy_str people
            then html "<div class='card-people'>" ++ people ++ lit "</div>"
            else [])
        ++ abstract ++ keywords ++ lit "</div>")).

(** [data.results.map((doc, i) => renderCard(doc, i + 1))] *)
Fixpoint render_cards
    (header : page -> document -> nat -> result jsstring)
    (body : page -> document -> result jsstring)
    (st : page) (i : nat) (docs : list document)
  : result (list (jsstring * jsstring)) :=
  match docs with
  | [] => Ok []
  | doc :: docs' =>
    bind (header st doc (i + 1)) (fun h =>
    bind (body st doc) (fun b =>
    bind (render_cards header body st (S i) docs') (fun cs =>
    Ok ((h, b) :: cs))))
  end.

(** A chip of the expanded-query box. *)
Definition exp_term (origSet : list jsstring) (tok : jsstring) : jsstring :=
  let cls := if Set_has origSet tok then lit "original" else lit "added" in
  html "<span class='exp-term " ++ cls ++ html "'>" ++ escHtml tok
  ++ lit "</span>".

(** [typeof v === 'string'] and [Array.isArray(v)]. *)
Definition is_string (v : value) : bool :=
  match v with VString _ => true | _ => false end.

Definition isArray (v : value) : bool :=
  match v with VArray _ => true | _ => false end.

(** [expanded === original] for a string [original]. *)
Definition strict_eq_str (v : value) (s : jsstring) : bool :=
  match v with
  | VString t => str_eqb t s
  | _ => false
  end.

(* ================================================================== *)
(** * [src/UI/app.js]                                                   *)
(* ================================================================== *)

Module AppJs.

Definition tokenise (query : value) : result (list jsstring) :=
  bind (call_split query re_spaces) (fun parts =>
    Ok (filter long_enough parts)).

Definition renderExpandedQuery (original : jsstring) (expanded : value)
  : M unit :=
  if negb (truthy expanded) || strict_eq_str expanded original
  then modify (set_expandedBox_visible false)
  else
    o <- lift (tokenise (VString original)) ;;
    let originalTokens := Set_new o in
    e <- lift (tokenise expanded) ;;
    let chips := join [] (map (exp_term originalTokens) e) in
    modify (set_expandedTerms_innerHTML chips) ;;;
    modify (set_expandedBox_visible true).

Definition renderCardHeader := renderCardHeader_with _queryTokens.
Definition renderCardBody := renderCardBody_with _queryTokens.

(** [runSearch] up to the request: [None] when the trimmed input is
    empty.  The search button, the status bar and its badges, and the
    model selector are left out: no function of the pipeline reads
    them. *)
Definition runSearch_begin (input : jsstring) : M (option jsstring) :=
  let query := trim input in
  if negb (truthy_str query) then ret None
  else
    toks <- lift (tokenise (VString query)) ;;
    modify (set_queryTokens toks) ;;;
    modify (set_expandedBox_visible false) ;;;
    modify (set_resultsContainer Spinner) ;;;
    ret (Some query).

(** [runSearch] from a successful response ([resp.ok]) on: the rest of
    its [try] block and its [catch]. *)
Definition runSearch_response (query : jsstring) (data : response)
  : M unit :=
  try_catch
    (renderExpandedQuery query (expanded_query data) ;;;
     (if truthy (expanded_query data)
      then toks <- lift (tokenise (expanded_query data)) ;;
           modify (set_queryTokens toks)
      else ret tt) ;;;
     if (length (results data) =? 0)%nat
     then modify (set_resultsContainer NoResults)
     else
       st <- gets (fun st => st) ;;
       cards <- lift (render_cards renderCardHeader renderCardBody st 0
                                   (results data)) ;;
       modify (set_resultsContainer (Cards cards)))
    (fun e => modify (set_resultsContainer (ErrorBox e))).

(** A whole search that the backend answers with [data]. *)
Definition runSearch (input : jsstring) (data : response) : M unit :=
  q <- runSearch_begin input ;;
  match q with
  | None => ret tt
  | Some query => runSearch_response query data
  end.

End AppJs.

(* ================================================================== *)
(** * [src/unnamed/part_000]: the variant with the expand / OR toggles  *)
(* ================================================================== *)

Module Toggles.

(** [query.filter(t => typeof t === 'string' && t.length >= 2)] on the
    elements of an array. *)
Fixpoint filter_tokens (l : list value) : list jsstring :=
  match l with
  | [] => []
  | VString s :: l' =>
    if long_enough s then s :: filter_tokens l' else filter_tokens l'
  | _ :: l' => filter_tokens l'
  end.

Definition call_filter_tokens (v : value) : result (list jsstring) :=
  match v with
  | VArray l => Ok (filter_tokens l)
  | _ => Throw TypeError
  end.

Definition tokenise (query : value) : result (list jsstring) :=
  if negb (truthy query) then Ok []
  else if isArray query then call_filter_tokens query
  else if is_string query then
    bind (call_split query re_spaces) (fun parts =>
      let tokens := filter long_enough parts in
      Ok (Set_new tokens))
  else Ok [].

Definition renderExpandedQuery (original : jsstring) (expanded : value)
  : M unit :=
  if negb (truthy expanded) then modify (set_expandedBox_visible false)
  else
    origTokens <- lift (tokenise (VString original)) ;;
    expTokens <- lift (tokenise expanded) ;;
    let origSet := Set_new origTokens in
    let expSet := Set_new expTokens in
    let hasNewTerm := existsb (fun t => negb (Set_has origSet t)) expSet in
    if negb hasNewTerm then modify (set_expandedBox_visible false)
    else
      let chips := join [] (map (exp_term origSet) expTokens) in
      modify (set_expandedTerms_innerHTML chips) ;;;
      modify (set_expandedBox_visible true).

Definition renderCardHeader := renderCardHeader_with _expandedOnlyTokens.
Definition renderCardBody := renderCardBody_with _expandedOnlyTokens.

Definition runSearch_begin (input : jsstring) : M (option jsstring) :=
  let query := trim input in
  if negb (truthy_str query) then ret None
  else
    toks <- lift (tokenise (VString query)) ;;
    modify (set_queryTokens toks) ;;;
    modify (set_expandedBox_visible false) ;;;
    modify (set_resultsContainer Spinner) ;;;
    ret (Some query).

Definition runSearch_response (query : jsstring) (data : response)
  : M unit :=
  try_catch
    (renderExpandedQuery query (expanded_query data) ;;;
     modify (set_expandedOnlyTokens []) ;;;
     (if truthy (expanded_query data)
      then expTokens <- lift (tokenise (expanded_query data)) ;;
           modify (set_expandedOnlyTokens expTokens)
      else ret tt) ;;;
     if (length (results data) =? 0)%nat
     then modify (set_resultsContainer NoResults)
     else
       st <- gets (fun st => st) ;;
       cards <- lift (render_cards renderCardHeader renderCardBody st 0
                                   (results data)) ;;
       modify (set_resultsContainer (Cards cards)))
    (fun e => modify (set_resultsContainer (ErrorBox e))).

Definition runSearch (input : jsstring) (data : response) : M unit :=
  q <- runSearch_begin input ;;
  match q with
  | None => ret tt
  | Some query => runSearch_response query data
  end.

End Toggles.


(* ================================================================== *)
(** * The search field (both files)                                     *)
(* ================================================================== *)

(** [addFilter(text)] as a function of the value of the search field:
    the value it leaves there.  The focus it gives to the field is not
    part of the page modelled here. *)
Definition addFilter (text : jsstring) (value : jsstring) : jsstring :=
  let val := trim value in
  if negb (includes val text)
  then (if truthy_str val then val ++ lit " " ++ text else text)
  else value.

(* ================================================================== *)
(** * Reference definitions the properties are stated with              *)
(* ================================================================== *)

(** [t] occurs in [s] as a run of consecutive code units. *)
Definition substring (t s : jsstring) : Prop :=
  exists pre post, s = pre ++ t ++ post.

(** The regex that matches the code units of [t] and nothing else. *)
Definition literal (t : jsstring) : regex :=
  fold_right (fun c r => Seq (Chr c) r) Eps t.

(** The alternation of the literals of [tokens], in their order. *)
Fixpoint literal_alternation (tokens : list jsstring) : regex :=
  match tokens with
  | [] => Eps
  | [t] => literal t
  | t :: ts => Alt (literal t) (literal_alternation ts)
  end.

(** The first token, in list order, whose code units the input starts
    with.  The pattern of an empty token list is [()], which matches the
    empty string. *)
Definition first_literal (tokens : list jsstring) (s : jsstring)
  : option jsstring :=
  match tokens with
  | [] => Some []
  | _ :: _ => find (fun t => starts_with t s) tokens
  end.

(** A syntax character with a backslash before it, any other code unit
    as it is. *)
Definition escape_char (c : char) : jsstring :=
  if is_syntax_char c then [ch "\"; c] else [c].

(** The HTML entity of a code unit. *)
Definition entity (c : char) : jsstring :=
  if N.eqb c (ch "&") then lit "&amp;"
  else if N.eqb c (ch "<") then lit "&lt;"
  else if N.eqb c (ch ">") then lit "&gt;"
  else if N.eqb c dquote then lit "&quot;"
  else [c].

(** [n] steps forward in the input. *)
Definition forward (n : nat) (x : mstate) : mstate :=
  MState (skipn n (rest x)) (pos x + n) (caps x).

(** The ranges of the class of [re_meta]. *)
Definition meta_ranges : list (char * char) :=
  map (fun c => (c, c)) (lit ".*+?^${}()|[]\").

(** The head of a pattern text starts a quantifier. *)
Definition quantifier_head (s : jsstring) : bool :=
  match s with
  | c :: _ =>
    N.eqb c (ch "*") || N.eqb c (ch "+") || N.eqb c (ch "?")
    || N.eqb c (ch "{")
  | [] => false
  end.

(** What an escaped token, or the text after one, can start with. *)
Definition safe_head (s : jsstring) : Prop :=
  match s with
  | [] => True
  | c :: _ =>
    c = ch "\" \/ in_ranges c meta_ranges = false
    \/ c = ch "|" \/ c = ch ")"
  end.

(** The end of an alternative. *)
Definition alternative_end (s : jsstring) : Prop :=
  match s with
  | [] => True
  | c :: _ => c = ch "|" \/ c = ch ")"
  end.

(** The end of a disjunction. *)
Definition disjunction_end (s : jsstring) : Prop :=
  match s with
  | [] => True
  | c :: _ => c = ch ")"
  end.

(** A bound on the recursion depth of parsing the tokens' pattern. *)
Definition pattern_depth (tokens : list jsstring) : nat :=
  length (concat tokens) + length tokens + 1.

(** A highlight marker around [m]. *)
Definition mark (m : jsstring) : jsstring :=
  html "<mark class='hl'>" ++ m ++ lit "</mark>".

(** The text with a marker around each leftmost occurrence of a token,
    scanning from the left; after an empty match the scan moves one code
    unit on. *)
Fixpoint wrap_from (fuel : nat) (tokens : list jsstring) (s : jsstring)
  : jsstring :=
  match fuel with
  | O => s
  | S f =>
    let step :=
      match s with
      | [] => []
      | c :: s1 => c :: wrap_from f tokens s1
      end in
    match first_literal tokens s with
    | Some [] => mark [] ++ step
    | Some (k :: m) =>
      mark (k :: m) ++ wrap_from f tokens (skipn (length (k :: m)) s)
    | None => step
    end
  end.

Definition wrap_tokens (tokens : list jsstring) (s : jsstring) : jsstring :=
  wrap_from (S (length s)) tokens s.

(** The text with a marker around every [lt]. *)
Fixpoint mark_lt (s : jsstring) : jsstring :=
  match s with
  | [] => []
  | c :: s1 =>
    match s1 with
    | d :: s2 =>
      if N.eqb c (ch "l") && N.eqb d (ch "t")
      then mark (lit "lt") ++ mark_lt s2
      else c :: mark_lt s1
    | [] => [c]
    end
  end.

(** The run of white space at the head of a string. *)
Fixpoint take_white (s : jsstring) : jsstring :=
  match s with
  | c :: s' => if is_white c then c :: take_white s' else []
  | [] => []
  end.

(** The fields of a string between its runs of white space.  [in_run]
    tells that the scan is inside a run, [cur] is the field read so far
    (reversed). *)
Fixpoint ws_fields (in_run : bool) (cur : jsstring) (s : jsstring)
  : list jsstring :=
  match s with
  | [] => [rev cur]
  | c :: s' =>
    if is_white c then
      if in_run then ws_fields true cur s'
      else rev cur :: ws_fields true [] s'
    else ws_fields false (c :: cur) s'
  end.

(** The whitespace-split terms of a string. *)
Definition whitespace_split (s : jsstring) : list jsstring :=
  ws_fields false [] s.

(** The list without the elements that occurred before: the first
    occurrence of each is kept, in its place. *)
Fixpoint dedup_from (seen : list jsstring) (l : list jsstring)
  : list jsstring :=
  match l with
  | [] => []
  | x :: l' =>
    if existsb (str_eqb x) seen then dedup_from seen l'
    else x :: dedup_from (x :: seen) l'
  end.

Definition dedup_first (l : list jsstring) : list jsstring :=
  dedup_from [] l.

(** The tokeniser in the words of the specification: split on runs of
    white space, discard the terms shorter than 2, remove duplicates
    keeping the first occurrence. *)
Definition spec_tokenize (s : jsstring) : list jsstring :=
  dedup_first (filter (fun t => (2 <=? length t)%nat) (whitespace_split s)).

(** The fields of a string between the code units [sep] selects. *)
Fixpoint split_on (sep : char -> bool) (cur : jsstring) (s : jsstring)
  : list jsstring :=
  match s with
  | [] => [rev cur]
  | c :: s' =>
    if sep c then rev cur :: split_on sep [] s'
    else split_on sep (c :: cur) s'
  end.

(** The name separators: Arabic comma, comma, semicolon, slash. *)
Definition is_name_sep (c : char) : bool :=
  N.eqb c 1548 || N.eqb c (ch ",") || N.eqb c (ch ";") || N.eqb c (ch "/").

(** The page when the script is loaded. *)
Definition initial_page : page := Page [] [] false [] Spinner.

(** A piece of code that leaves [_queryTokens] as it is. *)
Definition keeps_queryTokens {A : Type} (m : M A) : Prop :=
  forall st, _queryTokens (snd (m st)) = _queryTokens st.

(** The binary64 number nearest to [0.8734]:
    [7866887829090782 * 2^-53]. *)
Definition score_08734 : number :=
  S754_finite false 7866887829090782 (-53).

(** A document that holds a score and nothing else. *)
Definition doc_with_score (x : number) : document :=
  Document [] [] [] [] [] [] [] [] [] [] [] x.


(** The code units that [escHtml] rewrites. *)
Definition html_special (c : char) : bool :=
  N.eqb c (ch "&") || N.eqb c (ch "<") || N.eqb c (ch ">")
  || N.eqb c dquote.

(** [out] is [s] with markers put around some occurrences of tokens and
    nothing else changed. *)
Inductive marked (tokens : list jsstring) : jsstring -> jsstring -> Prop :=
| marked_nil : marked tokens [] []
| marked_copy (c : char) (s o : jsstring) :
    marked tokens s o -> marked tokens (c :: s) (c :: o)
| marked_wrap (m s o : jsstring) :
    In m tokens -> marked tokens s o ->
    marked tokens (m ++ s) (mark m ++ o).

(** A string without white space. *)
Definition no_white (t : jsstring) : Prop :=
  Forall (fun c => is_white c = false) t.

(** The token lists of the page hold no token shorter than 2. *)
Definition tokens_long (st : page) : Prop :=
  Forall (fun t => 2 <= length t) (_queryTokens st)
  /\ Forall (fun t => 2 <= length t) (_expandedOnlyTokens st).

(** A decimal digit. *)
Definition digit_unit (c : char) : Prop := (48 <= c <= 57)%N.

(** A string that does not start with white space. *)
Definition head_ok (s : jsstring) : Prop :=
  match s with
  | [] => True
  | c :: _ => is_white c = false
  end.

(** The page once [runSearch] has set the query tokens, hidden the box
    and shown the spinner. *)
Definition searching (toks : list jsstring) (st : page) : page :=
  set_resultsContainer Spinner
    (set_expandedBox_visible false (set_queryTokens toks st)).

(** The tokens [src/UI/app.js] gets from a string. *)
Definition words2 (s : jsstring) : list jsstring :=
  filter long_enough (whitespace_split s).

(** A response with two results and no expansion. *)
Definition two_results : response :=
  Response VNull
    [ Document (lit "7") (lit "deep net") (lit "a net of nets") [] [] [] []
               (lit "A, B") [] [] (lit "net") score_08734;
      Document [] [] [] [] [] [] [] [] [] [] [] (S754_zero false) ].

(** The cards a page shows, none when it shows something else. *)
Definition cards_of (st : page) : list (jsstring * jsstring) :=
  match resultsContainer st with
  | Cards cs => cs
  | _ => []
  end.

(** Some token occurs in the keyword, or the keyword occurs in some
    token. *)
Definition contained (tokens : list jsstring) (k : jsstring) : Prop :=
  exists t, In t tokens /\ (substring t k \/ substring k t).

(** The lines of a keyword field, trimmed, the empty ones dropped. *)
Definition keyword_lines (raw : jsstring) : list jsstring :=
  filter truthy_str (map trim (split_on (fun c => N.eqb c 10) [] raw)).

(** The chip of a keyword, with the match class when [flag] is set. *)
Definition keyword_chip (flag : bool) (k : jsstring) : jsstring :=
  html "<span class='"
  ++ (if flag then lit "keyword-chip keyword-chip--match"
      else lit "keyword-chip")
  ++ html "'>" ++ escHtml k ++ lit "</span>".

(** [chips] are the chips of the keywords [kws], in order, each with the
    match class exactly when the keyword and a token of [tokens] contain
    one another. *)
Definition flagged_chips (tokens : list jsstring)
  : list jsstring -> list jsstring -> Prop :=
  Forall2 (fun k chip =>
             (contained tokens k /\ chip = keyword_chip true k)
             \/ (~ contained tokens k /\ chip = keyword_chip false k)).

(** The keyword section of a card that holds [chips]; no section without
    a chip. *)
Definition keywords_section (chips : list jsstring) : jsstring :=
  match chips with
  | [] => []
  | _ :: _ =>
    html "<div class='card-keywords-wrap'>" ++ keywords_label
    ++ html "<div class='keywords-list'>" ++ concat chips
    ++ lit "</div></div>"
  end.

(** The body [b] of a card ends with the keyword section of [chips]: an
    empty body has none, any other body holds it right before the tag
    that closes the body. *)
Definition body_keywords (b : jsstring) (chips : list jsstring) : Prop :=
  (b = [] /\ chips = [])
  \/ exists pre, b = pre ++ keywords_section chips ++ lit "</div>".

(** Two responses with the same result, a thesis on nets with two
    keywords, that differ in the expanded query only. *)
Definition net_thesis : document :=
  Document (lit "7") (lit "deep net") (lit "a net of nets") [] [] [] []
           (lit "A, B") [] [] (lit "nets" ++ [10%N] ++ lit "deep models")
           score_08734.

Definition plain_response : response := Response VNull [net_thesis].

Definition expanded_response : response :=
  Response (VString (lit "net deep")) [net_thesis].

(** A clean name: not empty, no white space around it, no separator in
    it. *)
Definition clean_name (n : jsstring) : Prop :=
  n <> [] /\ trim n = n /\ forall c, In c n -> is_name_sep c = false.

(** The parts of a person field between separators, trimmed, the empty
    ones dropped. *)
Definition name_parts (value : jsstring) : list jsstring :=
  filter truthy_str (map trim (split_on is_name_sep [] value)).

(** A person row around the markup of its names. *)
Definition person_row (icon label nameHtml : jsstring) : jsstring :=
  html "<div class='person-row'>"
  ++ html "<span class='person-icon'>" ++ icon ++ lit "</span>"
  ++ html "<span class='person-label'>" ++ label ++ lit ":</span>"
  ++ nameHtml ++ lit "</div>".

(** The markup of the names of a row: chips for two names and more, one
    plain name otherwise, which is empty when there is no name. *)
Definition names_markup (names : list jsstring) : jsstring :=
  match names with
  | [] => html "<span class='person-name'>" ++ lit "</span>"
  | [n] => html "<span class='person-name'>" ++ escHtml n ++ lit "</span>"
  | _ :: _ :: _ =>
    html "<div class='person-name-list'>"
    ++ concat (map (fun n => html "<span class='person-name-chip'>"
                               ++ escHtml n ++ lit "</span>") names)
    ++ lit "</div>"
  end.

(* ================================================================== *)
(** * Strings                                                           *)
(* ================================================================== *)

Lemma str_eqb_eq (a b : jsstring) : str_eqb a b = true <-> a = b.
Proof.
  revert b; induction a as [|x a IH]; intros [|y b]; simpl;
    try (split; congruence).
  rewrite andb_true_iff, N.eqb_eq, IH. split.
  - intros [-> ->]; reflexivity.
  - intros H; injection H; auto.
Qed.

Lemma str_eqb_refl (a : jsstring) : str_eqb a a = true.
Proof. apply str_eqb_eq; reflexivity. Qed.

Lemma starts_with_app (t s : jsstring) : starts_with t (t ++ s) = true.
Proof.
  induction t as [|x t IH]; simpl; [reflexivity|].
  rewrite N.eqb_refl; exact IH.
Qed.

Lemma starts_with_split (t s : jsstring) :
  starts_with t s = true -> s = t ++ skipn (length t) s.
Proof.
  revert s; induction t as [|x t IH]; intros [|y s]; simpl;
    try congruence.
  rewrite andb_true_iff, N.eqb_eq. intros [-> H].
  f_equal; apply IH, H.
Qed.

Lemma starts_with_firstn (t s : jsstring) :
  starts_with t s = true -> firstn (length t) s = t.
Proof.
  intros H. rewrite (starts_with_split t s H) at 1.
  rewrite firstn_app, firstn_all, Nat.sub_diag; simpl.
  apply app_nil_r.
Qed.

Lemma starts_with_iff (t s : jsstring) :
  starts_with t s = true <-> exists post, s = t ++ post.
Proof.
  split.
  - intros H; eexists; apply starts_with_split, H.
  - intros [post ->]; apply starts_with_app.
Qed.

Lemma includes_iff (s t : jsstring) :
  includes s t = true <-> substring t s.
Proof.
  induction s as [|c s IH].
  - simpl. rewrite orb_false_r, starts_with_iff. split.
    + intros [post H]. exists [], post. exact H.
    + intros (pre & post & H). destruct pre; simpl in H.
      * exists post; exact H.
      * discriminate.
  - simpl. rewrite orb_true_iff, IH, starts_with_iff. split.
    + intros [[post H] | (pre & post & H)].
      * exists [], post; exact H.
      * exists (c :: pre), post; simpl; congruence.
    + intros (pre & post & H). destruct pre as [|x pre]; simpl in H.
      * left; exists post; exact H.
      * right; exists pre, post; congruence.
Qed.

Lemma flat_map_flat_map {A B C : Type} (f : A -> list B)
    (g : B -> list C) (l : list A) :
  flat_map g (flat_map f l) = flat_map (fun a => flat_map g (f a)) l.
Proof.
  induction l as [|a l IH]; simpl; [reflexivity|].
  rewrite flat_map_app, IH. reflexivity.
Qed.

Lemma filter_all {A : Type} (l : list A) : filter (fun _ => true) l = l.
Proof. induction l; simpl; congruence. Qed.

Lemma clear_caps_nil (x : mstate) : clear_caps [] x = x.
Proof.
  destruct x as [r p c]; unfold clear_caps; simpl.
  rewrite filter_all; reflexivity.
Qed.

(* ================================================================== *)
(** * Matching literals                                                 *)
(* ================================================================== *)

Lemma forward_0 (x : mstate) : forward 0 x = x.
Proof.
  destruct x as [r p c]; unfold forward; simpl.
  rewrite Nat.add_0_r; reflexivity.
Qed.

Lemma forward_S (n : nat) (x : mstate) :
  forward (S n) x = forward n (advance x).
Proof.
  destruct x as [[|h r] p c]; unfold forward, advance; simpl.
  - rewrite skipn_nil, Nat.add_succ_r; reflexivity.
  - rewrite Nat.add_succ_r; reflexivity.
Qed.

Lemma rmatch_literal (t : jsstring) (x : mstate) (c : cont) :
  rmatch (literal t) x c =
  if starts_with t (rest x) then c (forward (length t) x) else None.
Proof.
  revert x; induction t as [|k t IH]; intros x; simpl.
  - rewrite forward_0; reflexivity.
  - destruct (rest x) as [|h r] eqn:E; [reflexivity|].
    rewrite N.eqb_sym.
    destruct (N.eqb k h); simpl; [|reflexivity].
    rewrite IH. unfold advance at 1; rewrite E; simpl.
    rewrite forward_S; reflexivity.
Qed.

Lemma rmatch_literal_alternation (tokens : list jsstring) (x : mstate)
    (c : cont) :
  (forall y, c y <> None) ->
  rmatch (literal_alternation tokens) x c =
  match first_literal tokens (rest x) with
  | Some t => c (forward (length t) x)
  | None => None
  end.
Proof.
  intros Hc.
  destruct tokens as [|t ts]; [simpl; rewrite forward_0; reflexivity|].
  revert t; induction ts as [|u ts IH]; intros t.
  - simpl. rewrite rmatch_literal.
    destruct (starts_with t (rest x)); reflexivity.
  - change (literal_alternation (t :: u :: ts))
      with (Alt (literal t) (literal_alternation (u :: ts))).
    change (rmatch (Alt ?a ?b) x c)
      with (orelse (rmatch a x c) (fun _ => rmatch b x c)).
    rewrite rmatch_literal, IH.
    unfold first_literal. simpl find.
    destruct (starts_with t (rest x)); simpl.
    + specialize (Hc (forward (length t) x)).
      destruct (c (forward (length t) x)); [reflexivity|congruence].
    + reflexivity.
Qed.

Lemma first_literal_starts (tokens : list jsstring) (s t : jsstring) :
  first_literal tokens s = Some t -> starts_with t s = true.
Proof.
  destruct tokens as [|u ts]; simpl.
  - intros H; injection H as <-; reflexivity.
  - destruct (starts_with u s) eqn:E.
    + intros H; injection H as <-; exact E.
    + intros H; apply find_some in H; apply H.
Qed.

(** A match of the group around a literal alternation is the first token
    the input starts with, which is also capture 1. *)
Lemma match_at_literal_group (tokens : list jsstring) (p : nat)
    (s : jsstring) :
  match_at (Seq (Grp 1 (literal_alternation tokens)) Eps) p s =
  option_map (fun t => (t, [(1, t)])) (first_literal tokens s).
Proof.
  unfold match_at. simpl rmatch.
  rewrite rmatch_literal_alternation by discriminate.
  simpl rest.
  destruct (first_literal tokens s) as [t|] eqn:E; [|reflexivity].
  simpl. apply first_literal_starts in E.
  replace (p + length t - p) with (length t) by lia.
  rewrite (starts_with_firstn t s E). reflexivity.
Qed.

(* ================================================================== *)
(** * Replacing single code units                                       *)
(* ================================================================== *)

Lemma match_at_class (rs : list (char * char)) (p : nat) (s : jsstring) :
  match_at (Seq (Cls false rs) Eps) p s =
  match s with
  | h :: _ => if in_ranges h rs then Some ([h], []) else None
  | [] => None
  end.
Proof.
  unfold match_at. destruct s as [|h s]; [reflexivity|].
  cbn -[Nat.sub firstn]. destruct (in_ranges h rs); [|reflexivity].
  cbn -[Nat.sub firstn].
  replace (S p - p) with 1 by lia. reflexivity.
Qed.

Lemma match_at_char (k : char) (p : nat) (s : jsstring) :
  match_at (Seq (Chr k) Eps) p s =
  match s with
  | h :: _ => if N.eqb h k then Some ([h], []) else None
  | [] => None
  end.
Proof.
  unfold match_at. destruct s as [|h s]; [reflexivity|].
  cbn -[Nat.sub firstn]. destruct (N.eqb h k); [|reflexivity].
  cbn -[Nat.sub firstn].
  replace (S p - p) with 1 by lia. reflexivity.
Qed.

Lemma replace_from_eq (f : nat) (r : regex) (t seen : jsstring) (p : nat)
    (s : jsstring) :
  replace_from (S f) r t seen p s =
  let step :=
    match s with
    | [] => []
    | c :: s1 => c :: replace_from f r t (c :: seen) (S p) s1
    end in
  match match_at r p s with
  | Some (m, cs) =>
    let after := skipn (length m) s in
    let sub := expand_template t (length (groups r)) m (rev seen) after cs in
    match m with
    | [] => sub ++ step
    | _ :: _ =>
      sub ++ replace_from f r t (rev m ++ seen) (p + length m) after
    end
  | None => step
  end.
Proof. reflexivity. Qed.

(** Replacing, by a template that only reads the match, every code unit
    a one-unit regex selects. *)
Lemma replace_from_unit (r : regex) (sel : char -> bool) (t : jsstring)
    (E : char -> jsstring) :
  groups r = [] ->
  (forall p s, match_at r p s =
     match s with
     | h :: _ => if sel h then Some ([h], []) else None
     | [] => None
     end) ->
  (forall h b a, expand_template t 0 [h] b a [] = E h) ->
  forall s seen p,
    replace_from (S (length s)) r t seen p s =
    flat_map (fun c => if sel c then E c else [c]) s.
Proof.
  intros Hg Hm Ht s.
  induction s as [|h s IH]; intros seen p; rewrite replace_from_eq, Hm.
  - reflexivity.
  - rewrite Hg. cbv zeta. cbn [flat_map]. destruct (sel h).
    + cbn [length skipn rev app]. rewrite Ht, IH. reflexivity.
    + cbn [app length]. rewrite IH. reflexivity.
Qed.

Lemma replace_g_unit (r : regex) (sel : char -> bool) (t : jsstring)
    (E : char -> jsstring) :
  groups r = [] ->
  (forall p s, match_at r p s =
     match s with
     | h :: _ => if sel h then Some ([h], []) else None
     | [] => None
     end) ->
  (forall h b a, expand_template t 0 [h] b a [] = E h) ->
  forall s, replace_g r t s = flat_map (fun c => if sel c then E c else [c]) s.
Proof.
  intros Hg Hm Ht s. unfold replace_g.
  apply replace_from_unit; assumption.
Qed.

Lemma re_amp_eq : re_amp = Seq (Chr (ch "&")) Eps.
Proof. reflexivity. Qed.

Lemma re_lt_eq : re_lt = Seq (Chr (ch "<")) Eps.
Proof. reflexivity. Qed.

Lemma re_gt_eq : re_gt = Seq (Chr (ch ">")) Eps.
Proof. reflexivity. Qed.

Lemma re_quot_eq : re_quot = Seq (Chr dquote) Eps.
Proof. reflexivity. Qed.

Lemma re_meta_eq : re_meta = Seq (Cls false meta_ranges) Eps.
Proof. reflexivity. Qed.

Lemma replace_g_char (k : char) (t : jsstring) (s : jsstring) :
  (forall c, In c t -> c <> ch "$") ->
  replace_g (Seq (Chr k) Eps) t s =
  flat_map (fun c => if N.eqb c k then t else [c]) s.
Proof.
  intros Ht. apply replace_g_unit with (E := fun _ => t).
  - reflexivity.
  - intros; apply match_at_char.
  - intros h b a. induction t as [|c t IH]; [reflexivity|].
    assert (E : N.eqb c 36 = false).
    { apply N.eqb_neq. apply (Ht c). left; reflexivity. }
    cbn [expand_template]. change (ch "$") with 36%N. rewrite E.
    rewrite IH; [reflexivity|]. intros; apply Ht; right; assumption.
Qed.

Ltac no_dollar :=
  let c := fresh in let H := fresh in
  intros c H; simpl in H;
  repeat (destruct H as [H|H]; [subst c; discriminate|]);
  contradiction.

(** [escHtml] rewrites each code unit into its entity. *)
Lemma escHtml_flat_map (s : jsstring) : escHtml s = flat_map entity s.
Proof.
  unfold escHtml. rewrite re_amp_eq, re_lt_eq, re_gt_eq, re_quot_eq.
  rewrite (replace_g_char (ch "&") (lit "&amp;")) by no_dollar.
  rewrite (replace_g_char (ch "<") (lit "&lt;")) by no_dollar.
  rewrite (replace_g_char (ch ">") (lit "&gt;")) by no_dollar.
  rewrite (replace_g_char dquote (lit "&quot;")) by no_dollar.
  rewrite !flat_map_flat_map.
  apply flat_map_ext. intros c. unfold entity.
  destruct (N.eqb c (ch "&")) eqn:E1; [reflexivity|].
  cbn [flat_map app]. rewrite !app_nil_r.
  destruct (N.eqb c (ch "<")) eqn:E2; [reflexivity|].
  cbn [flat_map app]. rewrite !app_nil_r.
  destruct (N.eqb c (ch ">")) eqn:E3; [reflexivity|].
  cbn [flat_map app]. rewrite !app_nil_r.
  destruct (N.eqb c dquote) eqn:E4; reflexivity.
Qed.

Lemma escHtml_app (a b : jsstring) : escHtml (a ++ b) = escHtml a ++ escHtml b.
Proof. rewrite !escHtml_flat_map. apply flat_map_app. Qed.

(** The class of [re_meta] holds exactly the syntax characters. *)
Lemma meta_ranges_syntax (c : char) :
  in_ranges c meta_ranges = is_syntax_char c.
Proof.
  apply eq_true_iff_eq. unfold is_syntax_char, in_ranges.
  rewrite !existsb_exists. split.
  - intros [[lo hi] [Hin H]]. exists c. split; [|apply N.eqb_refl].
    simpl in Hin.
    repeat (destruct Hin as [Hin|Hin];
            [injection Hin as Hlo Hhi; subst lo hi; simpl in H;
             apply andb_true_iff in H; destruct H as [H1 H2];
             apply N.leb_le in H1, H2;
             match type of H1 with (?k <= _)%N =>
               assert (Hc : c = k) by lia end;
             subst c; simpl; tauto|]).
    contradiction.
  - intros [k [Hin H]]. apply N.eqb_eq in H; subst k.
    exists (c, c). split; [|simpl; rewrite N.leb_refl; reflexivity].
    simpl in Hin. simpl.
    repeat (destruct Hin as [Hin|Hin]; [subst c; tauto|]).
    contradiction.
Qed.

(** [escape_token] puts a backslash before each syntax character. *)
Lemma escape_token_flat_map (t : jsstring) :
  escape_token t = flat_map escape_char t.
Proof.
  unfold escape_token. rewrite re_meta_eq.
  rewrite replace_g_unit
    with (sel := fun c => in_ranges c meta_ranges)
         (E := fun c => [ch "\"; c]).
  - apply flat_map_ext. intros c. unfold escape_char.
    rewrite meta_ranges_syntax. reflexivity.
  - reflexivity.
  - intros; apply match_at_class.
  - reflexivity.
Qed.

(* ================================================================== *)
(** * Compiling the pattern that [highlight] builds                     *)
(* ================================================================== *)

Lemma not_meta_neq (c k : char) :
  in_ranges c meta_ranges = false ->
  In k (lit ".*+?^${}()|[]\") ->
  N.eqb c k = false.
Proof.
  intros H Hin. destruct (N.eqb c k) eqn:E; [|reflexivity].
  apply N.eqb_eq in E; subst k.
  assert (T : in_ranges c meta_ranges = true).
  { apply existsb_exists. exists (c, c). split.
    - unfold meta_ranges. apply in_map with (f := fun c => (c, c)), Hin.
    - simpl. rewrite N.leb_refl. reflexivity. }
  congruence.
Qed.

Ltac not_meta H k :=
  rewrite (not_meta_neq _ k H) by (simpl; tauto).

Lemma is_meta_cases (c : char) :
  in_ranges c meta_ranges = true -> In c (lit ".*+?^${}()|[]\").
Proof.
  intros H. apply existsb_exists in H. destruct H as [[lo hi] [Hin H]].
  unfold meta_ranges in Hin. apply in_map_iff in Hin.
  destruct Hin as [k [Hk Hin]]. injection Hk as <- <-. simpl in H.
  apply andb_true_iff in H. destruct H as [H1 H2].
  apply N.leb_le in H1, H2. assert (c = k) by lia. subst k. exact Hin.
Qed.

Lemma parse_atom_escape_meta (c : char) :
  in_ranges c meta_ranges = true -> parse_atom_escape c = Ok (Chr c).
Proof.
  intros H. apply is_meta_cases in H. simpl in H.
  repeat (destruct H as [H|H]; [subst c; reflexivity|]).
  contradiction.
Qed.

Lemma parse_quantifier_none (a : regex) (s : jsstring) :
  quantifier_head s = false -> parse_quantifier a s = Ok (a, s).
Proof.
  destruct s as [|c s]; [reflexivity|]. unfold quantifier_head.
  rewrite !orb_false_iff. intros [[[H1 H2] H3] H4].
  unfold parse_quantifier. rewrite H1, H2, H3, H4. reflexivity.
Qed.

Lemma safe_head_no_quantifier (s : jsstring) :
  safe_head s -> quantifier_head s = false.
Proof.
  destruct s as [|c s]; [reflexivity|]. unfold safe_head, quantifier_head.
  intros [-> | [H | [-> | ->]]]; try reflexivity.
  not_meta H (ch "*"). not_meta H (ch "+"). not_meta H (ch "?").
  not_meta H (ch "{"). reflexivity.
Qed.

Lemma safe_head_no_question (c : char) (s : jsstring) :
  safe_head (c :: s) -> N.eqb c (ch "?") = false.
Proof.
  unfold safe_head. intros [-> | [H | [-> | ->]]]; try reflexivity.
  not_meta H (ch "?"). reflexivity.
Qed.

Lemma safe_head_escaped (t tail : jsstring) :
  safe_head tail -> safe_head (flat_map escape_char t ++ tail).
Proof.
  destruct t as [|c t]; [exact (fun H => H)|]. intros _.
  cbn [flat_map]. unfold escape_char at 1.
  rewrite <- meta_ranges_syntax.
  destruct (in_ranges c meta_ranges) eqn:E; simpl; tauto.
Qed.

Lemma alternative_end_safe (s : jsstring) : alternative_end s -> safe_head s.
Proof. destruct s; simpl; tauto. Qed.

Lemma disjunction_end_alternative (s : jsstring) :
  disjunction_end s -> alternative_end s.
Proof. destruct s; simpl; tauto. Qed.

(** One step of each parsing function. *)
Lemma parse_disj_eq (f : nat) (s : jsstring) (g : nat) :
  parse_disj (S f) s g =
  bind (parse_alt f s g) (fun '(a, s1, g1) =>
    match s1 with
    | c :: s2 =>
      if N.eqb c (ch "|") then
        bind (parse_disj f s2 g1) (fun '(d, s3, g2) =>
          Ok (Alt a d, s3, g2))
      else Ok (a, s1, g1)
    | [] => Ok (a, s1, g1)
    end).
Proof. reflexivity. Qed.

Lemma parse_alt_end (f : nat) (s : jsstring) (g : nat) :
  alternative_end s -> parse_alt (S f) s g = Ok (Eps, s, g).
Proof.
  destruct s as [|c s]; [reflexivity|].
  intros [-> | ->]; reflexivity.
Qed.

Lemma parse_alt_term (f : nat) (c : char) (s : jsstring) (g : nat) :
  N.eqb c (ch "|") = false -> N.eqb c (ch ")") = false ->
  parse_alt (S f) (c :: s) g =
  bind (parse_term f (c :: s) g) (fun '(t, s1, g1) =>
    bind (parse_alt f s1 g1) (fun '(a, s2, g2) =>
      Ok (Seq t a, s2, g2))).
Proof.
  intros H1 H2. cbn [parse_alt]. rewrite H1, H2. reflexivity.
Qed.

Lemma parse_term_escape (f : nat) (e : char) (s : jsstring) (g : nat) :
  parse_term (S f) (ch "\" :: e :: s) g =
  bind (bind (parse_atom_escape e) (fun a => Ok (a, s))) (fun '(a, s1) =>
    bind (parse_quantifier a s1) (fun '(q, s2) => Ok (q, s2, g))).
Proof. reflexivity. Qed.

Lemma parse_term_plain (f : nat) (c : char) (s : jsstring) (g : nat) :
  in_ranges c meta_ranges = false ->
  parse_term (S f) (c :: s) g =
  bind (parse_quantifier (Chr c) s) (fun '(q, s2) => Ok (q, s2, g)).
Proof.
  intros H. cbn [parse_term].
  not_meta H (ch "^"). not_meta H (ch "$"). not_meta H (ch "*").
  not_meta H (ch "+"). not_meta H (ch "?"). not_meta H (ch "{").
  not_meta H (ch "."). not_meta H (ch "["). not_meta H (ch "\").
  not_meta H (ch "("). reflexivity.
Qed.

Lemma parse_term_group (f : nat) (q : char) (s : jsstring) (g : nat) :
  N.eqb q (ch "?") = false ->
  parse_term (S f) (ch "(" :: q :: s) g =
  bind (parse_disj f (q :: s) (S g)) (fun '(d, s2, g1) =>
    match s2 with
    | p :: s3 =>
      if N.eqb p (ch ")")
      then bind (parse_quantifier (Grp g d) s3) (fun '(q, s2) =>
             Ok (q, s2, g1))
      else Throw SyntaxError
    | [] => Throw SyntaxError
    end).
Proof.
  intros H. cbn [parse_term].
  change (N.eqb (ch "(") (ch "^")) with false.
  change (N.eqb (ch "(") (ch "$")) with false.
  change (N.eqb (ch "(") (ch "*")) with false.
  change (N.eqb (ch "(") (ch "+")) with false.
  change (N.eqb (ch "(") (ch "?")) with false.
  change (N.eqb (ch "(") (ch "{")) with false.
  change (N.eqb (ch "(") (ch ".")) with false.
  change (N.eqb (ch "(") (ch "[")) with false.
  change (N.eqb (ch "(") (ch "\")) with false.
  change (N.eqb (ch "(") (ch "(")) with true.
  cbn [orb]. cbv iota. rewrite H.
  reflexivity.
Qed.

(** An escaped token parses as the literal of the token. *)
Lemma parse_alt_escaped (t tail : jsstring) (g f : nat) :
  alternative_end tail -> length t < f ->
  parse_alt f (flat_map escape_char t ++ tail) g = Ok (literal t, tail, g).
Proof.
  intros Hend. revert f. induction t as [|c t IH]; intros f Hf.
  - destruct f as [|f]; [inversion Hf|]. apply parse_alt_end, Hend.
  - destruct f as [|[|f]]; simpl in Hf; try lia.
    assert (Hsafe : safe_head (flat_map escape_char t ++ tail))
      by (apply safe_head_escaped, alternative_end_safe, Hend).
    cbn [flat_map]. unfold escape_char at 1.
    rewrite <- meta_ranges_syntax.
    destruct (in_ranges c meta_ranges) eqn:E.
    + cbn [app]. rewrite parse_alt_term by reflexivity.
      rewrite parse_term_escape, (parse_atom_escape_meta c E). cbn [bind].
      rewrite parse_quantifier_none by (apply safe_head_no_quantifier, Hsafe).
      cbn [bind]. rewrite IH by lia. reflexivity.
    + cbn [app].
      rewrite parse_alt_term
        by (apply (not_meta_neq c _ E); simpl; tauto).
      rewrite parse_term_plain by exact E.
      rewrite parse_quantifier_none by (apply safe_head_no_quantifier, Hsafe).
      cbn [bind]. rewrite IH by lia. reflexivity.
Qed.

(** The escaped tokens joined by [|] parse as the alternation of their
    literals. *)
Lemma parse_disj_escaped (tokens : list jsstring) (tail : jsstring)
    (g f : nat) :
  disjunction_end tail -> pattern_depth tokens < f ->
  parse_disj f (join (lit "|") (map (flat_map escape_char) tokens) ++ tail) g
  = Ok (literal_alternation tokens, tail, g).
Proof.
  intros Hend. revert f.
  assert (Hstop : forall a : regex,
    match tail with
    | c :: s2 =>
      if N.eqb c (ch "|") then
        bind (parse_disj 0 s2 g) (fun '(d, s3, g2) => Ok (Alt a d, s3, g2))
      else Ok (a, tail, g)
    | [] => Ok (a, tail, g)
    end = Ok (a, tail, g)).
  { intros a. destruct tail as [|c s2]; [reflexivity|].
    simpl in Hend; subst c; reflexivity. }
  assert (Hstop' : forall (a : regex) (f : nat),
    match tail with
    | c :: s2 =>
      if N.eqb c (ch "|") then
        bind (parse_disj f s2 g) (fun '(d, s3, g2) => Ok (Alt a d, s3, g2))
      else Ok (a, tail, g)
    | [] => Ok (a, tail, g)
    end = Ok (a, tail, g)).
  { intros a f. destruct tail as [|c s2]; [reflexivity|].
    simpl in Hend; subst c; reflexivity. }
  destruct tokens as [|t ts].
  - intros f Hf. unfold pattern_depth in Hf; simpl in Hf.
    destruct f as [|[|f]]; try lia.
    rewrite parse_disj_eq. cbn [map join app].
    rewrite parse_alt_end by (apply disjunction_end_alternative, Hend).
    cbn [bind]. apply Hstop'.
  - revert t. induction ts as [|u ts IH]; intros t f Hf.
    + unfold pattern_depth in Hf; simpl in Hf.
      rewrite app_nil_r in Hf.
      destruct f as [|f]; [lia|].
      rewrite parse_disj_eq. cbn [map join].
      rewrite parse_alt_escaped
        by (try apply disjunction_end_alternative, Hend; lia).
      cbn [bind]. apply Hstop'.
    + unfold pattern_depth in Hf; cbn [concat length] in Hf.
      rewrite length_app in Hf.
      destruct f as [|f]; [lia|].
      rewrite parse_disj_eq.
      change (join (lit "|") (map (flat_map escape_char) (t :: u :: ts)))
        with (flat_map escape_char t
              ++ lit "|" ++ join (lit "|")
                               (map (flat_map escape_char) (u :: ts))).
      set (J := join (lit "|") (map (flat_map escape_char) (u :: ts))).
      rewrite <- !app_assoc.
      change (lit "|" ++ J ++ tail) with (ch "|" :: J ++ tail).
      rewrite parse_alt_escaped by (simpl; try tauto; lia).
      cbn [bind].
      change (N.eqb (ch "|") (ch "|")) with true. cbv iota.
      subst J. rewrite IH.
      * reflexivity.
      * unfold pattern_depth; cbn [concat length]. lia.
Qed.

Lemma safe_head_join (tokens : list jsstring) (tail : jsstring) :
  safe_head tail ->
  safe_head (join (lit "|") (map (flat_map escape_char) tokens) ++ tail).
Proof.
  intros H. destruct tokens as [|t [|u ts]].
  - exact H.
  - apply safe_head_escaped, H.
  - change (join (lit "|") (map (flat_map escape_char) (t :: u :: ts)))
      with (flat_map escape_char t
            ++ lit "|" ++ join (lit "|")
                             (map (flat_map escape_char) (u :: ts))).
    rewrite <- app_assoc. apply safe_head_escaped. simpl; tauto.
Qed.

Lemma length_escaped (t : jsstring) :
  length t <= length (flat_map escape_char t).
Proof.
  induction t as [|c t IH]; [apply le_n|].
  cbn [flat_map]. rewrite length_app. unfold escape_char at 1.
  destruct (is_syntax_char c); simpl; lia.
Qed.

Lemma pattern_depth_join (tokens : list jsstring) :
  pattern_depth tokens
  <= length (join (lit "|") (map (flat_map escape_char) tokens)) + 2.
Proof.
  unfold pattern_depth.
  destruct tokens as [|t ts]; [simpl; lia|].
  revert t. induction ts as [|u ts IH]; intros t.
  - simpl. rewrite app_nil_r. pose proof (length_escaped t). lia.
  - change (join (lit "|") (map (flat_map escape_char) (t :: u :: ts)))
      with (flat_map escape_char t
            ++ lit "|" ++ join (lit "|")
                             (map (flat_map escape_char) (u :: ts))).
    specialize (IH u). pose proof (length_escaped t).
    cbn [concat length] in *. rewrite !length_app in *. simpl length in *.
    lia.
Qed.

Lemma highlight_pattern_eq (tokens : list jsstring) :
  highlight_pattern tokens
  = ch "(" :: join (lit "|") (map (flat_map escape_char) tokens)
           ++ [ch ")"].
Proof.
  unfold highlight_pattern.
  rewrite (map_ext _ _ escape_token_flat_map). reflexivity.
Qed.

(** [new RegExp] accepts the pattern of every token list and yields the
    group around the alternation of the tokens' literals. *)
Lemma RegExp_new_highlight_pattern (tokens : list jsstring) :
  RegExp_new (highlight_pattern tokens)
  = Ok (Seq (Grp 1 (literal_alternation tokens)) Eps).
Proof.
  rewrite highlight_pattern_eq.
  pose proof (pattern_depth_join tokens) as HJ.
  pose proof (safe_head_join tokens [ch ")"]) as Hsafe.
  pose proof (fun f => parse_disj_escaped tokens [ch ")"] 2 f eq_refl)
    as Hparse.
  revert HJ Hsafe Hparse.
  generalize (join (lit "|") (map (flat_map escape_char) tokens)).
  intros J HJ Hsafe Hparse.
  specialize (Hsafe (or_intror (or_intror (or_intror eq_refl)))).
  unfold RegExp_new.
  assert (HL : length (ch "(" :: J ++ [ch ")"]) = length J + 2)
    by (simpl; rewrite length_app; simpl; lia).
  rewrite HL.
  replace (2 * (length J + 2) + 4)
    with (S (S (S (S (2 * (length J + 2)))))) by lia.
  set (n := 2 * (length J + 2)) in *.
  rewrite parse_disj_eq, parse_alt_term by reflexivity.
  destruct (J ++ [ch ")"]) as [|q s] eqn:EJ.
  - destruct J; discriminate.
  - rewrite parse_term_group by (apply (safe_head_no_question q s), Hsafe).
    rewrite Hparse by (subst n; lia).
    reflexivity.
Qed.

(* ================================================================== *)
(** * What [highlight] computes                                         *)
(* ================================================================== *)

Lemma groups_literal (t : jsstring) : groups (literal t) = [].
Proof. induction t as [|c t IH]; simpl; [reflexivity|exact IH]. Qed.

Lemma groups_literal_alternation (tokens : list jsstring) :
  groups (literal_alternation tokens) = [].
Proof.
  destruct tokens as [|t ts]; [reflexivity|].
  revert t; induction ts as [|u ts IH]; intros t.
  - apply groups_literal.
  - change (groups (literal t) ++ groups (literal_alternation (u :: ts)) = []).
    rewrite groups_literal, IH. reflexivity.
Qed.

Lemma expand_mark_template (m b a : jsstring) :
  expand_template mark_template 1 m b a [(1, m)] = mark m.
Proof. reflexivity. Qed.

Lemma replace_from_wrap (tokens : list jsstring) (fuel : nat) :
  forall seen p s,
    replace_from fuel (Seq (Grp 1 (literal_alternation tokens)) Eps)
                 mark_template seen p s
    = wrap_from fuel tokens s.
Proof.
  induction fuel as [|f IH]; intros seen p s; [reflexivity|].
  rewrite replace_from_eq, match_at_literal_group.
  cbn [wrap_from groups]. rewrite groups_literal_alternation.
  destruct (first_literal tokens s) as [[|k m]|]; cbn [option_map].
  - cbv zeta. rewrite expand_mark_template.
    destruct s as [|c s1]; [reflexivity|]. rewrite IH. reflexivity.
  - cbv zeta. cbn [app length]. rewrite expand_mark_template, IH.
    reflexivity.
  - destruct s as [|c s1]; [reflexivity|]. cbv zeta. rewrite IH.
    reflexivity.
Qed.

(** [highlight] never throws: it returns the escaped text with a marker
    around the occurrences of the tokens. *)
Lemma highlight_wrap (text : jsstring) (tokens : list jsstring) :
  highlight text tokens =
  Ok (if negb (truthy_str text) || (length tokens =? 0)%nat
      then escHtml text
      else wrap_tokens tokens (escHtml text)).
Proof.
  unfold highlight.
  destruct (negb (truthy_str text) || (length tokens =? 0)%nat);
    [reflexivity|].
  rewrite RegExp_new_highlight_pattern. cbn [bind].
  unfold replace_g, wrap_tokens. rewrite replace_from_wrap. reflexivity.
Qed.

(** C1.  For every token list and every text, [highlight] puts a
    backslash before every syntax character of the pattern grammar in
    every token before it builds the alternation pattern; the pattern
    then compiles ([new RegExp] throws nothing, so [highlight] returns),
    and a match of the compiled regex at any index of any input is
    exactly the code units of a token -- the first token in list order
    that the input holds at that index -- which is also capture 1; so
    [highlight] returns the escaped text with a marker around those
    occurrences. *)
Theorem highlight_escapes_tokens (tokens : list jsstring) (text : jsstring) :
  (forall t, escape_token t = flat_map escape_char t)
  /\ (exists re,
        RegExp_new (highlight_pattern tokens) = Ok re
        /\ forall p s,
             match_at re p s
             = option_map (fun t => (t, [(1, t)])) (first_literal tokens s))
  /\ (forall s t, first_literal tokens s = Some t -> starts_with t s = true)
  /\ highlight text tokens
     = Ok (if negb (truthy_str text) || (length tokens =? 0)%nat
           then escHtml text
           else wrap_tokens tokens (escHtml text)).
Proof.
  split; [exact escape_token_flat_map|]. split; [|split].
  - exists (Seq (Grp 1 (literal_alternation tokens)) Eps). split.
    + apply RegExp_new_highlight_pattern.
    + intros p s. apply match_at_literal_group.
  - intros s t. apply first_literal_starts.
  - apply highlight_wrap.
Qed.

(* ================================================================== *)
(** * The token [lt] and the entities of the escaped text               *)
(* ================================================================== *)

Lemma list_ind2 {A : Type} (P : list A -> Prop) :
  P [] -> (forall c, P [c]) ->
  (forall c d s, P s -> P (d :: s) -> P (c :: d :: s)) ->
  forall s, P s.
Proof.
  intros H0 H1 H2 s.
  assert (H : P s /\ forall c, P (c :: s)).
  { induction s as [|d s [IHs IHc]].
    - split; [exact H0|exact H1].
    - split; [apply IHc|]. intros c. apply H2; [exact IHs|apply IHc]. }
  apply H.
Qed.

Lemma wrap_from_lt (fuel : nat) :
  forall s, length s < fuel -> wrap_from fuel [lit "lt"] s = mark_lt s.
Proof.
  induction fuel as [|f IH]; intros s Hs; [inversion Hs|].
  destruct s as [|c [|d s2]].
  - reflexivity.
  - cbn [wrap_from first_literal find starts_with lit map
         list_ascii_of_string].
    rewrite andb_false_r. destruct f; reflexivity.
  - cbn [wrap_from first_literal find starts_with lit map
         list_ascii_of_string mark_lt].
    rewrite andb_true_r, (N.eqb_sym _ c), (N.eqb_sym _ d).
    change (N_of_ascii "l") with (ch "l").
    change (N_of_ascii "t") with (ch "t").
    simpl in Hs.
    destruct (N.eqb c (ch "l") && N.eqb d (ch "t")).
    + cbn [length skipn]. rewrite IH by lia. reflexivity.
    + rewrite IH by (simpl; lia). reflexivity.
Qed.

Lemma mark_lt_cons2 (c d : char) (s : jsstring) :
  mark_lt (c :: d :: s) =
  if N.eqb c (ch "l") && N.eqb d (ch "t")
  then mark (lit "lt") ++ mark_lt s
  else c :: mark_lt (d :: s).
Proof. reflexivity. Qed.

Lemma mark_lt_semicolon (b : jsstring) :
  mark_lt (ch ";" :: b) = ch ";" :: mark_lt b.
Proof. destruct b; reflexivity. Qed.

Lemma mark_lt_app_amp (a b : jsstring) :
  mark_lt (a ++ ch "&" :: b) = mark_lt a ++ mark_lt (ch "&" :: b).
Proof.
  induction a as [|c|c d s IH1 IH2] using list_ind2.
  - reflexivity.
  - cbn [app mark_lt]. change (N.eqb (ch "&") (ch "t")) with false.
    rewrite andb_false_r. reflexivity.
  - change ((c :: d :: s) ++ ch "&" :: b)
      with (c :: d :: (s ++ ch "&" :: b)).
    rewrite !mark_lt_cons2.
    destruct (N.eqb c (ch "l") && N.eqb d (ch "t")).
    + rewrite IH1, app_assoc. reflexivity.
    + change (d :: s ++ ch "&" :: b) with ((d :: s) ++ ch "&" :: b).
      rewrite IH2. reflexivity.
Qed.

(** What the marked text of a non-empty input starts with. *)
Lemma mark_lt_head (d : char) (s : jsstring) :
  exists r, mark_lt (d :: s) = d :: r \/ mark_lt (d :: s) = ch "<" :: r.
Proof.
  destruct s as [|e s]; [exists []; left; reflexivity|].
  rewrite mark_lt_cons2. destruct (N.eqb d (ch "l") && N.eqb e (ch "t")).
  - eexists; right; reflexivity.
  - eexists; left; reflexivity.
Qed.

Lemma starts_with_app_false (p q x : jsstring) :
  starts_with p x = false -> starts_with (p ++ q) x = false.
Proof.
  revert x; induction p as [|k p IH]; intros [|h x]; cbn [starts_with app];
    try discriminate; try reflexivity.
  destruct (N.eqb k h); cbn [andb]; [apply IH|reflexivity].
Qed.

Lemma starts_with_lt (c d : char) (r : jsstring) :
  starts_with (lit "lt") (c :: d :: r)
  = N.eqb c (ch "l") && N.eqb d (ch "t").
Proof.
  change (lit "lt") with [ch "l"; ch "t"]. cbn [starts_with].
  rewrite andb_true_r, (N.eqb_sym _ c), (N.eqb_sym _ d). reflexivity.
Qed.

Lemma mark_lt_no_lt (s : jsstring) :
  starts_with (lit "lt") (mark_lt s) = false.
Proof.
  destruct s as [|c [|d s]].
  - reflexivity.
  - change (lit "lt") with [ch "l"; ch "t"]. cbn [mark_lt starts_with].
    apply andb_false_r.
  - rewrite mark_lt_cons2.
    destruct (N.eqb c (ch "l") && N.eqb d (ch "t")) eqn:E; [reflexivity|].
    destruct (mark_lt_head d s) as [r [-> | ->]].
    + rewrite starts_with_lt. exact E.
    + rewrite starts_with_lt. apply andb_false_r.
Qed.

(** No entity [&lt;] is left in a text in which every [lt] is marked. *)
Lemma mark_lt_no_entity (s : jsstring) :
  includes (mark_lt s) (lit "&lt;") = false.
Proof.
  induction s as [|c|c d s IH1 IH2] using list_ind2.
  - reflexivity.
  - change (lit "&lt;") with (ch "&" :: lit "lt;").
    cbn [mark_lt includes starts_with].
    rewrite !andb_false_r. reflexivity.
  - rewrite mark_lt_cons2.
    destruct (N.eqb c (ch "l") && N.eqb d (ch "t")).
    + simpl. exact IH1.
    + cbn [includes]. rewrite IH2, orb_false_r.
      change (lit "&lt;") with (ch "&" :: (lit "lt" ++ lit ";")).
      cbn [starts_with].
      rewrite (starts_with_app_false _ _ _ (mark_lt_no_lt (d :: s))).
      apply andb_false_r.
Qed.

(** C9.  [highlight] matches the tokens against the HTML-escaped text, so
    a marker can land inside an entity that the escaping produced: for
    every text that holds a [<], highlighting with the token [lt] returns
    a text in which the [lt] of the [&lt;] written for that [<] is wrapped
    in a marker, and in which no [&lt;] is left intact. *)
Theorem highlight_marks_inside_entity (text : jsstring) :
  In (ch "<") text ->
  exists out pre post,
    highlight text [lit "lt"] = Ok out
    /\ out = pre ++ lit "&" ++ mark (lit "lt") ++ lit ";" ++ post
    /\ ~ substring (lit "&lt;") out.
Proof.
  intros Hin. apply in_split in Hin. destruct Hin as (a & b & ->).
  rewrite highlight_wrap.
  assert (Hguard :
    negb (truthy_str (a ++ ch "<" :: b)) || (length [lit "lt"] =? 0)%nat
    = false) by (destruct a; reflexivity).
  rewrite Hguard. unfold wrap_tokens. rewrite wrap_from_lt by lia.
  exists (mark_lt (escHtml (a ++ ch "<" :: b))),
         (mark_lt (escHtml a)), (mark_lt (escHtml b)).
  split; [reflexivity|]. split.
  - change (a ++ ch "<" :: b) with (a ++ [ch "<"] ++ b).
    rewrite !escHtml_app.
    change (escHtml [ch "<"]) with (lit "&lt;").
    change (lit "&lt;" ++ escHtml b)
      with (ch "&" :: ch "l" :: ch "t" :: ch ";" :: escHtml b).
    rewrite mark_lt_app_amp.
    change (mark_lt (ch "&" :: ch "l" :: ch "t" :: ch ";" :: escHtml b))
      with (ch "&" :: mark (lit "lt") ++ mark_lt (ch ";" :: escHtml b)).
    rewrite mark_lt_semicolon. reflexivity.
  - rewrite <- includes_iff, mark_lt_no_entity. discriminate.
Qed.

Lemma highlight_marks_inside_entity_witness :
  In (ch "<") (lit "a<b")
  /\ exists out pre post,
       highlight (lit "a<b") [lit "lt"] = Ok out
       /\ out = pre ++ lit "&" ++ mark (lit "lt") ++ lit ";" ++ post
       /\ ~ substring (lit "&lt;") out.
Proof.
  assert (H : In (ch "<") (lit "a<b")) by (simpl; tauto).
  split; [exact H|].
  exact (highlight_marks_inside_entity (lit "a<b") H).
Defined.

(* ================================================================== *)
(** * Keyword chips                                                     *)
(* ================================================================== *)

(** The test [isMatch] of [buildKeywords] is containment in either
    direction between the keyword and some query token. *)
Lemma isMatch_substring (st : page) (k : jsstring) :
  isMatch st k = true
  <-> exists t, In t (_queryTokens st) /\ (substring t k \/ substring k t).
Proof.
  unfold isMatch. rewrite existsb_exists. split.
  - intros [t [Hin H]]. exists t. split; [exact Hin|].
    apply orb_true_iff in H. rewrite !includes_iff in H. exact H.
  - intros [t [Hin H]]. exists t. split; [exact Hin|].
    apply orb_true_iff. rewrite !includes_iff. exact H.
Qed.

(* ================================================================== *)
(** * Splitting                                                         *)
(* ================================================================== *)

Lemma re_spaces_eq :
  re_spaces = Seq (Rep 1 None true (Cls false white_ranges)) Eps.
Proof. reflexivity. Qed.

Lemma take_white_trim_start (s : jsstring) :
  take_white s ++ trim_start s = s.
Proof.
  induction s as [|c s IH]; [reflexivity|]. simpl.
  destruct (is_white c); [simpl; rewrite IH|]; reflexivity.
Qed.

Lemma firstn_take_white (s : jsstring) :
  firstn (length (take_white s)) s = take_white s.
Proof.
  rewrite <- (take_white_trim_start s) at 2.
  rewrite firstn_app, firstn_all, Nat.sub_diag. simpl. apply app_nil_r.
Qed.

Lemma skipn_take_white (s : jsstring) :
  skipn (length (take_white s)) s = trim_start s.
Proof.
  rewrite <- (take_white_trim_start s) at 2.
  rewrite skipn_app, skipn_all, Nat.sub_diag. reflexivity.
Qed.

Lemma length_trim_start (s : jsstring) : length (trim_start s) <= length s.
Proof.
  induction s as [|c s IH]; [apply le_n|]. simpl.
  destruct (is_white c); simpl; lia.
Qed.

Lemma rmatch_class (rs : list (char * char)) (x : mstate) (c : cont) :
  rmatch (Cls false rs) x c =
  match rest x with
  | h :: _ => if in_ranges h rs then c (advance x) else None
  | [] => None
  end.
Proof. reflexivity. Qed.

(** The greedy repetition of the white-space class takes the whole run
    at the head of the input. *)
Lemma repeat_matcher_white (fuel : nat) :
  forall (min : nat) (x : mstate) (c : cont),
    min + length (rest x) < fuel ->
    (forall y, c y <> None) ->
    repeat_matcher fuel (rmatch (Cls false white_ranges)) [] min None true
                   x c
    = if (min <=? length (take_white (rest x)))%nat
      then c (forward (length (take_white (rest x))) x)
      else None.
Proof.
  induction fuel as [|f IH]; intros min x c Hf Hc; [inversion Hf|].
  cbn [repeat_matcher option_map]. rewrite clear_caps_nil, rmatch_class.
  destruct (rest x) as [|h r] eqn:E.
  - destruct min as [|min']; [|reflexivity].
    cbn [Nat.eqb negb orelse take_white length Nat.leb].
    rewrite forward_0. reflexivity.
  - assert (Ey : rest (advance x) = r)
      by (unfold advance; rewrite E; reflexivity).
    assert (Hp : Nat.eqb (pos (advance x)) (pos x) = false)
      by (apply Nat.eqb_neq; unfold advance; simpl; lia).
    cbn [take_white]. fold (is_white h).
    simpl in Hf.
    destruct (is_white h) eqn:W.
    + cbn [length]. rewrite forward_S.
      destruct min as [|min'].
      * cbn [Nat.eqb negb andb Nat.pred Nat.leb]. rewrite Hp.
        rewrite IH by (try assumption; rewrite Ey; lia).
        rewrite Ey. cbn [Nat.leb].
        specialize (Hc (forward (length (take_white r)) (advance x))).
        destruct (c (forward (length (take_white r)) (advance x)));
          [reflexivity|congruence].
      * cbn [Nat.eqb negb andb Nat.pred Nat.leb].
        rewrite IH by (try assumption; rewrite Ey; lia).
        rewrite Ey. reflexivity.
    + destruct min as [|min']; [|reflexivity].
      cbn [Nat.eqb negb orelse length Nat.leb].
      rewrite forward_0. reflexivity.
Qed.

(** A match of [/\s+/] is the non-empty run of white space at the head of
    the input. *)
Lemma match_at_spaces (p : nat) (s : jsstring) :
  match_at re_spaces p s =
  match take_white s with
  | [] => None
  | w => Some (w, [])
  end.
Proof.
  rewrite re_spaces_eq. unfold match_at. cbn [rmatch groups rest].
  rewrite repeat_matcher_white by (try discriminate; simpl; lia).
  cbn [rest]. destruct (take_white s) as [|k w] eqn:E; [reflexivity|].
  cbn [length Nat.leb forward pos caps].
  replace (p + S (length w) - p) with (length (take_white s))
    by (rewrite E; simpl; lia).
  rewrite firstn_take_white, E. reflexivity.
Qed.

Lemma ws_fields_in_run (s : jsstring) :
  ws_fields true [] s = ws_fields false [] (trim_start s).
Proof.
  induction s as [|c s IH]; [reflexivity|]. simpl.
  destruct (is_white c) eqn:W; [exact IH|].
  simpl. rewrite W. reflexivity.
Qed.

Lemma split_from_eq (f : nat) (r : regex) (cur : jsstring) (fresh : bool)
    (q : nat) (s : jsstring) :
  split_from (S f) r cur fresh q s =
  match s with
  | [] => [rev cur]
  | c :: s1 =>
    match match_at r q s with
    | Some (m, _) =>
      match m with
      | [] =>
        if fresh then split_from f r (c :: cur) false (S q) s1
        else rev cur :: split_from f r [c] false (S q) s1
      | _ :: _ =>
        rev cur :: split_from f r [] true (q + length m)
                              (skipn (length m) s)
      end
    | None => split_from f r (c :: cur) false (S q) s1
    end
  end.
Proof. reflexivity. Qed.

Lemma split_from_spaces (fuel : nat) :
  forall cur fresh q s,
    length s < fuel ->
    split_from fuel re_spaces cur fresh q s = ws_fields false cur s.
Proof.
  induction fuel as [|f IH]; intros cur fresh q s Hf; [inversion Hf|].
  rewrite split_from_eq. destruct s as [|c s1]; [reflexivity|].
  rewrite match_at_spaces. cbn [take_white ws_fields].
  destruct (is_white c) eqn:W.
  - change (S (length (take_white s1)))
      with (length (take_white (c :: s1))) .
    assert (E : take_white (c :: s1) = c :: take_white s1)
      by (simpl; rewrite W; reflexivity).
    rewrite <- E, skipn_take_white.
    assert (T : trim_start (c :: s1) = trim_start s1)
      by (simpl; rewrite W; reflexivity).
    rewrite T, ws_fields_in_run.
    rewrite IH; [reflexivity|].
    pose proof (length_trim_start s1). simpl in Hf. lia.
  - apply IH. simpl in Hf. lia.
Qed.

(** [s.split(/\s+/)] is the list of the whitespace-split terms. *)
Lemma split_spaces (s : jsstring) : split re_spaces s = whitespace_split s.
Proof.
  destruct s as [|c s]; [reflexivity|].
  unfold split. apply split_from_spaces. lia.
Qed.

Lemma split_from_class (rs : list (char * char)) (fuel : nat) :
  forall cur fresh q s,
    length s < fuel ->
    split_from fuel (Seq (Cls false rs) Eps) cur fresh q s
    = split_on (fun c => in_ranges c rs) cur s.
Proof.
  induction fuel as [|f IH]; intros cur fresh q s Hf; [inversion Hf|].
  rewrite split_from_eq. destruct s as [|c s1]; [reflexivity|].
  rewrite match_at_class. cbn [split_on]. simpl in Hf.
  destruct (in_ranges c rs).
  - cbn [length skipn]. rewrite IH by lia. reflexivity.
  - apply IH. lia.
Qed.

Lemma split_class (rs : list (char * char)) (s : jsstring) :
  split (Seq (Cls false rs) Eps) s = split_on (fun c => in_ranges c rs) [] s.
Proof.
  destruct s as [|c s]; [reflexivity|].
  unfold split. apply split_from_class. lia.
Qed.

(* ================================================================== *)
(** * Sets of strings                                                   *)
(* ================================================================== *)

Lemma existsb_str_eqb (x : jsstring) (l : list jsstring) :
  existsb (str_eqb x) l = true <-> In x l.
Proof.
  rewrite existsb_exists. split.
  - intros [y [Hin H]]. apply str_eqb_eq in H. subst y. exact Hin.
  - intros H. exists x. split; [exact H|apply str_eqb_refl].
Qed.

Lemma Set_has_iff (l : list jsstring) (x : jsstring) :
  Set_has l x = true <-> In x l.
Proof. apply existsb_str_eqb. Qed.

Lemma fold_set_add (l : list jsstring) :
  forall acc seen,
    (forall y, existsb (str_eqb y) acc = existsb (str_eqb y) seen) ->
    fold_left (fun a x => set_add x a) l acc = acc ++ dedup_from seen l.
Proof.
  induction l as [|x l IH]; intros acc seen H; simpl.
  - rewrite app_nil_r. reflexivity.
  - unfold set_add at 2. rewrite (H x).
    destruct (existsb (str_eqb x) seen) eqn:E.
    + apply IH, H.
    + rewrite (IH (acc ++ [x]) (x :: seen)).
      * rewrite <- app_assoc. reflexivity.
      * intros y. rewrite existsb_app, (H y). simpl.
        rewrite orb_false_r. apply orb_comm.
Qed.

(** [new Set] keeps the first occurrence of each element. *)
Lemma Set_new_dedup (l : list jsstring) : Set_new l = dedup_first l.
Proof.
  unfold Set_new, dedup_first.
  rewrite (fold_set_add l [] []); reflexivity.
Qed.

Lemma dedup_from_In (l seen : list jsstring) (t : jsstring) :
  In t (dedup_from seen l) <-> In t l /\ ~ In t seen.
Proof.
  revert seen; induction l as [|x l IH]; intros seen; simpl.
  - tauto.
  - destruct (existsb (str_eqb x) seen) eqn:E.
    + apply existsb_str_eqb in E. rewrite IH. split.
      * tauto.
      * intros [[Heq | H] Hn]; [subst t; contradiction|tauto].
    + assert (Hx : ~ In x seen).
      { intros H. apply existsb_str_eqb in H. congruence. }
      simpl. rewrite IH. simpl. split.
      * intros [Heq | [H Hn]]; [subst t; tauto|]. split; [tauto|]. tauto.
      * intros [[Heq | H] Hn]; [tauto|].
        destruct (list_eq_dec N.eq_dec x t) as [->|Hne]; [tauto|].
        right. split; [exact H|]. intros [Heq | Hs]; [congruence|tauto].
Qed.

Lemma dedup_from_NoDup (l seen : list jsstring) : NoDup (dedup_from seen l).
Proof.
  revert seen; induction l as [|x l IH]; intros seen; simpl.
  - constructor.
  - destruct (existsb (str_eqb x) seen); [apply IH|].
    constructor; [|apply IH].
    rewrite dedup_from_In. simpl. tauto.
Qed.

Lemma dedup_first_In (l : list jsstring) (t : jsstring) :
  In t (dedup_first l) <-> In t l.
Proof. unfold dedup_first. rewrite dedup_from_In. simpl. tauto. Qed.

(* ================================================================== *)
(** * The tokenisers                                                    *)
(* ================================================================== *)

Lemma Toggles_tokenise_string (s : jsstring) :
  Toggles.tokenise (VString s) = Ok (spec_tokenize s).
Proof.
  destruct s as [|c s]; [reflexivity|].
  unfold Toggles.tokenise. cbn [truthy truthy_str negb isArray is_string
                                call_split bind].
  rewrite split_spaces, Set_new_dedup. reflexivity.
Qed.

Lemma AppJs_tokenise_string (s : jsstring) :
  AppJs.tokenise (VString s) = Ok (filter long_enough (whitespace_split s)).
Proof.
  unfold AppJs.tokenise. cbn [call_split bind].
  rewrite split_spaces. reflexivity.
Qed.

Lemma spec_tokenize_long (s : jsstring) :
  Forall (fun t => 2 <= length t) (spec_tokenize s).
Proof.
  apply Forall_forall. intros t Ht. unfold spec_tokenize in Ht.
  apply dedup_first_In, filter_In in Ht. destruct Ht as [_ Ht].
  apply Nat.leb_le, Ht.
Qed.

Lemma spec_tokenize_NoDup (s : jsstring) : NoDup (spec_tokenize s).
Proof. apply dedup_from_NoDup. Qed.

Lemma filter_tokens_strings (l : list jsstring) :
  Toggles.filter_tokens (map VString l) = filter long_enough l.
Proof.
  induction l as [|x l IH]; [reflexivity|]. simpl.
  destruct (long_enough x); rewrite IH; reflexivity.
Qed.

Lemma Toggles_tokenise_array (l : list jsstring) :
  Toggles.tokenise (array_of l) = Ok (filter long_enough l).
Proof.
  unfold Toggles.tokenise, array_of.
  cbn [truthy negb isArray Toggles.call_filter_tokens].
  rewrite filter_tokens_strings. reflexivity.
Qed.

Lemma filter_fixed {A : Type} (f : A -> bool) (l : list A) :
  Forall (fun x => f x = true) l -> filter f l = l.
Proof.
  induction 1 as [|x l Hx Hl IH]; [reflexivity|].
  simpl. rewrite Hx, IH. reflexivity.
Qed.

(** [tokenise] of [src/unnamed/part_000] returns on every value. *)
Lemma Toggles_tokenise_total (v : value) :
  exists l, Toggles.tokenise v = Ok l.
Proof.
  unfold Toggles.tokenise.
  destruct (negb (truthy v)); [eexists; reflexivity|].
  destruct v; cbn [isArray is_string Toggles.call_filter_tokens call_split
                   bind]; eexists; reflexivity.
Qed.

(** C3, as amended.  In [src/unnamed/part_000], for every input string
    [s], [tokenise(s)] is the list of the whitespace-split terms of [s]
    with every term shorter than 2 code units discarded and with
    duplicates removed keeping the first occurrence; so every token has
    length at least 2 and no token occurs twice.  In [src/UI/app.js],
    [tokenise(s)] is the list of the whitespace-split terms of [s] with
    every term shorter than 2 discarded; duplicates stay. *)
Theorem tokenise_string_terms (s : jsstring) :
  Toggles.tokenise (VString s) = Ok (spec_tokenize s)
  /\ Forall (fun t => 2 <= length t) (spec_tokenize s)
  /\ NoDup (spec_tokenize s)
  /\ AppJs.tokenise (VString s)
     = Ok (filter (fun t => (2 <=? length t)%nat) (whitespace_split s)).
Proof.
  split; [apply Toggles_tokenise_string|].
  split; [apply spec_tokenize_long|].
  split; [apply spec_tokenize_NoDup|].
  apply AppJs_tokenise_string.
Qed.

(** C3 as stated fails in [src/UI/app.js]: a repeated term is returned
    twice. *)
Lemma AppJs_tokenise_keeps_duplicates :
  AppJs.tokenise (VString (lit "ab ab")) = Ok [lit "ab"; lit "ab"]
  /\ ~ NoDup [lit "ab"; lit "ab"]
  /\ AppJs.tokenise (VString (lit "ab ab"))
     <> Ok (spec_tokenize (lit "ab ab")).
Proof.
  split; [reflexivity|]. split.
  - intros H. inversion H as [|? ? Hn _]; subst. apply Hn. left; reflexivity.
  - discriminate.
Qed.

(** C4, as amended.  In [src/unnamed/part_000] tokenisation is
    idempotent: for every string [s], [tokenise(tokenise(s))] is
    [tokenise(s)]; and on a sequence of strings [tokenise] returns the
    entries of length at least 2, each as it is, without splitting any.
    In [src/UI/app.js] [tokenise] takes a string only: on a sequence it
    throws a TypeError. *)
Theorem tokenise_idempotent (s : jsstring) (l : list jsstring) :
  (exists toks, Toggles.tokenise (VString s) = Ok toks
                /\ Toggles.tokenise (array_of toks) = Ok toks)
  /\ Toggles.tokenise (array_of l)
     = Ok (filter (fun t => (2 <=? length t)%nat) l)
  /\ AppJs.tokenise (array_of l) = Throw TypeError.
Proof.
  split; [|split].
  - exists (spec_tokenize s). split; [apply Toggles_tokenise_string|].
    rewrite Toggles_tokenise_array. f_equal. apply filter_fixed.
    pose proof (spec_tokenize_long s) as H.
    apply Forall_forall. intros t Ht.
    rewrite Forall_forall in H. apply Nat.leb_le, H, Ht.
  - apply Toggles_tokenise_array.
  - reflexivity.
Qed.

(** C4 as stated fails in [src/UI/app.js]: tokenising the tokens of a
    string throws. *)
Lemma AppJs_tokenise_not_idempotent :
  AppJs.tokenise (VString (lit "ab cd")) = Ok [lit "ab"; lit "cd"]
  /\ AppJs.tokenise (array_of [lit "ab"; lit "cd"]) = Throw TypeError.
Proof. split; reflexivity. Qed.

(** C5, as amended.  In [src/unnamed/part_000], [tokenise] throws on no
    input, and returns the empty list on [null], on [undefined], on the
    empty string, on the empty list, and on every input that is neither a
    string nor a list.  In [src/UI/app.js], [tokenise] returns on every
    string and throws a TypeError on every input that is not a string. *)
Theorem tokenise_never_throws (v : value) (b : bool) (x : number)
    (s : jsstring) :
  (exists l, Toggles.tokenise v = Ok l)
  /\ Toggles.tokenise VNull = Ok []
  /\ Toggles.tokenise VUndefined = Ok []
  /\ Toggles.tokenise (VString []) = Ok []
  /\ Toggles.tokenise (VArray []) = Ok []
  /\ Toggles.tokenise (VBool b) = Ok []
  /\ Toggles.tokenise (VNumber x) = Ok []
  /\ Toggles.tokenise VObject = Ok []
  /\ (exists l, AppJs.tokenise (VString s) = Ok l)
  /\ (is_string v = false -> AppJs.tokenise v = Throw TypeError).
Proof.
  split; [apply Toggles_tokenise_total|].
  repeat (split; [reflexivity|]).
  split; [destruct b; reflexivity|].
  split; [destruct x as [| | |? ? ?]; try destruct s0; reflexivity|].
  split; [reflexivity|].
  split; [eexists; apply AppJs_tokenise_string|].
  destruct v; try discriminate; reflexivity.
Qed.

(** C5 as stated fails in [src/UI/app.js]: [tokenise(null)] throws. *)
Lemma AppJs_tokenise_null_throws : AppJs.tokenise VNull = Throw TypeError.
Proof. reflexivity. Qed.

(* ================================================================== *)
(** * The expanded-query box                                            *)
(* ================================================================== *)

Lemma Toggles_tokenise_falsy (v : value) :
  truthy v = false -> Toggles.tokenise v = Ok [].
Proof. intros H. unfold Toggles.tokenise. rewrite H. reflexivity. Qed.

Lemma has_new_term_iff (O E : list jsstring) :
  existsb (fun t => negb (Set_has (Set_new O) t)) (Set_new E) = true
  <-> exists t, In t E /\ ~ In t O.
Proof.
  rewrite existsb_exists. rewrite !Set_new_dedup. split.
  - intros [t [Hin H]]. exists t. rewrite dedup_first_In in Hin.
    split; [exact Hin|]. intros HO.
    apply negb_true_iff in H.
    assert (T : Set_has (dedup_first O) t = true)
      by (apply Set_has_iff; rewrite dedup_first_In; exact HO).
    congruence.
  - intros [t [Hin H]]. exists t. rewrite dedup_first_In.
    split; [exact Hin|]. apply negb_true_iff.
    destruct (Set_has (dedup_first O) t) eqn:E1; [|reflexivity].
    apply Set_has_iff in E1. rewrite dedup_first_In in E1. contradiction.
Qed.

(** What [renderExpandedQuery] of [src/unnamed/part_000] does to the
    page, given the tokens of its two arguments. *)
Lemma Toggles_renderExpandedQuery_run (original : jsstring)
    (expanded : value) (O E : list jsstring) (st : page) :
  Toggles.tokenise (VString original) = Ok O ->
  Toggles.tokenise expanded = Ok E ->
  Toggles.renderExpandedQuery original expanded st =
  (Ok tt,
   if truthy expanded
      && existsb (fun t => negb (Set_has (Set_new O) t)) (Set_new E)
   then set_expandedBox_visible true
          (set_expandedTerms_innerHTML
             (join [] (map (exp_term (Set_new O)) E)) st)
   else set_expandedBox_visible false st).
Proof.
  intros HO HE. unfold Toggles.renderExpandedQuery.
  destruct (truthy expanded); cbn [negb andb]; [|reflexivity].
  unfold mbind, lift. rewrite HO, HE.
  destruct (existsb _ (Set_new E)); reflexivity.
Qed.

(** C2, as amended.  In [src/unnamed/part_000], for every original query
    string and every expanded value, the box is visible after
    [renderExpandedQuery] if and only if at least one token of
    [tokenise(expanded)] is absent from [tokenise(original)]; the chips
    written are then those of the tokens of [tokenise(expanded)], in their
    order; when [expanded] is falsy, and whenever no new term is
    introduced, the function only hides the box and writes no chip.  In
    [src/UI/app.js] the box is visible if and only if the expanded string
    is non-empty and differs from the original string. *)
Theorem renderExpandedQuery_visible (original : jsstring)
    (expanded : value) (s : jsstring) (st : page) :
  (exists O E,
     Toggles.tokenise (VString original) = Ok O
     /\ Toggles.tokenise expanded = Ok E
     /\ let st' := snd (Toggles.renderExpandedQuery original expanded st) in
        (expandedBox_visible st' = true
         <-> exists t, In t E /\ ~ In t O)
        /\ (expandedBox_visible st' = true ->
            expandedTerms_innerHTML st'
            = join [] (map (exp_term (Set_new O)) E))
        /\ (expandedBox_visible st' = false ->
            st' = set_expandedBox_visible false st)
        /\ (truthy expanded = false ->
            st' = set_expandedBox_visible false st))
  /\ expandedBox_visible
       (snd (AppJs.renderExpandedQuery original (VString s) st))
     = truthy_str s && negb (str_eqb s original)
  /\ expandedBox_visible (snd (AppJs.renderExpandedQuery original VNull st))
     = false.
Proof.
  split; [|split].
  - destruct (Toggles_tokenise_total (VString original)) as [O HO].
    destruct (Toggles_tokenise_total expanded) as [E HE].
    exists O, E. split; [exact HO|]. split; [exact HE|].
    rewrite (Toggles_renderExpandedQuery_run _ _ O E st HO HE). cbn [snd].
    pose proof (has_new_term_iff O E) as Hnew.
    destruct (truthy expanded) eqn:T; cbn [andb].
    + destruct (existsb _ (Set_new E)) eqn:X.
      * split; [split; [intros _; apply Hnew; reflexivity|reflexivity]|].
        split; [reflexivity|]. split; discriminate.
      * split; [split; [discriminate|]|].
        { intros H. apply Hnew in H. discriminate. }
        split; [discriminate|]. split; reflexivity.
    + rewrite (Toggles_tokenise_falsy _ T) in HE. injection HE as <-.
      split; [split; [discriminate|intros [t [[] _]]]|].
      split; [discriminate|]. split; reflexivity.
  - unfold AppJs.renderExpandedQuery. cbn [truthy strict_eq_str].
    destruct (truthy_str s); cbn [negb orb andb]; [|reflexivity].
    destruct (str_eqb s original); cbn [negb]; [reflexivity|].
    unfold mbind, lift. rewrite !AppJs_tokenise_string. reflexivity.
  - reflexivity.
Qed.

(** C2 as stated fails in [src/UI/app.js]: an expanded query that only
    reorders the terms of the original one makes the box visible. *)
Lemma AppJs_expansion_visible_without_new_term :
  expandedBox_visible
    (snd (AppJs.renderExpandedQuery (lit "ab cd") (VString (lit "cd ab"))
                                    initial_page)) = true
  /\ AppJs.tokenise (VString (lit "ab cd")) = Ok [lit "ab"; lit "cd"]
  /\ AppJs.tokenise (VString (lit "cd ab")) = Ok [lit "cd"; lit "ab"]
  /\ ~ exists t, In t [lit "cd"; lit "ab"] /\ ~ In t [lit "ab"; lit "cd"].
Proof.
  split; [reflexivity|]. split; [reflexivity|]. split; [reflexivity|].
  intros [t [Hin Hn]]. apply Hn. simpl in *. tauto.
Qed.

(* ================================================================== *)
(** * A search and the keyword chips                                    *)
(* ================================================================== *)

Lemma keeps_ret {A : Type} (a : A) : keeps_queryTokens (ret a).
Proof. intros st; reflexivity. Qed.

Lemma keeps_lift {A : Type} (r : result A) : keeps_queryTokens (lift r).
Proof. intros st; reflexivity. Qed.

Lemma keeps_gets {A : Type} (f : page -> A) : keeps_queryTokens (gets f).
Proof. intros st; reflexivity. Qed.

Lemma keeps_modify (f : page -> page) :
  (forall st, _queryTokens (f st) = _queryTokens st) ->
  keeps_queryTokens (modify f).
Proof. intros H st; apply H. Qed.

Lemma keeps_mbind {A B : Type} (m : M A) (f : A -> M B) :
  keeps_queryTokens m -> (forall a, keeps_queryTokens (f a)) ->
  keeps_queryTokens (mbind m f).
Proof.
  intros Hm Hf st. unfold mbind. specialize (Hm st).
  destruct (m st) as [[a | e |] st']; cbn [snd] in *; try exact Hm.
  rewrite (Hf a st'). exact Hm.
Qed.

Lemma keeps_try_catch (m : M unit) (h : exn -> M unit) :
  keeps_queryTokens m -> (forall e, keeps_queryTokens (h e)) ->
  keeps_queryTokens (try_catch m h).
Proof.
  intros Hm Hh st. unfold try_catch. specialize (Hm st).
  destruct (m st) as [[a | e |] st']; cbn [snd] in *; try exact Hm.
  rewrite (Hh e st'). exact Hm.
Qed.

Ltac keeps :=
  repeat first
    [ apply keeps_ret
    | apply keeps_lift
    | apply keeps_gets
    | apply keeps_modify; intros ?; reflexivity
    | apply keeps_mbind; [|intros ?]
    | apply keeps_try_catch; [|intros ?]
    | match goal with
      | |- keeps_queryTokens (if ?b then _ else _) => destruct b
      end ].

Lemma Toggles_renderExpandedQuery_keeps (original : jsstring)
    (expanded : value) :
  keeps_queryTokens (Toggles.renderExpandedQuery original expanded).
Proof. unfold Toggles.renderExpandedQuery. keeps. Qed.

Lemma Toggles_runSearch_response_keeps (query : jsstring) (data : response) :
  keeps_queryTokens (Toggles.runSearch_response query data).
Proof.
  unfold Toggles.runSearch_response.
  pose proof (Toggles_renderExpandedQuery_keeps query (expanded_query data)).
  keeps; assumption.
Qed.

(** After a search of [src/unnamed/part_000], [_queryTokens] holds the
    tokens of the trimmed input, whatever the response. *)
Lemma Toggles_runSearch_queryTokens (input : jsstring) (data : response)
    (st : page) :
  _queryTokens (snd (Toggles.runSearch input data st))
  = if truthy_str (trim input) then spec_tokenize (trim input)
    else _queryTokens st.
Proof.
  unfold Toggles.runSearch, Toggles.runSearch_begin.
  destruct (truthy_str (trim input)); cbn [negb]; [|reflexivity].
  rewrite Toggles_tokenise_string.
  unfold mbind at 1 2 3 4 5. unfold lift, modify, ret.
  rewrite Toggles_runSearch_response_keeps. reflexivity.
Qed.

(** In [src/UI/app.js] the flags do follow the expanded query. *)
Lemma AppJs_keyword_flags_follow_expansion :
  isMatch (snd (AppJs.runSearch (lit "net")
                  (Response (VString (lit "net deep")) []) initial_page))
          (lit "deep") = true
  /\ isMatch (snd (AppJs.runSearch (lit "net") (Response VNull [])
                     initial_page))
             (lit "deep") = false.
Proof. split; reflexivity. Qed.

(* ================================================================== *)
(** * Person rows                                                       *)
(* ================================================================== *)

Lemma re_name_sep_eq :
  re_name_sep
  = Seq (Cls false [(1548, 1548); (44, 44); (59, 59); (47, 47)]%N) Eps.
Proof. reflexivity. Qed.

(** The names of a person field are the trimmed, non-empty fields between
    Arabic commas, commas, semicolons and slashes. *)
Lemma person_names_split (value : jsstring) :
  person_names value
  = filter truthy_str (map trim (split_on is_name_sep [] value)).
Proof.
  unfold person_names. rewrite re_name_sep_eq, split_class.
  do 2 f_equal.
  generalize (@nil char) as cur.
  induction value as [|c v IH]; intros cur; [reflexivity|].
  cbn [split_on].
  assert (E : in_ranges c [(1548, 1548); (44, 44); (59, 59); (47, 47)]%N
              = is_name_sep c).
  { unfold in_ranges, is_name_sep. cbn [existsb fst snd].
    rewrite orb_false_r.
    assert (K : forall k, N.leb k c && N.leb c k = N.eqb c k).
    { intros k. apply eq_true_iff_eq.
      rewrite andb_true_iff, !N.leb_le, N.eqb_eq. lia. }
    rewrite !K, !orb_assoc. reflexivity. }
  rewrite E. destruct (is_name_sep c); rewrite !IH; reflexivity.
Qed.

(** C6, the zero-names case on the code.  A blank person field produces
    no row; a field that holds separators only passes the guard of
    [buildPersonRow], yields no name, and still produces a row, with an
    empty plain name. *)
Lemma buildPersonRow_separator_only (icon label : jsstring) :
  buildPersonRow icon label (lit " ") = []
  /\ person_names (lit ",") = []
  /\ buildPersonRow icon label (lit ",")
     = html "<div class='person-row'>"
       ++ html "<span class='person-icon'>" ++ icon ++ lit "</span>"
       ++ html "<span class='person-label'>" ++ label ++ lit ":</span>"
       ++ html "<span class='person-name'>" ++ lit "</span>"
       ++ lit "</div>"
  /\ buildPersonRow icon label (lit ",") <> [].
Proof.
  split; [reflexivity|]. split; [reflexivity|]. split; [reflexivity|].
  discriminate.
Qed.

(** The two cases in which the claim holds on the code. *)
Lemma buildPersonRow_names (icon label value : jsstring) :
  truthy_str (trim value) = true ->
  buildPersonRow icon label value
  = html "<div class='person-row'>"
    ++ html "<span class='person-icon'>" ++ icon ++ lit "</span>"
    ++ html "<span class='person-label'>" ++ label ++ lit ":</span>"
    ++ (match person_names value with
        | _ :: _ :: _ =>
          html "<div class='person-name-list'>"
          ++ join [] (map (fun n => html "<span class='person-name-chip'>"
                                      ++ escHtml n ++ lit "</span>")
                          (person_names value))
          ++ lit "</div>"
        | [n] => html "<span class='person-name'>" ++ escHtml n
                 ++ lit "</span>"
        | [] => html "<span class='person-name'>" ++ lit "</span>"
        end)
    ++ lit "</div>".
Proof.
  intros H. unfold buildPersonRow.
  assert (Hv : truthy_str value = true).
  { destruct value; [discriminate H|reflexivity]. }
  rewrite Hv, H. cbn [negb orb].
  destruct (person_names value) as [|n [|n' l]]; reflexivity.
Qed.

(* ================================================================== *)
(** * The score                                                         *)
(* ================================================================== *)

Lemma hundred_value : (7036874417766400 = 100 * 2 ^ 46)%Z.
Proof. reflexivity. Qed.

(** [score_08734] is within half a unit in the last place of [0.8734]. *)
Lemma score_08734_nearest :
  (2 * Z.abs (7866887829090782 * 10000 - 8734 * 2 ^ 53) <= 10000)%Z.
Proof. vm_compute. discriminate. Qed.




Lemma re_newline_eq : re_newline = Seq (Cls false [(10, 10)]%N) Eps.
Proof. reflexivity. Qed.

(** The keywords of a keyword field are the trimmed, non-empty lines. *)
Lemma keywords_of_lines (raw : jsstring) :
  keywords_of raw
  = filter truthy_str (map trim (split_on (fun c => N.eqb c 10) [] raw)).
Proof.
  unfold keywords_of. rewrite re_newline_eq, split_class.
  do 2 f_equal.
  generalize (@nil char) as cur.
  induction raw as [|c v IH]; intros cur; [reflexivity|].
  cbn [split_on].
  assert (E : in_ranges c [(10, 10)]%N = N.eqb c 10).
  { unfold in_ranges. cbn [existsb fst snd]. rewrite orb_false_r.
    apply eq_true_iff_eq.
    rewrite andb_true_iff, !N.leb_le, N.eqb_eq. lia. }
  rewrite E. destruct (N.eqb c 10); rewrite !IH; reflexivity.
Qed.

(* ================================================================== *)
(** * The examples of the specification                                 *)
(* ================================================================== *)

Example highlight_escaped_tag :
  highlight (lit "a<b>c") [lit "b"]
  = Ok (lit "a&lt;" ++ mark (lit "b") ++ lit "&gt;c").
Proof. reflexivity. Qed.

Example highlight_symbols :
  highlight (lit "f(x) = a.b + c") [lit "(x)"; lit "a.b"; lit "+"]
  = Ok (lit "f" ++ mark (lit "(x)") ++ lit " = " ++ mark (lit "a.b")
        ++ lit " " ++ mark (lit "+") ++ lit " c").
Proof. reflexivity. Qed.

Example expansion_with_new_term :
  snd (Toggles.renderExpandedQuery
         (lit "information system")
         (VString (lit "information system architecture")) initial_page)
  = set_expandedBox_visible true
      (set_expandedTerms_innerHTML
         (html "<span class='exp-term original'>information</span>"
          ++ html "<span class='exp-term original'>system</span>"
          ++ html "<span class='exp-term added'>architecture</span>")
         initial_page).
Proof. reflexivity. Qed.

Example expansion_same_query :
  expandedBox_visible
    (snd (Toggles.renderExpandedQuery (lit "q") (VString (lit "q"))
                                      initial_page)) = false
  /\ expandedBox_visible
       (snd (AppJs.renderExpandedQuery (lit "q") (VString (lit "q"))
                                       initial_page)) = false.
Proof. split; reflexivity. Qed.

(** Two names separated by an Arabic comma, and a single name. *)
Example person_names_two :
  person_names
    (units [1593; 1604; 1740; 32; 1585; 1590; 1575; 1740; 1740; 1548; 32;
            1581; 1587; 1606; 32; 1605; 1581; 1605; 1583; 1740]%N)
  = [ units [1593; 1604; 1740; 32; 1585; 1590; 1575; 1740; 1740]%N;
      units [1581; 1587; 1606; 32; 1605; 1581; 1605; 1583; 1740]%N ].
Proof. reflexivity. Qed.

Example person_names_one :
  person_names (units [1593; 1604; 1740; 32; 1585; 1590; 1575; 1740; 1740]%N)
  = [ units [1593; 1604; 1740; 32; 1585; 1590; 1575; 1740; 1740]%N ].
Proof. reflexivity. Qed.

(** A query token inside a longer keyword. *)
Example keyword_contains_token :
  isMatch (set_queryTokens [units [1588; 1576; 1705; 1607]%N] initial_page)
          (units [1588; 1576; 1705; 1607; 32; 1593; 1589; 1576; 1740]%N)
  = true.
Proof. reflexivity. Qed.

(** A document without people, abstract and keywords has no body. *)
Example card_without_body :
  Toggles.renderCardBody initial_page (doc_with_score score_08734) = Ok []
  /\ AppJs.renderCardBody initial_page (doc_with_score score_08734) = Ok [].
Proof. split; reflexivity. Qed.

(** In [src/unnamed/part_000] the expanded query drives the highlighting
    of the title. *)
Example Toggles_title_follows_expansion :
  let doc := Document [] (lit "deep net") [] [] [] [] [] [] [] [] []
                      score_08734 in
  let run e := snd (Toggles.runSearch (lit "net") (Response e [doc])
                                      initial_page) in
  _expandedOnlyTokens (run (VString (lit "net deep")))
  = [lit "net"; lit "deep"]
  /\ _expandedOnlyTokens (run VNull) = []
  /\ resultsContainer (run (VString (lit "net deep")))
     <> resultsContainer (run VNull).
Proof.
  cbv zeta. split; [reflexivity|]. split; [reflexivity|].
  vm_compute. discriminate.
Qed.

(* ================================================================== *)
(** * More on [escHtml]                                                 *)
(* ================================================================== *)

Lemma entity_cases (c : char) :
  (c = ch "&" /\ entity c = lit "&amp;")
  \/ (c = ch "<" /\ entity c = lit "&lt;")
  \/ (c = ch ">" /\ entity c = lit "&gt;")
  \/ (c = dquote /\ entity c = lit "&quot;")
  \/ (html_special c = false /\ entity c = [c]).
Proof.
  unfold entity, html_special.
  destruct (N.eqb c (ch "&")) eqn:E1;
    [apply N.eqb_eq in E1; subst; tauto|].
  destruct (N.eqb c (ch "<")) eqn:E2;
    [apply N.eqb_eq in E2; subst; tauto|].
  destruct (N.eqb c (ch ">")) eqn:E3;
    [apply N.eqb_eq in E3; subst; tauto|].
  destruct (N.eqb c dquote) eqn:E4;
    [apply N.eqb_eq in E4; subst; tauto|].
  tauto.
Qed.

Lemma escHtml_units_safe (s : jsstring) :
  Forall (fun c => c <> ch "<" /\ c <> ch ">" /\ c <> dquote) (escHtml s).
Proof.
  rewrite escHtml_flat_map. induction s as [|c s IH]; [constructor|].
  cbn [flat_map]. apply Forall_app. split; [|exact IH].
  destruct (entity_cases c)
    as [[_ ->] | [[_ ->] | [[_ ->] | [[_ ->] | [H ->]]]]];
    try (repeat constructor; discriminate).
  constructor; [|constructor].
  unfold html_special in H. rewrite !orb_false_iff in H.
  destruct H as [[[_ H2] H3] H4].
  apply N.eqb_neq in H2, H3, H4. tauto.
Qed.

(** X1.  The text [escHtml] returns holds no [<], no [>] and no double
    quote, whatever the input. *)
Theorem escHtml_no_markup (s : jsstring) :
  Forall (fun c => c <> ch "<" /\ c <> ch ">" /\ c <> dquote) (escHtml s).
Proof. exact (escHtml_units_safe s). Qed.

(** X2.  [escHtml] loses nothing: two strings with the same escaped text
    are the same string. *)
Theorem escHtml_injective (a b : jsstring) :
  escHtml a = escHtml b <-> a = b.
Proof.
  split; [|intros ->; reflexivity].
  rewrite !escHtml_flat_map. revert b.
  induction a as [|c a IH]; intros [|d b] H.
  - reflexivity.
  - cbn [flat_map] in H.
    destruct (entity_cases d) as [[_ E] | [[_ E] | [[_ E] | [[_ E] | [_ E]]]]];
      rewrite E in H; discriminate.
  - cbn [flat_map] in H.
    destruct (entity_cases c) as [[_ E] | [[_ E] | [[_ E] | [[_ E] | [_ E]]]]];
      rewrite E in H; discriminate.
  - cbn [flat_map] in H.
    destruct (entity_cases c)
      as [[Hc Ec] | [[Hc Ec] | [[Hc Ec] | [[Hc Ec] | [Hc Ec]]]]];
    destruct (entity_cases d)
      as [[Hd Ed] | [[Hd Ed] | [[Hd Ed] | [[Hd Ed] | [Hd Ed]]]]];
    rewrite Ec, Ed in H; try discriminate H;
    try (subst c d; injection H as H; f_equal; apply IH; exact H);
    try (subst c; injection H as <- H; discriminate Hd);
    try (subst d; injection H as -> H; discriminate Hc).
    injection H as -> H. f_equal. apply IH, H.
Qed.

(* ================================================================== *)
(** * More on [highlight]                                               *)
(* ================================================================== *)

Lemma marked_refl (tokens : list jsstring) (s : jsstring) :
  marked tokens s s.
Proof. induction s; constructor; assumption. Qed.

Lemma first_literal_In (t : jsstring) (ts : list jsstring)
    (s m : jsstring) :
  first_literal (t :: ts) s = Some m -> In m (t :: ts).
Proof. unfold first_literal. intros H. apply find_some in H. apply H. Qed.

Lemma wrap_from_marked (t : jsstring) (ts : list jsstring) (fuel : nat) :
  forall s, length s < fuel ->
            marked (t :: ts) s (wrap_from fuel (t :: ts) s).
Proof.
  induction fuel as [|f IH]; intros s Hs; [inversion Hs|].
  cbn [wrap_from].
  destruct (first_literal (t :: ts) s) as [[|k m]|] eqn:E.
  - apply first_literal_In in E.
    apply (marked_wrap (t :: ts) [] s); [exact E|].
    destruct s as [|c s1]; constructor. apply IH. simpl in Hs. lia.
  - pose proof (first_literal_In _ _ _ _ E) as Hin.
    apply first_literal_starts in E.
    assert (Hlen : 1 <= length s).
    { destruct s; [discriminate E|simpl; lia]. }
    rewrite (starts_with_split _ _ E) at 1.
    apply marked_wrap; [exact Hin|]. apply IH.
    rewrite length_skipn. cbn [length]. lia.
  - destruct s as [|c s1]; constructor. apply IH. simpl in Hs. lia.
Qed.

(** X3.  [highlight] only adds markers: on every text and token list it
    returns the escaped text in which some occurrences of tokens are
    wrapped in a marker and nothing else is changed, dropped or added. *)
Theorem highlight_only_adds_markers (text : jsstring)
    (tokens : list jsstring) :
  exists out, highlight text tokens = Ok out
              /\ marked tokens (escHtml text) out.
Proof.
  rewrite highlight_wrap.
  destruct (negb (truthy_str text) || (length tokens =? 0)%nat) eqn:G.
  - eexists; split; [reflexivity|apply marked_refl].
  - eexists; split; [reflexivity|].
    destruct tokens as [|t ts].
    + rewrite orb_true_r in G. discriminate.
    + unfold wrap_tokens. apply wrap_from_marked. lia.
Qed.

Lemma starts_with_In (t s : jsstring) (c : char) :
  starts_with t s = true -> In c t -> In c s.
Proof.
  intros H Hin. apply starts_with_iff in H. destruct H as [post ->].
  apply in_or_app. left; exact Hin.
Qed.

Lemma wrap_from_absent (tokens : list jsstring) (fuel : nat) :
  forall s,
    (forall t s', In t tokens -> starts_with t s' = true ->
                  exists c, In c t /\ ~ In c s) ->
    tokens <> [] ->
    wrap_from fuel tokens s = s.
Proof.
  induction fuel as [|f IH]; intros s H Hne; [reflexivity|].
  cbn [wrap_from].
  assert (E : first_literal tokens s = None).
  { destruct tokens as [|t ts]; [contradiction|].
    unfold first_literal.
    destruct (find (fun t0 => starts_with t0 s) (t :: ts)) as [m|] eqn:F;
      [|reflexivity].
    apply find_some in F. destruct F as [Hin Hs].
    destruct (H m s Hin Hs) as [c [Hc Hn]].
    exfalso. apply Hn. apply (starts_with_In m s c Hs Hc). }
  rewrite E. destruct s as [|c s1]; [reflexivity|].
  f_equal. apply IH; [|exact Hne].
  intros t s' Hin Hs. destruct (H t s' Hin Hs) as [x [Hx Hn]].
  exists x. split; [exact Hx|]. intros Hin'. apply Hn. right; exact Hin'.
Qed.

(** X4.  A token that holds a [<], a [>] or a double quote is never
    highlighted: when every token holds one, [highlight] returns the
    escaped text without any marker. *)
Theorem highlight_skips_markup_tokens (text : jsstring)
    (tokens : list jsstring) :
  (forall t, In t tokens ->
             exists c, In c t /\ (c = ch "<" \/ c = ch ">" \/ c = dquote)) ->
  highlight text tokens = Ok (escHtml text).
Proof.
  intros H. rewrite highlight_wrap.
  destruct (negb (truthy_str text) || (length tokens =? 0)%nat) eqn:G;
    [reflexivity|].
  f_equal. unfold wrap_tokens. apply wrap_from_absent.
  - intros t s' Hin _. destruct (H t Hin) as [c [Hc Hm]].
    exists c. split; [exact Hc|]. intros Hin'.
    pose proof (escHtml_units_safe text) as Hsafe.
    rewrite Forall_forall in Hsafe. specialize (Hsafe c Hin').
    destruct Hm as [-> | [-> | ->]]; tauto.
  - intros ->. rewrite orb_true_r in G. discriminate.
Qed.

Lemma highlight_skips_markup_tokens_witness :
  (forall t, In t [lit "a<b"] ->
             exists c, In c t /\ (c = ch "<" \/ c = ch ">" \/ c = dquote))
  /\ highlight (lit "x a<b y") [lit "a<b"] = Ok (escHtml (lit "x a<b y")).
Proof.
  assert (H : forall t, In t [lit "a<b"] ->
                exists c, In c t
                          /\ (c = ch "<" \/ c = ch ">" \/ c = dquote)).
  { intros t [<- | []]. exists (ch "<"). simpl. tauto. }
  split; [exact H|].
  exact (highlight_skips_markup_tokens (lit "x a<b y") [lit "a<b"] H).
Defined.

(* ================================================================== *)
(** * More on the tokenisers                                            *)
(* ================================================================== *)

Lemma ws_fields_no_white (s : jsstring) :
  forall b cur, no_white cur -> Forall no_white (ws_fields b cur s).
Proof.
  induction s as [|c s IH]; intros b cur Hc; cbn [ws_fields].
  - constructor; [|constructor]. apply Forall_rev, Hc.
  - destruct (is_white c) eqn:W.
    + destruct b; [apply IH, Hc|].
      constructor; [apply Forall_rev, Hc|]. apply IH. constructor.
    + apply IH. constructor; assumption.
Qed.

Lemma substring_cons (t s : jsstring) (c : char) :
  substring t s -> substring t (c :: s).
Proof.
  intros (pre & post & ->). exists (c :: pre), post. reflexivity.
Qed.

Lemma substring_app_l (t s pre : jsstring) :
  substring t s -> substring t (pre ++ s).
Proof.
  intros (p & post & ->). exists (pre ++ p), post.
  rewrite app_assoc. reflexivity.
Qed.

Lemma ws_fields_substring (s : jsstring) :
  forall b cur, (b = true -> cur = []) ->
    Forall (fun f => substring f (rev cur ++ s)) (ws_fields b cur s).
Proof.
  induction s as [|c s IH]; intros b cur Hb; cbn [ws_fields].
  - constructor; [|constructor]. exists [], []. rewrite !app_nil_r.
    reflexivity.
  - destruct (is_white c) eqn:W.
    + destruct b.
      * rewrite (Hb eq_refl). cbn [rev app].
        specialize (IH true [] (fun _ => eq_refl)). cbn [rev app] in IH.
        eapply Forall_impl; [|exact IH].
        intros f Hf. apply substring_cons, Hf.
      * constructor.
        -- exists [], (c :: s). reflexivity.
        -- specialize (IH true [] (fun _ => eq_refl)). cbn [rev app] in IH.
           eapply Forall_impl; [|exact IH].
           intros f Hf. apply substring_app_l, substring_cons, Hf.
    + specialize (IH false (c :: cur)). cbn [rev] in IH.
      rewrite <- app_assoc in IH. apply IH. discriminate.
Qed.

(** X5.  Every token that [tokenise] returns for a string is a word of
    that string: it occurs in the string and holds no white space.  This
    holds in both files. *)
Theorem tokens_are_words (s : jsstring) :
  exists l l',
    Toggles.tokenise (VString s) = Ok l
    /\ AppJs.tokenise (VString s) = Ok l'
    /\ Forall (fun t => substring t s /\ no_white t) l
    /\ Forall (fun t => substring t s /\ no_white t) l'.
Proof.
  exists (spec_tokenize s), (filter long_enough (whitespace_split s)).
  split; [apply Toggles_tokenise_string|].
  split; [apply AppJs_tokenise_string|].
  assert (H : forall t, In t (whitespace_split s) ->
                        substring t s /\ no_white t).
  { intros t Ht. split.
    - pose proof (ws_fields_substring s false [] (fun H => eq_refl)) as F.
      rewrite Forall_forall in F. apply (F t Ht).
    - pose proof (ws_fields_no_white s false [] (Forall_nil _)) as F.
      rewrite Forall_forall in F. apply (F t Ht). }
  split; apply Forall_forall; intros t Ht; apply H.
  - unfold spec_tokenize in Ht. rewrite dedup_first_In in Ht.
    apply filter_In in Ht. apply Ht.
  - apply filter_In in Ht. apply Ht.
Qed.

(** X6.  The tokeniser of [src/unnamed/part_000] returns the tokens of
    the tokeniser of [src/UI/app.js] with the later duplicates removed;
    the two return the same set of tokens for every string. *)
Theorem tokenisers_agree (s : jsstring) :
  exists l,
    AppJs.tokenise (VString s) = Ok l
    /\ Toggles.tokenise (VString s) = Ok (dedup_first l)
    /\ forall t, In t (dedup_first l) <-> In t l.
Proof.
  exists (filter long_enough (whitespace_split s)).
  split; [apply AppJs_tokenise_string|].
  split; [apply Toggles_tokenise_string|].
  intros t. apply dedup_first_In.
Qed.

Lemma spec_tokenize_eq (s : jsstring) :
  spec_tokenize s = dedup_first (filter long_enough (whitespace_split s)).
Proof. reflexivity. Qed.

Lemma ws_fields_white_run (w : jsstring) :
  forallb is_white w = true ->
  forall cur, ws_fields true cur w = [rev cur].
Proof.
  induction w as [|c w IH]; intros H cur; [reflexivity|].
  cbn [forallb] in H. apply andb_true_iff in H. destruct H as [Hc Hw].
  cbn [ws_fields]. rewrite Hc. apply IH, Hw.
Qed.

Lemma long_tokens_trim_start (s : jsstring) :
  filter long_enough (ws_fields false [] (trim_start s))
  = filter long_enough (ws_fields false [] s).
Proof.
  destruct s as [|c s]; [reflexivity|]. cbn [trim_start ws_fields].
  destruct (is_white c) eqn:W.
  - cbn [rev filter long_enough length Nat.leb].
    rewrite ws_fields_in_run. reflexivity.
  - cbn [ws_fields]. rewrite W. reflexivity.
Qed.

Lemma long_tokens_white_tail (a w : jsstring) :
  forallb is_white w = true ->
  forall b cur,
    filter long_enough (ws_fields b cur (a ++ w))
    = filter long_enough (ws_fields b cur a).
Proof.
  intros Hw. induction a as [|c a IH]; intros b cur.
  - cbn [app]. destruct w as [|c w]; [reflexivity|].
    cbn [forallb] in Hw. apply andb_true_iff in Hw. destruct Hw as [Hc Hw].
    cbn [ws_fields]. rewrite Hc. destruct b.
    + rewrite ws_fields_white_run by exact Hw. reflexivity.
    + rewrite ws_fields_white_run by exact Hw.
      cbn [filter rev long_enough length Nat.leb].
      destruct (2 <=? length (rev cur))%nat; reflexivity.
  - cbn [app ws_fields]. destruct (is_white c).
    + destruct b; [apply IH|]. cbn [filter]. rewrite IH. reflexivity.
    + apply IH.
Qed.

Lemma take_white_all (s : jsstring) : forallb is_white (take_white s) = true.
Proof.
  induction s as [|c s IH]; [reflexivity|]. cbn [take_white].
  destruct (is_white c) eqn:W; [|reflexivity].
  cbn [forallb]. rewrite W. exact IH.
Qed.

Lemma forallb_rev {A : Type} (f : A -> bool) (l : list A) :
  forallb f (rev l) = forallb f l.
Proof.
  induction l as [|x l IH]; [reflexivity|].
  cbn [rev forallb]. rewrite forallb_app, IH. cbn [forallb].
  rewrite andb_true_r. apply andb_comm.
Qed.

(** A string is its [trim_end] followed by white space. *)
Lemma trim_end_split (s : jsstring) :
  exists w, forallb is_white w = true /\ s = trim_end s ++ w.
Proof.
  exists (rev (take_white (rev s))). split.
  - rewrite forallb_rev. apply take_white_all.
  - unfold trim_end. rewrite <- rev_app_distr, take_white_trim_start.
    symmetry. apply rev_involutive.
Qed.

Lemma long_tokens_trim (s : jsstring) :
  filter long_enough (whitespace_split (trim s))
  = filter long_enough (whitespace_split s).
Proof.
  unfold whitespace_split, trim.
  destruct (trim_end_split (trim_start s)) as [w [Hw E]].
  rewrite <- (long_tokens_trim_start s). rewrite E at 2.
  symmetry. apply long_tokens_white_tail, Hw.
Qed.

(** X7.  White space around a query does not matter: in both files
    [tokenise] returns for the trimmed string what it returns for the
    string. *)
Theorem tokenise_ignores_surrounding_space (s : jsstring) :
  Toggles.tokenise (VString (trim s)) = Toggles.tokenise (VString s)
  /\ AppJs.tokenise (VString (trim s)) = AppJs.tokenise (VString s).
Proof.
  rewrite !Toggles_tokenise_string, !AppJs_tokenise_string.
  split.
  - rewrite !spec_tokenize_eq, long_tokens_trim. reflexivity.
  - rewrite long_tokens_trim. reflexivity.
Qed.

Lemma long_tokens_space_join (a t : jsstring) :
  forall b cur, (b = true -> cur = []) ->
    filter long_enough (ws_fields b cur (a ++ ch " " :: t))
    = filter long_enough (ws_fields b cur a)
      ++ filter long_enough (ws_fields false [] t).
Proof.
  induction a as [|c a IH]; intros b cur Hb.
  - cbn [app ws_fields]. change (is_white (ch " ")) with true. cbv iota.
    destruct b.
    + rewrite (Hb eq_refl), ws_fields_in_run, long_tokens_trim_start.
      reflexivity.
    + rewrite ws_fields_in_run. cbn [filter].
      rewrite long_tokens_trim_start.
      destruct (long_enough (rev cur)); reflexivity.
  - cbn [app ws_fields]. destruct (is_white c).
    + destruct b.
      * apply IH, Hb.
      * cbn [filter]. rewrite IH by reflexivity.
        destruct (long_enough (rev cur)); reflexivity.
    + apply IH. discriminate.
Qed.

(** X8.  Tokenising two strings joined by a space gives the tokens of the
    first followed by the tokens of the second; in
    [src/unnamed/part_000] the later duplicates are then removed. *)
Theorem tokenise_space_join (a b : jsstring) :
  exists la lb,
    AppJs.tokenise (VString a) = Ok la
    /\ AppJs.tokenise (VString b) = Ok lb
    /\ AppJs.tokenise (VString (a ++ lit " " ++ b)) = Ok (la ++ lb)
    /\ Toggles.tokenise (VString (a ++ lit " " ++ b))
       = Ok (dedup_first (la ++ lb)).
Proof.
  exists (filter long_enough (whitespace_split a)),
         (filter long_enough (whitespace_split b)).
  rewrite !AppJs_tokenise_string, Toggles_tokenise_string.
  rewrite spec_tokenize_eq. unfold whitespace_split.
  change (a ++ lit " " ++ b) with (a ++ ch " " :: b).
  rewrite long_tokens_space_join by discriminate.
  repeat split.
Qed.

(* ================================================================== *)
(** * [trim]                                                            *)
(* ================================================================== *)

Lemma trim_start_head_ok (s : jsstring) : head_ok (trim_start s).
Proof.
  induction s as [|c s IH]; [exact I|]. cbn [trim_start].
  destruct (is_white c) eqn:W; [exact IH|exact W].
Qed.

Lemma trim_start_fixed (s : jsstring) : head_ok s -> trim_start s = s.
Proof.
  destruct s as [|c s]; [reflexivity|]. simpl. intros ->. reflexivity.
Qed.

Lemma trim_end_head_ok (x : jsstring) : head_ok x -> head_ok (trim_end x).
Proof.
  intros H. destruct (trim_end_split x) as [w [_ E]].
  destruct (trim_end x) as [|c r]; [exact I|].
  rewrite E in H. exact H.
Qed.

Lemma trim_idempotent (s : jsstring) : trim (trim s) = trim s.
Proof.
  assert (H1 : head_ok (trim s))
    by (apply trim_end_head_ok, trim_start_head_ok).
  assert (H2 : head_ok (rev (trim s))).
  { unfold trim, trim_end. rewrite rev_involutive.
    apply trim_start_head_ok. }
  unfold trim at 1. rewrite (trim_start_fixed _ H1).
  unfold trim_end. rewrite (trim_start_fixed _ H2). apply rev_involutive.
Qed.

Lemma trim_start_nil_iff (s : jsstring) :
  trim_start s = [] <-> forallb is_white s = true.
Proof.
  induction s as [|c s IH]; [simpl; tauto|]. cbn [trim_start forallb].
  destruct (is_white c); cbn [andb]; [exact IH|].
  split; discriminate.
Qed.

Lemma trim_end_nil_iff (s : jsstring) :
  trim_end s = [] <-> forallb is_white s = true.
Proof.
  unfold trim_end. rewrite <- (forallb_rev is_white s), <- trim_start_nil_iff.
  split.
  - intros H. apply (f_equal (@rev char)) in H.
    rewrite rev_involutive in H. exact H.
  - intros ->. reflexivity.
Qed.

(** A string trims to the empty string exactly when it is blank. *)
Lemma trim_nil_iff (s : jsstring) :
  trim s = [] <-> forallb is_white s = true.
Proof.
  unfold trim. rewrite trim_end_nil_iff, <- (trim_start_nil_iff s).
  pose proof (trim_start_head_ok s) as Hh. revert Hh.
  generalize (trim_start s) as y. intros [|c r] Hh.
  - split; reflexivity.
  - split; [|discriminate]. cbn [forallb]. simpl in Hh. rewrite Hh.
    discriminate.
Qed.

Lemma trim_In (s : jsstring) (c : char) : In c (trim s) -> In c s.
Proof.
  intros H. unfold trim in H.
  destruct (trim_end_split (trim_start s)) as [w [_ E]].
  assert (H1 : In c (trim_start s))
    by (rewrite E; apply in_or_app; left; exact H).
  rewrite <- (take_white_trim_start s). apply in_or_app. right; exact H1.
Qed.

Lemma trim_substring (s : jsstring) : substring (trim s) s.
Proof.
  unfold trim.
  destruct (trim_end_split (trim_start s)) as [w [_ E]].
  exists (take_white s), w. rewrite <- E. symmetry.
  apply take_white_trim_start.
Qed.

Lemma truthy_str_nil_iff (s : jsstring) : truthy_str s = false <-> s = [].
Proof. destruct s; simpl; split; congruence. Qed.

(* ================================================================== *)
(** * More on person rows and keywords                                  *)
(* ================================================================== *)

Lemma split_on_no_sep (sep : char -> bool) (s : jsstring) :
  forall cur,
    (forall c, In c cur -> sep c = false) ->
    forall f c, In f (split_on sep cur s) -> In c f -> sep c = false.
Proof.
  induction s as [|x s IH]; intros cur Hcur f c Hf Hc; cbn [split_on] in Hf.
  - destruct Hf as [<- | []]. apply Hcur, in_rev, Hc.
  - destruct (sep x) eqn:S.
    + destruct Hf as [<- | Hf]; [apply Hcur, in_rev, Hc|].
      apply (IH [] (fun c H => match H with end) f c Hf Hc).
    + apply (IH (x :: cur)) with (f := f); try assumption.
      intros y [<- | Hy]; [exact S|apply Hcur, Hy].
Qed.

Lemma name_parts_clean (value : jsstring) :
  Forall clean_name (name_parts value).
Proof.
  apply Forall_forall. intros n Hn. unfold name_parts in Hn.
  apply filter_In in Hn. destruct Hn as [Hn Ht].
  apply in_map_iff in Hn. destruct Hn as [f [<- Hf]].
  split; [destruct (trim f); [discriminate Ht|discriminate]|].
  split; [apply trim_idempotent|].
  intros c Hc. apply trim_In in Hc.
  apply (split_on_no_sep is_name_sep value []
           (fun c H => match H with end) f c Hf Hc).
Qed.

Lemma join_nil_concat (l : list jsstring) : join [] l = concat l.
Proof.
  induction l as [|x l IH]; [reflexivity|].
  destruct l as [|y l].
  - cbn. rewrite app_nil_r. reflexivity.
  - change (join [] (x :: y :: l)) with (x ++ join [] (y :: l)).
    rewrite IH. reflexivity.
Qed.

Lemma buildPersonRow_nil_iff (icon label value : jsstring) :
  buildPersonRow icon label value = [] <-> trim value = [].
Proof.
  split.
  - intros H. destruct (trim value) as [|c r] eqn:T; [reflexivity|].
    rewrite buildPersonRow_names in H by (rewrite T; reflexivity).
    discriminate H.
  - intros T. unfold buildPersonRow. rewrite T. cbn [truthy_str negb].
    rewrite orb_true_r. reflexivity.
Qed.

(** X10.  [buildPersonRow] returns the empty string exactly for a blank
    field (empty or white space only); every other field, also one that
    yields no name, gets a row. *)
Theorem buildPersonRow_empty_iff (icon label value : jsstring) :
  buildPersonRow icon label value = [] <-> trim value = [].
Proof. exact (buildPersonRow_nil_iff icon label value). Qed.

(** X9.  The row of a person field that is not blank shows the names of
    the field and nothing else: the parts between the separators (Arabic
    comma, comma, semicolon, slash), trimmed, the empty ones dropped; as
    chips when there are two and more, as one plain name when there is
    one, and as an empty plain name when the field holds no name at all.
    Every name shown is non-empty, has no white space around it and holds
    no separator.  A blank field gets no row. *)
Theorem buildPersonRow_shows_clean_names (icon label value : jsstring) :
  Forall clean_name (name_parts value)
  /\ buildPersonRow icon label value
     = if truthy_str (trim value)
       then person_row icon label (names_markup (name_parts value))
       else [].
Proof.
  split; [apply name_parts_clean|].
  destruct (truthy_str (trim value)) eqn:T.
  - rewrite (buildPersonRow_names icon label value T), person_names_split.
    fold (name_parts value). unfold person_row, names_markup.
    destruct (name_parts value) as [|n [|m l]]; try reflexivity.
    rewrite join_nil_concat. reflexivity.
  - apply buildPersonRow_nil_iff, truthy_str_nil_iff, T.
Qed.

Lemma split_on_keeps_text (sep : char -> bool) (s : jsstring) :
  (forall c, sep c = true -> is_white c = true) ->
  forall cur,
    (exists c, In c (rev cur ++ s) /\ is_white c = false) ->
    exists f, In f (split_on sep cur s)
              /\ exists c, In c f /\ is_white c = false.
Proof.
  intros Hsep. induction s as [|x s IH]; intros cur [c [Hc Hw]].
  - rewrite app_nil_r in Hc. exists (rev cur). split; [left; reflexivity|].
    exists c. tauto.
  - cbn [split_on]. apply in_app_or in Hc.
    destruct (sep x) eqn:S.
    + destruct Hc as [Hc | [<- | Hc]].
      * exists (rev cur). split; [left; reflexivity|]. exists c. tauto.
      * rewrite (Hsep _ S) in Hw. discriminate.
      * destruct (IH [] (ex_intro _ c (conj Hc Hw))) as [f [Hf Hx]].
        exists f. split; [right; exact Hf|exact Hx].
    + apply IH. exists c. split; [|exact Hw].
      cbn [rev]. rewrite <- app_assoc. apply in_or_app.
      destruct Hc as [Hc | Hc]; [left; exact Hc|right; exact Hc].
Qed.

Lemma split_on_In (sep : char -> bool) (s : jsstring) :
  forall cur f c,
    In f (split_on sep cur s) -> In c f -> In c (rev cur ++ s).
Proof.
  induction s as [|x s IH]; intros cur f c Hf Hc; cbn [split_on] in Hf.
  - destruct Hf as [<- | []]. rewrite app_nil_r. exact Hc.
  - destruct (sep x).
    + destruct Hf as [<- | Hf].
      * apply in_or_app. left; exact Hc.
      * apply in_or_app. right. right. apply (IH [] f c Hf Hc).
    + specialize (IH (x :: cur) f c Hf Hc). cbn [rev] in IH.
      rewrite <- app_assoc in IH. exact IH.
Qed.

Lemma not_blank_has_text (s : jsstring) :
  trim s <> [] -> exists c, In c s /\ is_white c = false.
Proof.
  intros H. rewrite trim_nil_iff in H.
  induction s as [|c s IH]; [exfalso; apply H; reflexivity|].
  destruct (is_white c) eqn:W.
  - destruct IH as [x [Hx Hw]].
    + intros Hs. apply H. cbn [forallb]. rewrite W, Hs. reflexivity.
    + exists x. split; [right; exact Hx|exact Hw].
  - exists c. split; [left; reflexivity|exact W].
Qed.

Lemma has_text_not_blank (s : jsstring) (c : char) :
  In c s -> is_white c = false -> trim s <> [].
Proof.
  intros Hc Hw H. rewrite trim_nil_iff, forallb_forall in H.
  rewrite (H c Hc) in Hw. discriminate.
Qed.

(** The keywords of a field are none exactly when the field is blank. *)
Lemma keywords_of_nil_iff (raw : jsstring) :
  keywords_of raw = [] <-> trim raw = [].
Proof.
  rewrite keywords_of_lines. split.
  - intros H. destruct (trim raw) as [|x r] eqn:T; [reflexivity|].
    assert (Hne : trim raw <> []) by (rewrite T; discriminate).
    apply not_blank_has_text in Hne.
    destruct (split_on_keeps_text (fun c => N.eqb c 10) raw)
      with (cur := @nil char) as [f [Hf [c [Hc Hw]]]].
    + intros c E. apply N.eqb_eq in E. subst c. reflexivity.
    + exact Hne.
    + assert (Hin : In (trim f)
                (filter truthy_str
                   (map trim (split_on (fun c => N.eqb c 10) [] raw)))).
      { apply filter_In. split; [apply in_map, Hf|].
        pose proof (has_text_not_blank f c Hc Hw).
        destruct (trim f); [contradiction|reflexivity]. }
      rewrite H in Hin. destruct Hin.
  - intros T. rewrite trim_nil_iff, forallb_forall in T.
    assert (G : forall f, In f (split_on (fun c => N.eqb c 10) [] raw) ->
                          trim f = []).
    { intros f Hf. apply trim_nil_iff, forallb_forall. intros c Hc.
      apply T. apply (split_on_In _ raw [] f c Hf Hc). }
    destruct (filter truthy_str
                (map trim (split_on (fun c => N.eqb c 10) [] raw)))
      as [|k ks] eqn:F; [reflexivity|].
    assert (Hk : In k (k :: ks)) by (left; reflexivity).
    rewrite <- F in Hk. apply filter_In in Hk. destruct Hk as [Hk Ht].
    apply in_map_iff in Hk. destruct Hk as [f [<- Hf]].
    rewrite (G f Hf) in Ht. discriminate.
Qed.

Lemma buildKeywords_nil_iff (st : page) (raw : jsstring) :
  buildKeywords st raw = [] <-> trim raw = [].
Proof.
  split.
  - intros H. destruct (trim raw) as [|c r] eqn:T; [reflexivity|].
    exfalso. unfold buildKeywords in H. rewrite T in H.
    assert (Hr : truthy_str raw = true).
    { destruct raw; [discriminate T|reflexivity]. }
    rewrite Hr in H. cbn [truthy_str negb orb] in H.
    destruct (keywords_of raw) as [|k ks] eqn:K.
    + apply keywords_of_nil_iff in K. congruence.
    + cbn [length Nat.eqb] in H. discriminate H.
  - intros T. unfold buildKeywords. rewrite T. cbn [truthy_str negb].
    rewrite orb_true_r. reflexivity.
Qed.

(** X11.  [buildKeywords] returns the empty string exactly for a blank
    keyword field; a field that is not blank always yields at least one
    keyword, so the test on an empty keyword list never decides.  Every
    keyword shown is non-empty, trimmed and free of line feeds. *)
Theorem buildKeywords_empty_iff (st : page) (raw : jsstring) :
  (buildKeywords st raw = [] <-> trim raw = [])
  /\ (keywords_of raw = [] <-> trim raw = [])
  /\ Forall (fun k => k <> [] /\ trim k = k /\ ~ In 10%N k)
            (keywords_of raw).
Proof.
  split; [apply buildKeywords_nil_iff|split; [apply keywords_of_nil_iff|]].
  apply Forall_forall. intros k Hk. rewrite keywords_of_lines in Hk.
    apply filter_In in Hk. destruct Hk as [Hk Ht].
    apply in_map_iff in Hk. destruct Hk as [f [<- Hf]].
    split; [destruct (trim f); [discriminate Ht|discriminate]|].
    split; [apply trim_idempotent|].
    intros Hc. apply trim_In in Hc.
    pose proof (split_on_no_sep (fun c => N.eqb c 10) raw []
                  (fun c H => match H with end) f 10%N Hf Hc) as E.
    discriminate E.
Qed.

(* ================================================================== *)
(** * More on the cards                                                 *)
(* ================================================================== *)

Lemma people_nil_iff (r1 r2 r3 : jsstring) :
  join [] (filter truthy_str [r1; r2; r3]) = []
  <-> r1 = [] /\ r2 = [] /\ r3 = [].
Proof.
  destruct r1, r2, r3; cbn; split; intros H;
    try discriminate H; try tauto;
    destruct H as (H1 & H2 & H3); discriminate.
Qed.

Lemma renderCardBody_with_empty_iff (hl : page -> list jsstring)
    (st : page) (doc : document) :
  renderCardBody_with hl st doc = Ok []
  <-> trim (authors doc) = [] /\ trim (advisors doc) = []
      /\ trim (co_advisors doc) = [] /\ abs_text doc = []
      /\ trim (keyword_text doc) = [].
Proof.
  rewrite <- (buildPersonRow_nil_iff icon_author label_author (authors doc)).
  rewrite <- (buildPersonRow_nil_iff icon_advisor label_advisor
                (advisors doc)).
  rewrite <- (buildPersonRow_nil_iff icon_co_advisor label_co_advisor
                (co_advisors doc)).
  pose proof (buildKeywords_nil_iff st (keyword_text doc)) as HK.
  rewrite <- HK.
  unfold renderCardBody_with.
  pose proof (people_nil_iff
                (buildPersonRow icon_author label_author (authors doc))
                (buildPersonRow icon_advisor label_advisor (advisors doc))
                (buildPersonRow icon_co_advisor label_co_advisor
                   (co_advisors doc))) as HP.
  revert HP.
  generalize (join [] (filter truthy_str
    [buildPersonRow icon_author label_author (authors doc);
     buildPersonRow icon_advisor label_advisor (advisors doc);
     buildPersonRow icon_co_advisor label_co_advisor (co_advisors doc)])).
  intros people HP.
  generalize (buildKeywords st (keyword_text doc)) as keywords.
  intros keywords.
  destruct (abs_text doc) as [|a abs] eqn:A.
  - cbn [truthy_str bind].
    destruct people as [|p ps], keywords as [|k ks]; cbn [truthy_str negb andb];
      split; intros H; try discriminate H.
    + split; [apply HP; reflexivity|]. tauto.
    + reflexivity.
    + destruct H as (_ & _ & _ & _ & H). discriminate H.
    + exfalso. assert (E : p :: ps = []) by (apply HP; tauto). discriminate E.
    + exfalso. assert (E : p :: ps = []) by (apply HP; tauto). discriminate E.
  - cbn [truthy_str]. rewrite highlight_wrap. cbn [bind].
    rewrite andb_false_r. cbn [andb].
    split; intros H; [discriminate H|].
    destruct H as (_ & _ & _ & H & _). discriminate H.
Qed.

(** X12.  In both files [renderCardBody] returns the empty string -- the
    card has no body -- exactly when the three person fields and the
    keyword field are blank and there is no abstract. *)
Theorem renderCardBody_empty_iff (st : page) (doc : document) :
  let blank :=
    trim (authors doc) = [] /\ trim (advisors doc) = []
    /\ trim (co_advisors doc) = [] /\ abs_text doc = []
    /\ trim (keyword_text doc) = [] in
  (Toggles.renderCardBody st doc = Ok [] <-> blank)
  /\ (AppJs.renderCardBody st doc = Ok [] <-> blank).
Proof.
  split; apply renderCardBody_with_empty_iff.
Qed.

(* ================================================================== *)
(** * More on a search                                                  *)
(* ================================================================== *)

Lemma blank_trim (s : jsstring) : forallb is_white s = true -> trim s = [].
Proof. apply trim_nil_iff. Qed.

(** X13.  A search on a blank input (empty or white space only) does
    nothing at all, in both files: the page is left as it is. *)
Theorem runSearch_blank_input (input : jsstring) (data : response)
    (st : page) :
  forallb is_white input = true ->
  Toggles.runSearch input data st = (Ok tt, st)
  /\ AppJs.runSearch input data st = (Ok tt, st).
Proof.
  intros H. apply blank_trim in H.
  unfold Toggles.runSearch, Toggles.runSearch_begin,
         AppJs.runSearch, AppJs.runSearch_begin.
  rewrite H. split; reflexivity.
Qed.

Lemma runSearch_blank_input_witness :
  forallb is_white (lit "  ") = true
  /\ Toggles.runSearch (lit "  ") (Response VNull []) initial_page
     = (Ok tt, initial_page)
  /\ AppJs.runSearch (lit "  ") (Response VNull []) initial_page
     = (Ok tt, initial_page).
Proof.
  assert (H : forallb is_white (lit "  ") = true) by reflexivity.
  split; [exact H|].
  exact (runSearch_blank_input (lit "  ") (Response VNull []) initial_page H).
Defined.

(** The cards depend on the page through the two token lists only. *)
Lemma render_cards_ext (hl hl' : page -> list jsstring) (st st' : page)
    (docs : list document) :
  hl st = hl' st' -> _queryTokens st = _queryTokens st' ->
  forall i,
    render_cards (renderCardHeader_with hl) (renderCardBody_with hl)
                 st i docs
    = render_cards (renderCardHeader_with hl') (renderCardBody_with hl')
                   st' i docs.
Proof.
  intros Hh Hq. induction docs as [|doc docs IH]; intros i; [reflexivity|].
  cbn [render_cards].
  assert (H1 : renderCardHeader_with hl st doc (i + 1)
               = renderCardHeader_with hl' st' doc (i + 1)).
  { unfold renderCardHeader_with. rewrite Hh. reflexivity. }
  assert (H2 : renderCardBody_with hl st doc
               = renderCardBody_with hl' st' doc).
  { unfold renderCardBody_with, buildKeywords, isMatch.
    rewrite Hh, Hq. reflexivity. }
  rewrite H1, H2, IH. reflexivity.
Qed.

Lemma set_expandedOnlyTokens_twice (a b : list jsstring) (st : page) :
  set_expandedOnlyTokens a (set_expandedOnlyTokens b st)
  = set_expandedOnlyTokens a st.
Proof. reflexivity. Qed.

(** A whole search of [src/unnamed/part_000] on an input that is not
    blank, step by step. *)
Lemma Toggles_runSearch_run (input : jsstring) (data : response)
    (st : page) (E : list jsstring) :
  trim input <> [] ->
  Toggles.tokenise (expanded_query data) = Ok E ->
  let toks := spec_tokenize (trim input) in
  let st1 := searching toks st in
  let st2 :=
    if truthy (expanded_query data)
       && existsb (fun t => negb (Set_has (Set_new toks) t)) (Set_new E)
    then set_expandedBox_visible true
           (set_expandedTerms_innerHTML
              (join [] (map (exp_term (Set_new toks)) E)) st1)
    else set_expandedBox_visible false st1 in
  let st3 := set_expandedOnlyTokens E st2 in
  Toggles.runSearch input data st =
  if (length (results data) =? 0)%nat
  then (Ok tt, set_resultsContainer NoResults st3)
  else
    match render_cards Toggles.renderCardHeader Toggles.renderCardBody
                       st3 0 (results data) with
    | Ok cs => (Ok tt, set_resultsContainer (Cards cs) st3)
    | Throw e => (Ok tt, set_resultsContainer (ErrorBox e) st3)
    | Unmodelled => (Unmodelled, st3)
    end.
Proof.
  intros Hin HE. cbv zeta.
  unfold Toggles.runSearch, Toggles.runSearch_begin.
  assert (Ht : truthy_str (trim input) = true)
    by (destruct (trim input); [contradiction|reflexivity]).
  rewrite Ht. cbn [negb]. rewrite Toggles_tokenise_string.
  unfold mbind at 1 2 3 4 5. unfold lift at 1, modify at 1 2 3, ret.
  unfold Toggles.runSearch_response, try_catch.
  unfold mbind at 1.
  rewrite (Toggles_renderExpandedQuery_run _ _ (spec_tokenize (trim input)) E
             _ (Toggles_tokenise_string _) HE).
  unfold mbind, modify, lift, gets, ret. rewrite HE.
  fold (searching (spec_tokenize (trim input)) st).
  destruct (truthy (expanded_query data)) eqn:T.
  - destruct (existsb _ (Set_new E));
      destruct (length (results data) =? 0)%nat; cbn [andb];
      rewrite ?set_expandedOnlyTokens_twice;
      try reflexivity;
      match goal with
      | |- context [render_cards ?h ?b ?s 0 (results data)] =>
        destruct (render_cards h b s 0 (results data)); reflexivity
      end.
  - rewrite (Toggles_tokenise_falsy _ T) in HE. injection HE as <-.
    destruct (length (results data) =? 0)%nat; cbn [andb];
      rewrite ?set_expandedOnlyTokens_twice;
      try reflexivity;
      match goal with
      | |- context [render_cards ?h ?b ?s 0 (results data)] =>
        destruct (render_cards h b s 0 (results data)); reflexivity
      end.
Qed.

(** X14.  In [src/unnamed/part_000] no value of [expanded_query] makes
    the expansion step fail: [renderExpandedQuery] returns on every
    value, and a search that is answered with an empty result list ends
    with the no-results box, not with the error box, whatever the
    response holds as [expanded_query]. *)
Theorem Toggles_expansion_never_throws (input original : jsstring)
    (e : value) (st : page) :
  truthy_str (trim input) = true ->
  fst (Toggles.renderExpandedQuery original e st) = Ok tt
  /\ fst (Toggles.runSearch input (Response e []) st) = Ok tt
  /\ resultsContainer (snd (Toggles.runSearch input (Response e []) st))
     = NoResults.
Proof.
  intros Hin.
  destruct (Toggles_tokenise_total e) as [E HE].
  split.
  - rewrite (Toggles_renderExpandedQuery_run original e
               (spec_tokenize original) E st
               (Toggles_tokenise_string original) HE).
    reflexivity.
  - assert (Hne : trim input <> [])
      by (intros T; rewrite T in Hin; discriminate).
    rewrite (Toggles_runSearch_run input (Response e []) st E Hne HE).
    split; reflexivity.
Qed.

Lemma Toggles_expansion_never_throws_witness :
  truthy_str (trim (lit "net")) = true
  /\ fst (Toggles.renderExpandedQuery (lit "net")
            (VArray [VString (lit "deep"); VNull]) initial_page) = Ok tt
  /\ fst (Toggles.runSearch (lit "net")
            (Response (VArray [VString (lit "deep"); VNull]) [])
            initial_page) = Ok tt
  /\ resultsContainer
       (snd (Toggles.runSearch (lit "net")
               (Response (VArray [VString (lit "deep"); VNull]) [])
               initial_page))
     = NoResults.
Proof.
  assert (H : truthy_str (trim (lit "net")) = true) by reflexivity.
  split; [exact H|].
  exact (Toggles_expansion_never_throws (lit "net") (lit "net")
           (VArray [VString (lit "deep"); VNull]) initial_page H).
Defined.

(** The token lists and the cards after a search of
    [src/unnamed/part_000]. *)
Lemma Toggles_runSearch_state (input : jsstring) (data : response)
    (st : page) (E : list jsstring) :
  trim input <> [] ->
  Toggles.tokenise (expanded_query data) = Ok E ->
  let st' := snd (Toggles.runSearch input data st) in
  _queryTokens st' = spec_tokenize (trim input)
  /\ _expandedOnlyTokens st' = E
  /\ forall cs, resultsContainer st' = Cards cs ->
       render_cards Toggles.renderCardHeader Toggles.renderCardBody
                    st' 0 (results data) = Ok cs.
Proof.
  intros Hin HE st'. unfold st'.
  rewrite (Toggles_runSearch_run input data st E Hin HE).
  assert (Hq : forall b x,
    _queryTokens (if b : bool
                  then set_expandedBox_visible true
                         (set_expandedTerms_innerHTML x
                            (searching (spec_tokenize (trim input)) st))
                  else set_expandedBox_visible false
                         (searching (spec_tokenize (trim input)) st))
    = spec_tokenize (trim input)) by (intros [] x; reflexivity).
  destruct (length (results data) =? 0)%nat.
  - cbn [snd]. split; [apply Hq|]. split; [reflexivity|discriminate].
  - match goal with
    | |- context [render_cards ?h ?b ?s 0 (results data)] =>
      destruct (render_cards h b s 0 (results data)) as [cs | e' |] eqn:R
    end; cbn [snd]; (split; [apply Hq|]); (split; [reflexivity|]);
      try discriminate.
    + intros cs' H. injection H as <-. rewrite <- R.
      apply render_cards_ext; reflexivity.
    + cbn. destruct (truthy (expanded_query data)
                     && existsb _ (Set_new E)); discriminate.
Qed.

Lemma truthy_str_trim (input : jsstring) :
  truthy_str (trim input) = true -> trim input <> [].
Proof. destruct (trim input); [discriminate|discriminate]. Qed.

(** X15.  In [src/unnamed/part_000] the tokens that drive the
    highlighting of titles and abstracts are, after a search, the tokens
    of the expanded query alone: when the response holds no expanded
    query they are none, and the cards shown were rendered with no
    highlight token -- without a marker for the terms of the query
    itself. *)
Theorem Toggles_highlight_tokens (input : jsstring) (data : response)
    (st : page) :
  truthy_str (trim input) = true ->
  let st' := snd (Toggles.runSearch input data st) in
  (exists E, Toggles.tokenise (expanded_query data) = Ok E
             /\ _expandedOnlyTokens st' = E)
  /\ (truthy (expanded_query data) = false ->
      _expandedOnlyTokens st' = []
      /\ forall cs, resultsContainer st' = Cards cs ->
           render_cards (renderCardHeader_with (fun _ => []))
                        (renderCardBody_with (fun _ => []))
                        st' 0 (results data) = Ok cs).
Proof.
  intros Hin st'. apply truthy_str_trim in Hin.
  destruct (Toggles_tokenise_total (expanded_query data)) as [E HE].
  destruct (Toggles_runSearch_state input data st E Hin HE)
    as (_ & Htok & Hcards).
  fold st' in Htok, Hcards.
  split; [exists E; split; [exact HE|exact Htok]|].
  intros T. rewrite (Toggles_tokenise_falsy _ T) in HE. injection HE as <-.
  split; [exact Htok|]. intros cs Hcs. rewrite <- (Hcards cs Hcs).
  apply render_cards_ext; [symmetry; exact Htok|reflexivity].
Qed.

Lemma Toggles_highlight_tokens_witness :
  truthy_str (trim (lit "net")) = true
  /\ _expandedOnlyTokens
       (snd (Toggles.runSearch (lit "net") two_results initial_page)) = []
  /\ render_cards (renderCardHeader_with (fun _ => []))
                  (renderCardBody_with (fun _ => []))
                  (snd (Toggles.runSearch (lit "net") two_results
                          initial_page))
                  0 (results two_results)
     = Ok (cards_of (snd (Toggles.runSearch (lit "net") two_results
                            initial_page))).
Proof.
  assert (H : truthy_str (trim (lit "net")) = true) by reflexivity.
  pose proof (Toggles_highlight_tokens (lit "net") two_results
                initial_page H) as P.
  cbv zeta in P. destruct P as [_ P]. destruct (P eq_refl) as [P1 P2].
  split; [exact H|]. split; [exact P1|].
  apply P2. vm_compute. reflexivity.
Defined.

(* ================================================================== *)
(** * A search of [src/UI/app.js]                                       *)
(* ================================================================== *)

Lemma AppJs_tokenise_words2 (s : jsstring) :
  AppJs.tokenise (VString s) = Ok (words2 s).
Proof. apply AppJs_tokenise_string. Qed.

Lemma AppJs_tokenise_not_string (v : value) :
  is_string v = false -> AppJs.tokenise v = Throw TypeError.
Proof. destruct v; try discriminate; reflexivity. Qed.

Lemma AppJs_renderExpandedQuery_string (q s : jsstring) (st : page) :
  AppJs.renderExpandedQuery q (VString s) st =
  (Ok tt,
   if truthy_str s && negb (str_eqb s q)
   then set_expandedBox_visible true
          (set_expandedTerms_innerHTML
             (join [] (map (exp_term (Set_new (words2 q))) (words2 s))) st)
   else set_expandedBox_visible false st).
Proof.
  unfold AppJs.renderExpandedQuery. cbn [truthy strict_eq_str].
  destruct (truthy_str s); cbn [negb orb andb]; [|reflexivity].
  destruct (str_eqb s q); cbn [negb]; [reflexivity|].
  unfold mbind, lift. rewrite !AppJs_tokenise_words2. reflexivity.
Qed.

Lemma AppJs_renderExpandedQuery_other (q : jsstring) (e : value)
    (st : page) :
  is_string e = false ->
  AppJs.renderExpandedQuery q e st =
  if truthy e then (Throw TypeError, st)
  else (Ok tt, set_expandedBox_visible false st).
Proof.
  intros H. unfold AppJs.renderExpandedQuery.
  assert (Hs : strict_eq_str e q = false)
    by (destruct e; try discriminate H; reflexivity).
  rewrite Hs, orb_false_r.
  destruct (truthy e); cbn [negb]; [|reflexivity].
  unfold mbind, lift. rewrite AppJs_tokenise_words2.
  rewrite (AppJs_tokenise_not_string e H). reflexivity.
Qed.

(** X16.  In [src/UI/app.js] a response whose [expanded_query] is truthy
    but not a string (a list, a number, an object) makes the search end
    in the error box with a TypeError: the query tokens stay those of
    the query, the expansion box stays hidden and no card is rendered. *)
Theorem AppJs_runSearch_bad_expansion (input : jsstring) (data : response)
    (st : page) :
  truthy_str (trim input) = true ->
  is_string (expanded_query data) = false ->
  truthy (expanded_query data) = true ->
  AppJs.runSearch input data st
  = (Ok tt,
     set_resultsContainer (ErrorBox TypeError)
       (searching (words2 (trim input)) st)).
Proof.
  intros Hin Hs Ht.
  unfold AppJs.runSearch, AppJs.runSearch_begin.
  rewrite Hin. cbn [negb]. rewrite AppJs_tokenise_words2.
  unfold mbind at 1 2 3 4 5. unfold lift at 1, modify at 1 2 3, ret.
  unfold AppJs.runSearch_response, try_catch.
  unfold mbind at 1.
  rewrite (AppJs_renderExpandedQuery_other _ _ _ Hs), Ht.
  reflexivity.
Qed.

Lemma AppJs_runSearch_bad_expansion_witness :
  truthy_str (trim (lit "net")) = true
  /\ is_string (VArray [VString (lit "net")]) = false
  /\ truthy (VArray [VString (lit "net")]) = true
  /\ AppJs.runSearch (lit "net")
       (Response (VArray [VString (lit "net")]) []) initial_page
     = (Ok tt,
        set_resultsContainer (ErrorBox TypeError)
          (searching (words2 (trim (lit "net"))) initial_page)).
Proof.
  assert (H1 : truthy_str (trim (lit "net")) = true) by reflexivity.
  assert (H2 : is_string (expanded_query
                 (Response (VArray [VString (lit "net")]) [])) = false)
    by reflexivity.
  assert (H3 : truthy (expanded_query
                 (Response (VArray [VString (lit "net")]) [])) = true)
    by reflexivity.
  split; [exact H1|]. split; [exact H2|]. split; [exact H3|].
  exact (AppJs_runSearch_bad_expansion (lit "net")
           (Response (VArray [VString (lit "net")]) []) initial_page
           H1 H2 H3).
Defined.

(** The token lists after a search of [src/UI/app.js]. *)
Lemma AppJs_runSearch_tokens (input : jsstring) (data : response)
    (st : page) :
  truthy_str (trim input) = true ->
  let st' := snd (AppJs.runSearch input data st) in
  _queryTokens st'
  = match expanded_query data with
    | VString s => if truthy_str s then words2 s else words2 (trim input)
    | _ => words2 (trim input)
    end
  /\ _expandedOnlyTokens st' = _expandedOnlyTokens st.
Proof.
  intros Hin. cbv zeta.
  remember (snd (AppJs.runSearch input data st)) as st' eqn:R.
  unfold AppJs.runSearch, AppJs.runSearch_begin in R.
  rewrite Hin in R. cbn [negb] in R. rewrite AppJs_tokenise_words2 in R.
  unfold mbind at 1 2 3 4 5 in R.
  unfold lift at 1, modify at 1 2 3, ret in R.
  unfold AppJs.runSearch_response, try_catch in R. unfold mbind at 1 in R.
  destruct (expanded_query data) as [| | b | x | s | l |] eqn:Ee;
    try (rewrite AppJs_renderExpandedQuery_other in R by reflexivity);
    try rewrite AppJs_renderExpandedQuery_string in R;
    unfold mbind, modify, lift, gets, ret in R;
    try rewrite AppJs_tokenise_words2 in R;
    cbn [truthy] in R;
    repeat match type of R with
           | context [if ?c then _ else _] => destruct c
           | context [render_cards ?h ?b ?s 0 (results data)] =>
             destruct (render_cards h b s 0 (results data))
           | context [match ?x with S754_zero _ => _ | _ => _ end] =>
             destruct x
           end;
    subst st'; split; reflexivity.
Qed.

(** X17.  In [src/UI/app.js] the tokens that drive both the highlighting
    and the keyword flags are, after a search, the tokens of the expanded
    query when the response holds a non-empty one, and the tokens of the
    query only when it holds none. *)
Theorem AppJs_queryTokens_follow_expansion (input : jsstring)
    (data : response) (st : page) (s : jsstring) :
  truthy_str (trim input) = true ->
  let st' := snd (AppJs.runSearch input data st) in
  (expanded_query data = VString s -> truthy_str s = true ->
   AppJs.tokenise (VString s) = Ok (_queryTokens st'))
  /\ (truthy (expanded_query data) = false ->
      AppJs.tokenise (VString (trim input)) = Ok (_queryTokens st')).
Proof.
  intros Hin st'.
  destruct (AppJs_runSearch_tokens input data st Hin) as [Hq _].
  fold st' in Hq. rewrite Hq. split.
  - intros -> Hs. rewrite Hs. apply AppJs_tokenise_words2.
  - intros Hf. rewrite AppJs_tokenise_words2. f_equal.
    destruct (expanded_query data) as [| | b | x | s' | l |];
      try reflexivity; try discriminate Hf.
    cbn [truthy] in Hf. rewrite Hf. reflexivity.
Qed.

Lemma AppJs_queryTokens_follow_expansion_witness :
  truthy_str (trim (lit "net")) = true
  /\ AppJs.tokenise (VString (lit "net deep"))
     = Ok (_queryTokens
             (snd (AppJs.runSearch (lit "net")
                     (Response (VString (lit "net deep")) [])
                     initial_page)))
  /\ AppJs.tokenise (VString (trim (lit "net")))
     = Ok (_queryTokens
             (snd (AppJs.runSearch (lit "net") two_results initial_page))).
Proof.
  assert (H : truthy_str (trim (lit "net")) = true) by reflexivity.
  pose proof (AppJs_queryTokens_follow_expansion (lit "net")
                (Response (VString (lit "net deep")) []) initial_page
                (lit "net deep") H) as P.
  pose proof (AppJs_queryTokens_follow_expansion (lit "net")
                two_results initial_page [] H) as Q.
  cbv zeta in P, Q. destruct P as [P _]. destruct Q as [_ Q].
  split; [exact H|].
  split; [exact (P eq_refl eq_refl)|exact (Q eq_refl)].
Defined.

Lemma words2_long (s : jsstring) :
  Forall (fun t => 2 <= length t) (words2 s).
Proof.
  apply Forall_forall. intros t Ht. apply filter_In in Ht.
  apply Nat.leb_le, Ht.
Qed.

Lemma filter_tokens_long (l : list value) :
  Forall (fun t => 2 <= length t) (Toggles.filter_tokens l).
Proof.
  induction l as [|v l IH]; [constructor|].
  destruct v; cbn [Toggles.filter_tokens]; try exact IH.
  destruct (long_enough s) eqn:L; [|exact IH].
  constructor; [apply Nat.leb_le, L|exact IH].
Qed.

(** Whatever value it is given, the tokeniser of [src/unnamed/part_000]
    returns no token shorter than 2. *)
Lemma Toggles_tokenise_long (v : value) (l : list jsstring) :
  Toggles.tokenise v = Ok l -> Forall (fun t => 2 <= length t) l.
Proof.
  unfold Toggles.tokenise.
  destruct (negb (truthy v)); [intros H; injection H as <-; constructor|].
  destruct v; cbn [isArray is_string Toggles.call_filter_tokens call_split
                   bind]; intros H; injection H as <-;
    try constructor.
  - rewrite split_spaces, Set_new_dedup. apply spec_tokenize_long.
  - apply filter_tokens_long.
Qed.

(** X18.  No search introduces a token shorter than 2 code units: when
    the token lists of the page hold none before [runSearch], they hold
    none after it, in both files and for every response. *)
Theorem runSearch_keeps_tokens_long (input : jsstring) (data : response)
    (st : page) :
  tokens_long st ->
  tokens_long (snd (Toggles.runSearch input data st))
  /\ tokens_long (snd (AppJs.runSearch input data st)).
Proof.
  intros [Hq He].
  destruct (trim input) as [|c r] eqn:T.
  - unfold Toggles.runSearch, Toggles.runSearch_begin,
           AppJs.runSearch, AppJs.runSearch_begin.
    rewrite T. cbn. split; split; assumption.
  - assert (Hin : trim input <> []) by (rewrite T; discriminate).
    assert (Hin' : truthy_str (trim input) = true)
      by (rewrite T; reflexivity).
    split.
    + destruct (Toggles_tokenise_total (expanded_query data)) as [E HE].
      destruct (Toggles_runSearch_state input data st E Hin HE)
        as (H1 & H2 & _).
      split.
      * rewrite H1. apply spec_tokenize_long.
      * rewrite H2. apply (Toggles_tokenise_long _ _ HE).
    + destruct (AppJs_runSearch_tokens input data st Hin') as [H1 H2].
      split.
      * rewrite H1.
        destruct (expanded_query data); try apply words2_long.
        destruct (truthy_str s); apply words2_long.
      * rewrite H2. exact He.
Qed.

Lemma runSearch_keeps_tokens_long_witness :
  tokens_long initial_page
  /\ tokens_long (snd (Toggles.runSearch (lit "a net")
                         (Response (VString (lit "net b deep")) [])
                         initial_page))
  /\ tokens_long (snd (AppJs.runSearch (lit "a net")
                         (Response (VString (lit "net b deep")) [])
                         initial_page)).
Proof.
  assert (H : tokens_long initial_page)
    by (split; apply Forall_nil).
  split; [exact H|].
  exact (runSearch_keeps_tokens_long (lit "a net")
           (Response (VString (lit "net b deep")) []) initial_page H).
Defined.

(* ================================================================== *)
(** * The search field                                                  *)
(* ================================================================== *)

Lemma substring_refl (s : jsstring) : substring s s.
Proof. exists [], []. rewrite app_nil_r. reflexivity. Qed.

Lemma substring_trans (a b c : jsstring) :
  substring a b -> substring b c -> substring a c.
Proof.
  intros (p1 & q1 & ->) (p2 & q2 & ->).
  exists (p2 ++ p1), (q1 ++ q2). rewrite <- !app_assoc. reflexivity.
Qed.

Lemma head_ok_app (a b : jsstring) : a <> [] -> head_ok a -> head_ok (a ++ b).
Proof. destruct a as [|c a]; [congruence|]. intros _ H. exact H. Qed.

Lemma trim_fixed (s : jsstring) :
  head_ok s -> head_ok (rev s) -> trim s = s.
Proof.
  intros H1 H2. unfold trim. rewrite (trim_start_fixed _ H1).
  unfold trim_end. rewrite (trim_start_fixed _ H2). apply rev_involutive.
Qed.

Lemma trim_head_ok (s : jsstring) : head_ok (trim s) /\ head_ok (rev (trim s)).
Proof.
  split.
  - apply trim_end_head_ok, trim_start_head_ok.
  - unfold trim, trim_end. rewrite rev_involutive. apply trim_start_head_ok.
Qed.

Lemma rev_not_nil (s : jsstring) : s <> [] -> rev s <> [].
Proof.
  intros H E. apply H. rewrite <- (rev_involutive s), E. reflexivity.
Qed.

Lemma trim_space_join (a b : jsstring) :
  a <> [] -> b <> [] -> trim a = a -> trim b = b ->
  trim (a ++ lit " " ++ b) = a ++ lit " " ++ b.
Proof.
  intros Ha Hb Ta Tb.
  destruct (trim_head_ok a) as [A1 _]. rewrite Ta in A1.
  destruct (trim_head_ok b) as [_ B2]. rewrite Tb in B2.
  apply trim_fixed.
  - apply head_ok_app; assumption.
  - rewrite !rev_app_distr, <- app_assoc.
    apply head_ok_app; [apply rev_not_nil, Hb|exact B2].
Qed.

Lemma words2_trim (s : jsstring) : words2 (trim s) = words2 s.
Proof. apply long_tokens_trim. Qed.

Lemma words2_space_join (a b : jsstring) :
  words2 (a ++ lit " " ++ b) = words2 a ++ words2 b.
Proof.
  unfold words2, whitespace_split.
  change (a ++ lit " " ++ b) with (a ++ ch " " :: b).
  apply long_tokens_space_join. discriminate.
Qed.

(** X19.  After [addFilter(text)] the search field contains [text],
    whatever it held before. *)
Theorem addFilter_includes (text value : jsstring) :
  includes (addFilter text value) text = true.
Proof.
  apply includes_iff. unfold addFilter.
  destruct (includes (trim value) text) eqn:I; cbn [negb].
  - apply includes_iff in I.
    exact (substring_trans _ _ _ I (trim_substring value)).
  - destruct (trim value) as [|c r]; cbn [truthy_str].
    + apply substring_refl.
    + exists ((c :: r) ++ lit " "), []. rewrite app_nil_r, <- app_assoc.
      reflexivity.
Qed.

(** X20.  [addFilter] drops no search term: the tokens of the new value
    of the field are those of the old value, followed by the tokens of
    [text] when [text] was added.  This is the list [tokenise] of
    [src/UI/app.js] returns; that of [src/unnamed/part_000] returns its
    first occurrences. *)
Theorem addFilter_keeps_tokens (text value : jsstring) :
  let added :=
    if includes (trim value) text then [] else words2 text in
  AppJs.tokenise (VString (addFilter text value))
  = Ok (words2 value ++ added)
  /\ Toggles.tokenise (VString (addFilter text value))
     = Ok (dedup_first (words2 value ++ added)).
Proof.
  cbv zeta. rewrite AppJs_tokenise_words2, Toggles_tokenise_string.
  rewrite spec_tokenize_eq. fold (words2 (addFilter text value)).
  assert (E : words2 (addFilter text value)
              = words2 value
                ++ (if includes (trim value) text then [] else words2 text)).
  { unfold addFilter.
    destruct (includes (trim value) text) eqn:I; cbn [negb].
    - rewrite app_nil_r. reflexivity.
    - rewrite <- (words2_trim value).
      destruct (trim value) as [|c r] eqn:T; cbn [truthy_str].
      + reflexivity.
      + apply words2_space_join. }
  rewrite E. split; reflexivity.
Qed.

(** X21.  For a [text] without white space around it a second
    [addFilter(text)] changes nothing. *)
Theorem addFilter_idempotent (text value : jsstring) :
  trim text = text ->
  addFilter text (addFilter text value) = addFilter text value.
Proof.
  intros Tt.
  assert (H : includes (trim (addFilter text value)) text = true).
  { unfold addFilter.
    destruct (includes (trim value) text) eqn:I; cbn [negb]; [exact I|].
    destruct (trim value) as [|c r] eqn:T; cbn [truthy_str].
    - rewrite Tt. apply includes_iff, substring_refl.
    - assert (Hx : text <> []).
      { intros ->. destruct r; discriminate I. }
      rewrite trim_space_join; try assumption; try discriminate.
      + apply includes_iff. exists ((c :: r) ++ lit " "), [].
        rewrite app_nil_r, <- app_assoc. reflexivity.
      + rewrite <- T. apply trim_idempotent. }
  unfold addFilter at 1. rewrite H. reflexivity.
Qed.

Lemma addFilter_idempotent_witness :
  trim (lit "year:1400") = lit "year:1400"
  /\ addFilter (lit "year:1400")
       (addFilter (lit "year:1400") (lit " deep net "))
     = addFilter (lit "year:1400") (lit " deep net ").
Proof.
  assert (H : trim (lit "year:1400") = lit "year:1400") by reflexivity.
  split; [exact H|].
  exact (addFilter_idempotent (lit "year:1400") (lit " deep net ") H).
Defined.

(* ================================================================== *)
(** * Text that needs no escaping                                       *)
(* ================================================================== *)

Lemma entity_length (c : char) : 1 <= length (entity c).
Proof.
  destruct (entity_cases c)
    as [[_ ->] | [[_ ->] | [[_ ->] | [[_ ->] | [_ ->]]]]]; cbn; lia.
Qed.

Lemma entity_special_length (c : char) :
  html_special c = true -> 2 <= length (entity c).
Proof.
  intros H.
  destruct (entity_cases c)
    as [[_ ->] | [[_ ->] | [[_ ->] | [[_ ->] | [E _]]]]];
    [cbn; lia ..|congruence].
Qed.

Lemma flat_map_entity_length (s : jsstring) :
  length s <= length (flat_map entity s).
Proof.
  induction s as [|c s IH]; [apply le_n|].
  cbn [flat_map length]. rewrite length_app.
  pose proof (entity_length c). lia.
Qed.

Lemma escHtml_plain (s : jsstring) :
  Forall (fun c => html_special c = false) s -> escHtml s = s.
Proof.
  rewrite escHtml_flat_map. induction 1 as [|c s Hc _ IH]; [reflexivity|].
  cbn [flat_map]. rewrite IH.
  destruct (entity_cases c)
    as [[-> _] | [[-> _] | [[-> _] | [[-> _] | [_ ->]]]]];
    try discriminate Hc.
  reflexivity.
Qed.

(** X22.  [escHtml] returns its argument unchanged exactly when the
    argument holds none of [&], [<], [>] and the double quote. *)
Theorem escHtml_fixed_iff (s : jsstring) :
  escHtml s = s <-> Forall (fun c => html_special c = false) s.
Proof.
  split; [|apply escHtml_plain].
  rewrite escHtml_flat_map. induction s as [|c s IH]; [constructor|].
  cbn [flat_map]. intros H.
  destruct (html_special c) eqn:Hc.
  - exfalso. apply (f_equal (@length char)) in H.
    rewrite length_app in H. cbn [length] in H.
    pose proof (entity_special_length c Hc).
    pose proof (flat_map_entity_length s). lia.
  - destruct (entity_cases c)
      as [[-> _] | [[-> _] | [[-> _] | [[-> _] | [_ E]]]]];
      try discriminate Hc.
    rewrite E in H. injection H as H.
    constructor; [exact Hc|exact (IH H)].
Qed.

Lemma digit_plain (d : N) : (d <= 9)%N -> html_special (digit_code d) = false.
Proof.
  intros H. unfold html_special, digit_code.
  rewrite !orb_false_iff. repeat split; apply N.eqb_neq;
    [change (ch "&") with 38%N | change (ch "<") with 60%N
    | change (ch ">") with 62%N | unfold dquote]; lia.
Qed.

Lemma uint_codes_plain (u : Decimal.uint) :
  Forall (fun c => html_special c = false) (uint_codes u).
Proof.
  induction u; cbn [uint_codes]; constructor;
    try assumption; apply digit_plain; lia.
Qed.

Lemma fixed_digits_plain (f : nat) (n : Z) :
  Forall (fun c => html_special c = false) (fixed_digits f n).
Proof.
  unfold fixed_digits, decimal. destruct f as [|f]; [apply uint_codes_plain|].
  cbv zeta.
  set (d := uint_codes (N.to_uint (Z.to_N n))).
  set (m := repeat (digit_code 0) (S (S f) - length d) ++ d).
  assert (Hm : Forall (fun c => html_special c = false) m).
  { apply Forall_app. split; [|apply uint_codes_plain].
    apply Forall_forall. intros c Hc. apply repeat_spec in Hc. subst c.
    apply digit_plain. lia. }
  rewrite <- (firstn_skipn (length m - S f) m) in Hm.
  apply Forall_app in Hm. destruct Hm as [H1 H2].
  apply Forall_app. split; [exact H1|].
  apply Forall_app. split; [|exact H2].
  repeat constructor.
Qed.

(** X23.  The score that [renderCardHeader] puts into the card without
    escaping needs none: whatever the score of the document, also not a
    number or infinite, the text [toFixed] returns for it holds none of
    the characters [escHtml] rewrites. *)
Theorem score_text_needs_no_escape (doc : document) (t : jsstring) :
  score_text doc = Ok t -> escHtml t = t /\ t <> [].
Proof.
  unfold score_text, toFixed. intros H.
  assert (Hd : forall n, fixed_digits 1 n <> []).
  { intros n E. apply (f_equal (@length char)) in E.
    unfold fixed_digits in E. rewrite !length_app in E.
    cbn [length lit] in E. cbn in E. lia. }
  destruct (mul (score doc) hundred) as [s | s | | s m e].
  - assert (E : t = fixed_digits 1 0) by congruence. subst t.
    split; [|apply Hd]. apply escHtml_plain, fixed_digits_plain.
  - assert (E : t = (if s then lit "-" else []) ++ lit "Infinity")
      by congruence.
    subst t. destruct s; split; try discriminate;
      apply escHtml_plain; repeat constructor.
  - assert (E : t = lit "NaN") by congruence. subst t.
    split; [|discriminate]. apply escHtml_plain; repeat constructor.
  - destruct (at_least_1e21 m e); [discriminate H|].
    assert (E : t = (if s then lit "-" else [])
                    ++ fixed_digits 1 (round_scaled 1 m e)) by congruence.
    subst t. split.
    + apply escHtml_plain, Forall_app. split; [|apply fixed_digits_plain].
      destruct s; repeat constructor.
    + destruct s; [discriminate|apply Hd].
Qed.

Lemma score_text_needs_no_escape_witness :
  score_text (doc_with_score score_08734) = Ok (lit "87.3")
  /\ escHtml (lit "87.3") = lit "87.3" /\ lit "87.3" <> [].
Proof.
  assert (H : score_text (doc_with_score score_08734) = Ok (lit "87.3"))
    by (vm_compute; reflexivity).
  split; [exact H|].
  exact (score_text_needs_no_escape (doc_with_score score_08734)
           (lit "87.3") H).
Defined.

(* ================================================================== *)
(** * The chips of the expansion box                                    *)
(* ================================================================== *)

Lemma join_In (l : list jsstring) (x : jsstring) :
  In x l -> substring x (join [] l).
Proof.
  induction l as [|y l IH]; [intros []|].
  intros [-> | H].
  - destruct l as [|z l]; [apply substring_refl|].
    exists [], (join [] (z :: l)). reflexivity.
  - destruct l as [|z l]; [destruct H|].
    change (join [] (y :: z :: l)) with (y ++ join [] (z :: l)).
    apply substring_app_l, IH, H.
Qed.

Lemma exp_term_added (O : list jsstring) (t : jsstring) :
  ~ In t O -> exp_term (Set_new O) t = exp_term [] t.
Proof.
  intros H. unfold exp_term.
  assert (E : Set_has (Set_new O) t = false).
  { destruct (Set_has (Set_new O) t) eqn:S; [|reflexivity].
    exfalso. apply H. apply Set_has_iff in S.
    rewrite Set_new_dedup in S. apply dedup_first_In, S. }
  rewrite E. reflexivity.
Qed.

(** X24.  In [src/unnamed/part_000] the expansion box is never shown
    without a new term: whenever [renderExpandedQuery] leaves the box
    visible, the chips hold the chip of class [added] of a term that is
    not a token of the original query. *)
Theorem Toggles_expansion_box_has_added_chip (original : jsstring)
    (expanded : value) (st : page) :
  expandedBox_visible
    (snd (Toggles.renderExpandedQuery original expanded st)) = true ->
  exists t,
    ~ In t (spec_tokenize original)
    /\ substring (exp_term [] t)
         (expandedTerms_innerHTML
            (snd (Toggles.renderExpandedQuery original expanded st))).
Proof.
  destruct (Toggles_tokenise_total expanded) as [E HE].
  rewrite (Toggles_renderExpandedQuery_run original expanded
             (spec_tokenize original) E st
             (Toggles_tokenise_string original) HE).
  destruct (truthy expanded); cbn [andb snd]; [|discriminate].
  destruct (existsb _ (Set_new E)) eqn:X; [|discriminate].
  intros _. apply existsb_exists in X. destruct X as [t [Ht Hn]].
  rewrite Set_new_dedup, dedup_first_In in Ht.
  assert (Hnot : ~ In t (spec_tokenize original)).
  { intros Hin. apply negb_true_iff in Hn.
    assert (Hs : Set_has (Set_new (spec_tokenize original)) t = true).
    { apply Set_has_iff. rewrite Set_new_dedup. apply dedup_first_In, Hin. }
    congruence. }
  exists t. split; [exact Hnot|].
  cbn [expandedTerms_innerHTML set_expandedBox_visible
       set_expandedTerms_innerHTML].
  rewrite <- (exp_term_added _ _ Hnot).
  apply join_In, in_map, Ht.
Qed.

Lemma Toggles_expansion_box_has_added_chip_witness :
  expandedBox_visible
    (snd (Toggles.renderExpandedQuery (lit "net")
            (VString (lit "net deep")) initial_page)) = true
  /\ exists t,
       ~ In t (spec_tokenize (lit "net"))
       /\ substring (exp_term [] t)
            (expandedTerms_innerHTML
               (snd (Toggles.renderExpandedQuery (lit "net")
                       (VString (lit "net deep")) initial_page))).
Proof.
  assert (H : expandedBox_visible
                (snd (Toggles.renderExpandedQuery (lit "net")
                        (VString (lit "net deep")) initial_page)) = true)
    by (vm_compute; reflexivity).
  split; [exact H|].
  exact (Toggles_expansion_box_has_added_chip (lit "net")
           (VString (lit "net deep")) initial_page H).
Defined.

(** X25.  In [src/UI/app.js] the expansion box can be shown empty: an
    expanded string that differs from the query and holds no term of two
    or more code units makes [renderExpandedQuery] show the box with no
    chip in it. *)
Theorem AppJs_expansion_box_without_chip (original s : jsstring)
    (st : page) :
  s <> [] -> s <> original -> AppJs.tokenise (VString s) = Ok [] ->
  expandedBox_visible
    (snd (AppJs.renderExpandedQuery original (VString s) st)) = true
  /\ expandedTerms_innerHTML
       (snd (AppJs.renderExpandedQuery original (VString s) st)) = [].
Proof.
  intros Hs Hne Ht. rewrite AppJs_tokenise_words2 in Ht.
  assert (W : words2 s = []) by congruence.
  rewrite AppJs_renderExpandedQuery_string, W.
  assert (H1 : truthy_str s = true)
    by (destruct s; [contradiction|reflexivity]).
  assert (H2 : str_eqb s original = false).
  { destruct (str_eqb s original) eqn:E; [|reflexivity].
    apply str_eqb_eq in E. contradiction. }
  rewrite H1, H2. split; reflexivity.
Qed.

Lemma AppJs_expansion_box_without_chip_witness :
  lit "a" <> [] /\ lit "a" <> lit "net"
  /\ AppJs.tokenise (VString (lit "a")) = Ok []
  /\ expandedBox_visible
       (snd (AppJs.renderExpandedQuery (lit "net") (VString (lit "a"))
               initial_page)) = true
  /\ expandedTerms_innerHTML
       (snd (AppJs.renderExpandedQuery (lit "net") (VString (lit "a"))
               initial_page)) = [].
Proof.
  assert (H1 : lit "a" <> []) by discriminate.
  assert (H2 : lit "a" <> lit "net") by discriminate.
  assert (H3 : AppJs.tokenise (VString (lit "a")) = Ok [])
    by (vm_compute; reflexivity).
  split; [exact H1|]. split; [exact H2|]. split; [exact H3|].
  exact (AppJs_expansion_box_without_chip (lit "net") (lit "a")
           initial_page H1 H2 H3).
Defined.

(* ================================================================== *)
(** * The cards of a search                                             *)
(* ================================================================== *)

Section RenderCards.

Variable header : page -> document -> nat -> result jsstring.
Variable body : page -> document -> result jsstring.
Variable st : page.

(** [render_cards] is the [map] of the source: one card for each result,
    in order, the card at index [k] with rank [k + 1]. *)
Lemma render_cards_nth (docs : list document) :
  forall i cs,
    render_cards header body st i docs = Ok cs ->
    length cs = length docs
    /\ forall k doc, nth_error docs k = Some doc ->
         exists h b, nth_error cs k = Some (h, b)
                     /\ header st doc (i + k + 1) = Ok h
                     /\ body st doc = Ok b.
Proof.
  induction docs as [|d docs IH]; intros i cs H; cbn [render_cards] in H.
  - assert (E : cs = []) by congruence. subst cs.
    split; [reflexivity|]. intros [|k] doc Hk; discriminate Hk.
  - destruct (header st d (i + 1)) as [h | |] eqn:Hh; cbn [bind] in H;
      try discriminate H.
    destruct (body st d) as [b | |] eqn:Hb; cbn [bind] in H;
      try discriminate H.
    destruct (render_cards header body st (S i) docs) as [cs' | |] eqn:Hr;
      cbn [bind] in H; try discriminate H.
    assert (E : cs = (h, b) :: cs') by congruence. subst cs.
    destruct (IH (S i) cs' Hr) as [Hlen Hnth].
    split; [cbn [length]; rewrite Hlen; reflexivity|].
    intros [|k] doc Hk; cbn [nth_error] in Hk |- *.
    + assert (doc = d) by congruence. subst doc. exists h, b.
      rewrite Nat.add_0_r. repeat split; assumption.
    + destruct (Hnth k doc Hk) as (h' & b' & H1 & H2 & H3).
      exists h', b'. split; [exact H1|]. split; [|exact H3].
      rewrite <- H2. f_equal. lia.
Qed.

End RenderCards.

(** The cards after a search of [src/UI/app.js]. *)
Lemma AppJs_runSearch_cards (input : jsstring) (data : response)
    (st : page) :
  truthy_str (trim input) = true ->
  forall cs,
    resultsContainer (snd (AppJs.runSearch input data st)) = Cards cs ->
    render_cards AppJs.renderCardHeader AppJs.renderCardBody
                 (snd (AppJs.runSearch input data st)) 0 (results data)
    = Ok cs.
Proof.
  intros Hin cs.
  remember (snd (AppJs.runSearch input data st)) as st' eqn:R.
  unfold AppJs.runSearch, AppJs.runSearch_begin in R.
  rewrite Hin in R. cbn [negb] in R. rewrite AppJs_tokenise_words2 in R.
  unfold mbind at 1 2 3 4 5 in R.
  unfold lift at 1, modify at 1 2 3, ret in R.
  unfold AppJs.runSearch_response, try_catch in R. unfold mbind at 1 in R.
  destruct (expanded_query data) as [| | b | x | s | l |] eqn:Ee;
    try (rewrite AppJs_renderExpandedQuery_other in R by reflexivity);
    try rewrite AppJs_renderExpandedQuery_string in R;
    unfold mbind, modify, lift, gets, ret in R;
    try rewrite AppJs_tokenise_words2 in R;
    cbn [truthy] in R;
    repeat match type of R with
           | context [if ?c then _ else _] => destruct c
           | context [render_cards ?h ?b ?s 0 (results data)] =>
             let RC := fresh "RC" in
             destruct (render_cards h b s 0 (results data)) eqn:RC
           | context [match ?x with S754_zero _ => _ | _ => _ end] =>
             destruct x
           end;
    subst st'; cbn; intros Hcs; try discriminate Hcs;
    injection Hcs as <-;
    match goal with
    | RC : render_cards _ _ _ 0 (results data) = Ok _ |- _ =>
      rewrite <- RC
    end;
    apply render_cards_ext; reflexivity.
Qed.

(** X26.  In [src/unnamed/part_000], when a search ends with cards on the
    page there is one card for each result of the response, in the order
    of the results: the card at index [k] holds the header of rank
    [k + 1] and the body of the result at index [k], both rendered with
    the token lists the search has left on the page. *)
Theorem Toggles_cards_follow_results (input : jsstring) (data : response)
    (st : page) (cs : list (jsstring * jsstring)) :
  truthy_str (trim input) = true ->
  resultsContainer (snd (Toggles.runSearch input data st)) = Cards cs ->
  length cs = length (results data)
  /\ forall k doc, nth_error (results data) k = Some doc ->
       exists h b,
         nth_error cs k = Some (h, b)
         /\ Toggles.renderCardHeader
              (snd (Toggles.runSearch input data st)) doc (k + 1) = Ok h
         /\ Toggles.renderCardBody
              (snd (Toggles.runSearch input data st)) doc = Ok b.
Proof.
  intros Hin Hcs.
  assert (Hne : trim input <> [])
    by (intros E; rewrite E in Hin; discriminate).
  destruct (Toggles_tokenise_total (expanded_query data)) as [E HE].
  destruct (Toggles_runSearch_state input data st E Hne HE) as (_ & _ & H).
  exact (render_cards_nth _ _ _ _ 0 cs (H cs Hcs)).
Qed.

Lemma Toggles_cards_follow_results_witness :
  truthy_str (trim (lit "net")) = true
  /\ resultsContainer (snd (Toggles.runSearch (lit "net") two_results
                              initial_page))
     = Cards (cards_of (snd (Toggles.runSearch (lit "net") two_results
                               initial_page)))
  /\ length (cards_of (snd (Toggles.runSearch (lit "net") two_results
                              initial_page)))
     = length (results two_results)
  /\ forall k doc, nth_error (results two_results) k = Some doc ->
       exists h b,
         nth_error (cards_of (snd (Toggles.runSearch (lit "net") two_results
                                     initial_page))) k = Some (h, b)
         /\ Toggles.renderCardHeader
              (snd (Toggles.runSearch (lit "net") two_results initial_page))
              doc (k + 1) = Ok h
         /\ Toggles.renderCardBody
              (snd (Toggles.runSearch (lit "net") two_results initial_page))
              doc = Ok b.
Proof.
  assert (H1 : truthy_str (trim (lit "net")) = true) by reflexivity.
  assert (H2 : resultsContainer (snd (Toggles.runSearch (lit "net")
                                        two_results initial_page))
               = Cards (cards_of (snd (Toggles.runSearch (lit "net")
                                         two_results initial_page))))
    by (vm_compute; reflexivity).
  split; [exact H1|]. split; [exact H2|].
  exact (Toggles_cards_follow_results (lit "net") two_results initial_page
           _ H1 H2).
Defined.

(** X27.  The same in [src/UI/app.js]: when a search ends with cards on
    the page, the card at index [k] holds the header of rank [k + 1] and
    the body of the result at index [k], rendered with the query tokens
    the search has left on the page, and there are as many cards as
    results. *)
Theorem AppJs_cards_follow_results (input : jsstring) (data : response)
    (st : page) (cs : list (jsstring * jsstring)) :
  truthy_str (trim input) = true ->
  resultsContainer (snd (AppJs.runSearch input data st)) = Cards cs ->
  length cs = length (results data)
  /\ forall k doc, nth_error (results data) k = Some doc ->
       exists h b,
         nth_error cs k = Some (h, b)
         /\ AppJs.renderCardHeader
              (snd (AppJs.runSearch input data st)) doc (k + 1) = Ok h
         /\ AppJs.renderCardBody
              (snd (AppJs.runSearch input data st)) doc = Ok b.
Proof.
  intros Hin Hcs.
  exact (render_cards_nth _ _ _ _ 0 cs
           (AppJs_runSearch_cards input data st Hin cs Hcs)).
Qed.

Lemma AppJs_cards_follow_results_witness :
  truthy_str (trim (lit "net")) = true
  /\ resultsContainer (snd (AppJs.runSearch (lit "net") two_results
                              initial_page))
     = Cards (cards_of (snd (AppJs.runSearch (lit "net") two_results
                               initial_page)))
  /\ length (cards_of (snd (AppJs.runSearch (lit "net") two_results
                              initial_page)))
     = length (results two_results)
  /\ forall k doc, nth_error (results two_results) k = Some doc ->
       exists h b,
         nth_error (cards_of (snd (AppJs.runSearch (lit "net") two_results
                                     initial_page))) k = Some (h, b)
         /\ AppJs.renderCardHeader
              (snd (AppJs.runSearch (lit "net") two_results initial_page))
              doc (k + 1) = Ok h
         /\ AppJs.renderCardBody
              (snd (AppJs.runSearch (lit "net") two_results initial_page))
              doc = Ok b.
Proof.
  assert (H1 : truthy_str (trim (lit "net")) = true) by reflexivity.
  assert (H2 : resultsContainer (snd (AppJs.runSearch (lit "net")
                                        two_results initial_page))
               = Cards (cards_of (snd (AppJs.runSearch (lit "net")
                                         two_results initial_page))))
    by (vm_compute; reflexivity).
  split; [exact H1|]. split; [exact H2|].
  exact (AppJs_cards_follow_results (lit "net") two_results initial_page
           _ H1 H2).
Defined.

(* ================================================================== *)
(** * The flags of the keyword chips                                    *)
(* ================================================================== *)

Lemma isMatch_contained (st : page) (k : jsstring) :
  isMatch st k = true <-> contained (_queryTokens st) k.
Proof. apply isMatch_substring. Qed.

Lemma isMatch_tokens (st st' : page) (k : jsstring) :
  _queryTokens st = _queryTokens st' -> isMatch st k = isMatch st' k.
Proof. intros H. unfold isMatch. rewrite H. reflexivity. Qed.

Lemma flagged_chips_map (tokens : list jsstring) (f : jsstring -> bool)
    (kws : list jsstring) :
  (forall k, f k = true <-> contained tokens k) ->
  flagged_chips tokens kws (map (fun k => keyword_chip (f k) k) kws).
Proof.
  intros Hf. induction kws as [|k kws IH]; [constructor|].
  cbn [map]. constructor; [|exact IH].
  destruct (f k) eqn:F.
  - left. split; [apply Hf, F|reflexivity].
  - right. split; [|reflexivity].
    intros C. apply Hf in C. congruence.
Qed.

Lemma keywords_section_nil (chips : list jsstring) :
  keywords_section chips = [] -> chips = [].
Proof. destruct chips; [reflexivity|discriminate]. Qed.

(** [buildKeywords] returns the section of the chips of the keyword
    lines, each flagged by [isMatch]. *)
Lemma buildKeywords_section (st : page) (raw : jsstring) :
  buildKeywords st raw
  = keywords_section
      (map (fun k => keyword_chip (isMatch st k) k) (keyword_lines raw)).
Proof.
  unfold keyword_lines. rewrite <- keywords_of_lines.
  unfold buildKeywords.
  destruct (trim raw) as [|c r] eqn:T.
  - cbn [truthy_str negb]. rewrite orb_true_r.
    apply keywords_of_nil_iff in T. rewrite T. reflexivity.
  - assert (Hr : truthy_str raw = true)
      by (destruct raw; [discriminate T|reflexivity]).
    rewrite Hr. cbn [truthy_str negb orb].
    destruct (keywords_of raw) as [|k ks] eqn:K.
    + apply keywords_of_nil_iff in K. congruence.
    + cbn [length Nat.eqb]. rewrite join_nil_concat. reflexivity.
Qed.

(** C8.  The flag of a keyword chip is containment in either direction.
    For every keyword field and every set of active query tokens,
    [buildKeywords] returns the section of the chips of the keywords of
    the field (its lines, trimmed, the empty ones dropped), in order, in
    which the chip of a keyword has the match class if and only if some
    active query token occurs in the keyword or the keyword occurs in
    that token; the test [isMatch] that sets the class is that
    containment, not equality. *)
Theorem keyword_chips_flag_containment (st : page) (raw k : jsstring) :
  (isMatch st k = true <-> contained (_queryTokens st) k)
  /\ keywords_of raw = keyword_lines raw
  /\ exists chips,
       flagged_chips (_queryTokens st) (keyword_lines raw) chips
       /\ buildKeywords st raw = keywords_section chips.
Proof.
  split; [apply isMatch_contained|].
  split; [apply keywords_of_lines|].
  exists (map (fun k => keyword_chip (isMatch st k) k) (keyword_lines raw)).
  split; [|apply buildKeywords_section].
  apply flagged_chips_map. intros k'. apply isMatch_contained.
Qed.

(** A card body ends with the keyword section of its document. *)
Lemma renderCardBody_with_keywords (hl : page -> list jsstring)
    (st : page) (doc : document) (b : jsstring) :
  renderCardBody_with hl st doc = Ok b ->
  (b = [] /\ buildKeywords st (keyword_text doc) = [])
  \/ exists pre,
       b = pre ++ buildKeywords st (keyword_text doc) ++ lit "</div>".
Proof.
  unfold renderCardBody_with.
  set (people := join [] (filter truthy_str _)).
  set (kw := buildKeywords st (keyword_text doc)).
  assert (G : forall a,
    (if negb (truthy_str people) && negb (truthy_str a)
        && negb (truthy_str kw)
     then Ok []
     else Ok (html "<div class='card-body'>"
              ++ (if truthy_str people
                  then html "<div class='card-people'>" ++ people
                       ++ lit "</div>"
                  else [])
              ++ a ++ kw ++ lit "</div>")) = Ok b ->
    (b = [] /\ kw = [])
    \/ exists pre, b = pre ++ kw ++ lit "</div>").
  { intros a H.
    destruct (negb (truthy_str people) && negb (truthy_str a)
              && negb (truthy_str kw)) eqn:C.
    - left. assert (E : b = []) by congruence. split; [exact E|].
      apply andb_true_iff in C. destruct C as [_ C].
      apply negb_true_iff in C. apply truthy_str_nil_iff, C.
    - right.
      exists (html "<div class='card-body'>"
              ++ (if truthy_str people
                  then html "<div class='card-people'>" ++ people
                       ++ lit "</div>"
                  else [])
              ++ a).
      assert (E : b = html "<div class='card-body'>"
                      ++ (if truthy_str people
                          then html "<div class='card-people'>" ++ people
                               ++ lit "</div>"
                          else [])
                      ++ a ++ kw ++ lit "</div>") by congruence.
      rewrite E, <- !app_assoc. reflexivity. }
  destruct (truthy_str (abs_text doc)).
  - rewrite highlight_wrap. cbn [bind]. apply G.
  - cbn [bind]. apply G.
Qed.

(** C10.  In [src/unnamed/part_000] the flags of the keyword chips come
    from the tokens of the original query, never from the tokens of the
    expanded query that drive the highlighting.  Two searches from the
    same page with the same input, whose responses hold the same results
    and differ in [expanded_query] only, both end with the tokens of the
    original query in [_queryTokens]; and for every result, the two
    cards shown for it hold the same keyword section: the chips of the
    keywords of the document, in order, the chip of a keyword with the
    match class exactly when the keyword and a token of the original
    query contain one another. *)
Theorem keyword_flags_ignore_expansion (input : jsstring)
    (data1 data2 : response) (st : page)
    (cs1 cs2 : list (jsstring * jsstring)) (i : nat) (doc : document)
    (h1 b1 h2 b2 : jsstring) :
  truthy_str (trim input) = true ->
  results data1 = results data2 ->
  resultsContainer (snd (Toggles.runSearch input data1 st)) = Cards cs1 ->
  resultsContainer (snd (Toggles.runSearch input data2 st)) = Cards cs2 ->
  nth_error (results data1) i = Some doc ->
  nth_error cs1 i = Some (h1, b1) ->
  nth_error cs2 i = Some (h2, b2) ->
  _queryTokens (snd (Toggles.runSearch input data1 st))
  = spec_tokenize (trim input)
  /\ _queryTokens (snd (Toggles.runSearch input data2 st))
     = spec_tokenize (trim input)
  /\ exists chips,
       flagged_chips (spec_tokenize (trim input))
                     (keyword_lines (keyword_text doc)) chips
       /\ body_keywords b1 chips /\ body_keywords b2 chips.
Proof.
  intros Hin Hres Hc1 Hc2 Hdoc Hn1 Hn2.
  assert (Hne : trim input <> [])
    by (intros T; rewrite T in Hin; discriminate).
  destruct (Toggles_tokenise_total (expanded_query data1)) as [E1 HE1].
  destruct (Toggles_tokenise_total (expanded_query data2)) as [E2 HE2].
  destruct (Toggles_runSearch_state input data1 st E1 Hne HE1)
    as (Hq1 & _ & Hr1).
  destruct (Toggles_runSearch_state input data2 st E2 Hne HE2)
    as (Hq2 & _ & Hr2).
  cbv zeta in Hq1, Hq2, Hr1, Hr2.
  specialize (Hr1 cs1 Hc1). specialize (Hr2 cs2 Hc2).
  set (st1 := snd (Toggles.runSearch input data1 st)) in *.
  set (st2 := snd (Toggles.runSearch input data2 st)) in *.
  split; [exact Hq1|]. split; [exact Hq2|].
  assert (B : forall st' data cs h b,
    _queryTokens st' = spec_tokenize (trim input) ->
    render_cards Toggles.renderCardHeader Toggles.renderCardBody st' 0
                 (results data) = Ok cs ->
    nth_error (results data) i = Some doc ->
    nth_error cs i = Some (h, b) ->
    body_keywords b
      (map (fun k => keyword_chip (isMatch st1 k) k)
           (keyword_lines (keyword_text doc)))).
  { intros st' data cs h b Hq Hr Hd Hn.
    destruct (render_cards_nth _ _ _ _ 0 cs Hr) as [_ Hnth].
    destruct (Hnth i doc Hd) as (h' & b' & Hn' & _ & Hb).
    assert (Eb : b' = b) by congruence. subst b'.
    assert (Ek : buildKeywords st' (keyword_text doc)
                 = keywords_section
                     (map (fun k => keyword_chip (isMatch st1 k) k)
                          (keyword_lines (keyword_text doc)))).
    { rewrite buildKeywords_section. f_equal. apply map_ext. intros k.
      rewrite (isMatch_tokens st' st1 k) by congruence. reflexivity. }
    destruct (renderCardBody_with_keywords _ st' doc b Hb)
      as [[Hb0 Hk0] | [pre Hpre]].
    - left. split; [exact Hb0|].
      rewrite Ek in Hk0. apply keywords_section_nil, Hk0.
    - right. exists pre. rewrite <- Ek. exact Hpre. }
  exists (map (fun k => keyword_chip (isMatch st1 k) k)
              (keyword_lines (keyword_text doc))).
  split.
  - rewrite <- Hq1. apply flagged_chips_map. intros k.
    apply isMatch_contained.
  - split.
    + exact (B st1 data1 cs1 h1 b1 Hq1 Hr1 Hdoc Hn1).
    + rewrite Hres in Hdoc.
      exact (B st2 data2 cs2 h2 b2 Hq2 Hr2 Hdoc Hn2).
Qed.

Lemma keyword_flags_ignore_expansion_witness :
  let st1 := snd (Toggles.runSearch (lit "net") plain_response
                                    initial_page) in
  let st2 := snd (Toggles.runSearch (lit "net") expanded_response
                                    initial_page) in
  let b1 := snd (nth 0 (cards_of st1) ([], [])) in
  let b2 := snd (nth 0 (cards_of st2) ([], [])) in
  truthy_str (trim (lit "net")) = true
  /\ results plain_response = results expanded_response
  /\ resultsContainer st1 = Cards (cards_of st1)
  /\ resultsContainer st2 = Cards (cards_of st2)
  /\ nth_error (results plain_response) 0 = Some net_thesis
  /\ nth_error (cards_of st1) 0
     = Some (fst (nth 0 (cards_of st1) ([], [])), b1)
  /\ nth_error (cards_of st2) 0
     = Some (fst (nth 0 (cards_of st2) ([], [])), b2)
  /\ _queryTokens st1 = spec_tokenize (trim (lit "net"))
  /\ _queryTokens st2 = spec_tokenize (trim (lit "net"))
  /\ exists chips,
       flagged_chips (spec_tokenize (trim (lit "net")))
                     (keyword_lines (keyword_text net_thesis)) chips
       /\ body_keywords b1 chips /\ body_keywords b2 chips.
Proof.
  cbv zeta.
  assert (H1 : truthy_str (trim (lit "net")) = true) by reflexivity.
  assert (H2 : results plain_response = results expanded_response)
    by reflexivity.
  assert (H3 : resultsContainer
                 (snd (Toggles.runSearch (lit "net") plain_response
                         initial_page))
               = Cards (cards_of (snd (Toggles.runSearch (lit "net")
                                         plain_response initial_page))))
    by (vm_compute; reflexivity).
  assert (H4 : resultsContainer
                 (snd (Toggles.runSearch (lit "net") expanded_response
                         initial_page))
               = Cards (cards_of (snd (Toggles.runSearch (lit "net")
                                         expanded_response initial_page))))
    by (vm_compute; reflexivity).
  assert (H5 : nth_error (results plain_response) 0 = Some net_thesis)
    by reflexivity.
  assert (H6 : nth_error (cards_of (snd (Toggles.runSearch (lit "net")
                                          plain_response initial_page))) 0
               = Some (fst (nth 0 (cards_of (snd (Toggles.runSearch
                                (lit "net") plain_response initial_page)))
                              ([], [])),
                       snd (nth 0 (cards_of (snd (Toggles.runSearch
                                (lit "net") plain_response initial_page)))
                              ([], []))))
    by (vm_compute; reflexivity).
  assert (H7 : nth_error (cards_of (snd (Toggles.runSearch (lit "net")
                                          expanded_response initial_page))) 0
               = Some (fst (nth 0 (cards_of (snd (Toggles.runSearch
                                (lit "net") expanded_response
                                initial_page)))
                              ([], [])),
                       snd (nth 0 (cards_of (snd (Toggles.runSearch
                                (lit "net") expanded_response
                                initial_page)))
                              ([], []))))
    by (vm_compute; reflexivity).
  repeat (split; [assumption|]).
  exact (keyword_flags_ignore_expansion (lit "net") plain_response
           expanded_response initial_page _ _ 0 net_thesis _ _ _ _
           H1 H2 H3 H4 H5 H6 H7).
Defined.
